(** * social-mcp-agent: agent lifecycle, capability registry, message router

    A shallow embedding of
    - [src/middleware/mcp-middleware.js] (McpMiddleware, MessageRouter,
      CapabilityRegistry),
    - [src/agents/base-agent.js], [src/agents/content-analysis-agent.js],
      [src/agents/twitter-agent.js],
    - [src/utils/logger.js] (createSubLogger),
    followed by the properties proved about them.

    Conventions.  A JavaScript [Map] keyed by strings is a [gmap string _].
    Mutable objects are threaded as explicit state; a method that may throw
    returns an [outcome] next to the state it leaves behind, since the
    mutations done before a [throw] stay visible.  An [async] method is
    modelled by the settlement of its promise: [Ret] for fulfilment, [Throw]
    for rejection; handlers are assumed to settle, and calls are made one
    after the other, each awaited before the next. *)

From stdpp Require Import gmap strings list fin_maps.
From Stdlib Require Import ZArith NArith QArith Qminmax.

Set Warnings "-register-all".
Close Scope Q_scope.
Open Scope string_scope.
Open Scope list_scope.

(** ** JavaScript values and exceptions *)

(** JSON-like data exchanged with handlers: parameters, results, envelopes. *)
Inductive value :=
| VUndefined
| VNull
| VBool (b : bool)
| VNum (n : Z)
| VStr (s : string)
| VArr (items : list value)
| VObj (fields : list (string * value)).

(** Property read [o.key] on a value that is known not to be nullish. *)
Fixpoint get_field (key : string) (fields : list (string * value)) : value :=
  match fields with
  | [] => VUndefined
  | (k, v) :: rest => if String.eqb k key then v else get_field key rest
  end.

Definition get_prop (key : string) (v : value) : value :=
  match v with
  | VObj fields => get_field key fields
  | _ => VUndefined
  end.

(** [key in o], for own properties of an object value. *)
Definition has_prop (key : string) (v : value) : bool :=
  match v with
  | VObj fields => existsb (fun kv => String.eqb (fst kv) key) fields
  | _ => false
  end.

(** The two values on which a property read throws. *)
Inductive nullish := Null | Undefined.

(** What a [throw] carries.  [JsError m] stands for [new Error(m)] and for
    any other non-nullish thrown value, [m] being the text that
    [`${error.message}`] yields for it; [JsNullish Null] is [throw null]
    and [JsNullish Undefined] is [throw undefined]. *)
Inductive thrown :=
| JsError (message : string)
| JsNullish (v : nullish).

Inductive outcome (A : Type) :=
| Ret (a : A)
| Throw (e : thrown).
Arguments Ret {A} a.
Arguments Throw {A} e.

(** The engine's TypeError for reading [message] on [null] or on
    [undefined] (V8's wording, which names the value). *)
Definition TypeError_read_message (v : nullish) : thrown :=
  match v with
  | Null => JsError "Cannot read properties of null (reading 'message')"
  | Undefined => JsError "Cannot read properties of undefined (reading 'message')"
  end.

(** The engine's TypeError for calling [callee], which is not a function. *)
Definition TypeError_not_a_function (callee : string) : thrown :=
  JsError (String.append callee " is not a function").

(** [error.message] inside a [catch (error)] block. *)
Definition read_message (error : thrown) : outcome string :=
  match error with
  | JsError m => Ret m
  | JsNullish v => Throw (TypeError_read_message v)
  end.

(** State and exception monad: [S] is the object the method mutates. *)
Definition M (S A : Type) : Type := S -> S * outcome A.

Definition ret {S A} (a : A) : M S A := fun s => (s, Ret a).
Definition throw {S A} (e : thrown) : M S A := fun s => (s, Throw e).
Definition bind {S A B} (m : M S A) (k : A -> M S B) : M S B :=
  fun s => match m s with
           | (s', Ret a) => k a s'
           | (s', Throw e) => (s', Throw e)
           end.
(** [try { body } catch (error) { handler }] *)
Definition try_catch {S A} (body : M S A) (handler : thrown -> M S A) : M S A :=
  fun s => match body s with
           | (s', Ret a) => (s', Ret a)
           | (s', Throw e) => handler e s'
           end.
Definition modify {S} (f : S -> S) : M S unit := fun s => (f s, Ret tt).
Definition gets {S A} (f : S -> A) : M S A := fun s => (s, Ret (f s)).
(** Lift a computation that has no state of its own. *)
Definition lift {S A} (o : outcome A) : M S A := fun s => (s, o).

Declare Scope js_scope.
Delimit Scope js_scope with js.
Notation "x <- m ;; k" := (bind m (fun x => k))
  (at level 100, m at next level, right associativity) : js_scope.
Notation "m ;;; k" := (bind m (fun _ => k))
  (at level 100, right associativity) : js_scope.
Open Scope js_scope.

(** [list.forEach(x => body(x))]: stops at the first exception. *)
Fixpoint forEach {S A} (l : list A) (body : A -> M S unit) : M S unit :=
  match l with
  | [] => ret tt
  | x :: rest => body x ;;; forEach rest body
  end.

(** ** utils/logger.js *)

Inductive level := Info | Warn | Error | Debug.

Record log_entry := { lvl : level; msg : string }.

(** [logger.createSubLogger(context)]: every message is prefixed with the
    context in brackets. *)
Definition createSubLogger (context : string) (l : level) (message : string)
  : log_entry :=
  {| lvl := l; msg := "[" +:+ context +:+ "] " +:+ message |}.

(** ** Tool and resource descriptors *)

(** A handler is represented by the settlement it produces for each
    parameter value at the time of the call. *)
Definition handler_fn := value -> outcome value.

(** [{name, description, inputSchema, handler, agentId}]; [None] is a
    property that is absent. *)
Record descriptor := {
  name : option string;
  description : option string;
  inputSchema : option value;
  handler : option handler_fn;
  agentId : option string
}.

(** Truthiness of a string-valued property: absent and [''] are falsy. *)
Definition truthy_str (p : option string) : bool :=
  match p with
  | Some s => negb (String.eqb s "")
  | None => false
  end.

Definition truthy {A} (p : option A) : bool :=
  match p with Some _ => true | None => false end.

(** [`${x}`] for a string-valued property. *)
Definition show (p : option string) : string :=
  match p with Some s => s | None => "undefined" end.

(** The map key a string-valued property denotes; only used on a property
    that has passed the truthiness check, hence is present. *)
Definition key_of (p : option string) : string :=
  match p with Some s => s | None => "undefined" end.

(** [d.handler(params)], where [callee] is the source text of [d.handler]. *)
Definition call_handler (callee : string) (h : option handler_fn) (params : value)
  : outcome value :=
  match h with
  | Some f => f params
  | None => Throw (TypeError_not_a_function callee)
  end.

(** ** middleware/mcp-middleware.js: CapabilityRegistry *)

Module CapabilityRegistry.

Record t := {
  tools : gmap string descriptor;
  resources : gmap string descriptor;
  log : list log_entry
}.

Definition logger (l : level) (message : string) : M t unit :=
  modify (fun r => {| tools := tools r; resources := resources r;
                      log := log r ++ [createSubLogger "CapabilityRegistry" l message] |}).

(** [constructor()] *)
Definition new : t := {| tools := ∅; resources := ∅; log := [] |}.

Definition set_tools (f : gmap string descriptor -> gmap string descriptor) : M t unit :=
  modify (fun r => {| tools := f (tools r); resources := resources r; log := log r |}).
Definition set_resources (f : gmap string descriptor -> gmap string descriptor) : M t unit :=
  modify (fun r => {| tools := tools r; resources := f (resources r); log := log r |}).

(** [{ isError: true, content: { message } }] *)
Definition error_result (message : string) : value :=
  VObj [("isError", VBool true); ("content", VObj [("message", VStr message)])].

(** Tool request handlers installed by [initialize(server)]. *)

(** [list: async () => ({ tools: Array.from(this.tools.values()) })];
    the listing is the map's values (JavaScript enumerates them in
    insertion order, which [map_to_list] does not keep). *)
Definition listTools (r : t) : list descriptor := (map_to_list (tools r)).*2.

(** [call: async (params) => ...] with [{ name, params: toolParams } = params] *)
Definition call (name : string) (toolParams : value) : M t value :=
  tool_opt <- gets (fun r => tools r !! name) ;;
  match tool_opt with
  | None => throw (JsError ("Outil '" +:+ name +:+ "' non trouvé"))
  | Some tool =>
      try_catch
        (lift (call_handler "tool.handler" (handler tool) toolParams))
        (fun error =>
           m <- lift (read_message error) ;;
           logger Error ("Erreur lors de l'exécution de l'outil '" +:+ name +:+ "': " +:+ m) ;;;
           ret (error_result ("Erreur: " +:+ m)))
  end.

(** Resource request handlers installed by [initialize(server)]. *)

Definition listResources (r : t) : list descriptor := (map_to_list (resources r)).*2.

(** [get: async (params) => ...] with [{ name, params: resourceParams } = params] *)
Definition get (name : string) (resourceParams : value) : M t value :=
  resource_opt <- gets (fun r => resources r !! name) ;;
  match resource_opt with
  | None => throw (JsError ("Ressource '" +:+ name +:+ "' non trouvée"))
  | Some resource =>
      try_catch
        (lift (call_handler "resource.handler" (handler resource) resourceParams))
        (fun error =>
           m <- lift (read_message error) ;;
           logger Error ("Erreur lors de la récupération de la ressource '" +:+ name +:+ "': " +:+ m) ;;;
           throw error)
  end.

Definition registerTool (tool : descriptor) : M t unit :=
  if negb (truthy_str (name tool)) || negb (truthy (handler tool))
  then throw (JsError "Un outil doit avoir un nom et un gestionnaire")
  else
    let key := key_of (name tool) in
    set_tools (fun m => <[key := tool]> m) ;;;
    logger Debug ("Outil '" +:+ show (name tool) +:+ "' enregistré").

(** [name] is [tool.name] of the caller, possibly [undefined], which is
    never a key. *)
Definition unregisterTool (name : option string) : M t unit :=
  match name with
  | Some n =>
      has <- gets (fun r => bool_decide (is_Some (tools r !! n))) ;;
      if has : bool
      then set_tools (fun m => delete n m) ;;;
           logger Debug ("Outil '" +:+ n +:+ "' désenregistré")
      else ret tt
  | None => ret tt
  end.

Definition registerResource (resource : descriptor) : M t unit :=
  if negb (truthy_str (name resource)) || negb (truthy (handler resource))
  then throw (JsError "Une ressource doit avoir un nom et un gestionnaire")
  else
    let key := key_of (name resource) in
    set_resources (fun m => <[key := resource]> m) ;;;
    logger Debug ("Ressource '" +:+ show (name resource) +:+ "' enregistrée").

Definition unregisterResource (name : option string) : M t unit :=
  match name with
  | Some n =>
      has <- gets (fun r => bool_decide (is_Some (resources r !! n))) ;;
      if has : bool
      then set_resources (fun m => delete n m) ;;;
           logger Debug ("Ressource '" +:+ n +:+ "' désenregistrée")
      else ret tt
  | None => ret tt
  end.

End CapabilityRegistry.

(** ** middleware/mcp-middleware.js: MessageRouter *)

Module MessageRouter.

(** A JSON-RPC message [{ id, method, params }]; [method] is a string as
    documented ([@param {string} method]). *)
Record message := {
  id : value;
  method : string;
  params : value
}.

Abbreviation route_handler := (message -> outcome value).

Record t := {
  routes : gmap string route_handler;
  log : list log_entry
}.

Definition logger (l : level) (text : string) : M t unit :=
  modify (fun r => {| routes := routes r;
                      log := log r ++ [createSubLogger "MessageRouter" l text] |}).

Definition new : t := {| routes := ∅; log := [] |}.

Definition registerRoute (method : string) (handler : route_handler) : M t unit :=
  modify (fun r => {| routes := <[method := handler]> (routes r); log := log r |}) ;;;
  logger Debug ("Route '" +:+ method +:+ "' enregistrée").

(** [{ jsonrpc: '2.0', id: message.id, error: { code, message } }] *)
Definition error_envelope (id : value) (code : Z) (text : string) : value :=
  VObj [("jsonrpc", VStr "2.0"); ("id", id);
        ("error", VObj [("code", VNum code); ("message", VStr text)])].

Definition METHOD_NOT_FOUND : Z := -32601.
Definition INTERNAL_ERROR : Z := -32000.

Definition routeMessage (message : message) : M t value :=
  let method := method message in
  handler_opt <- gets (fun r => routes r !! method) ;;
  match handler_opt with
  | None =>
      logger Warn ("Aucune route trouvée pour la méthode '" +:+ method +:+ "'") ;;;
      ret (error_envelope (id message) METHOD_NOT_FOUND
             ("Méthode '" +:+ method +:+ "' non trouvée"))
  | Some handler =>
      try_catch
        (lift (handler message))
        (fun error =>
           m <- lift (read_message error) ;;
           logger Error ("Erreur lors du traitement de la méthode '" +:+ method +:+ "': " +:+ m) ;;;
           ret (error_envelope (id message) INTERNAL_ERROR ("Erreur interne: " +:+ m)))
  end.

End MessageRouter.

(** ** agents/base-agent.js *)

Module BaseAgent.

(** [emit(event, arg)] as seen by an observer of the EventEmitter. *)
Record emission := { event : string; arg : option descriptor }.

(** The agent object.  [logger_context] is the context given to
    [createSubLogger] by the constructor; [ext] holds the fields a
    subclass adds; [config] is stored by the constructor and read by none
    of the methods below, and is left out. *)
Record t (X : Type) := {
  id : string;
  tools : list descriptor;
  resources : list descriptor;
  running : bool;
  logger_context : string;
  emitted : list emission;
  log : list log_entry;
  ext : X
}.
Arguments id {X}.
Arguments tools {X}.
Arguments resources {X}.
Arguments running {X}.
Arguments logger_context {X}.
Arguments emitted {X}.
Arguments log {X}.
Arguments ext {X}.

Section Methods.
Context {X : Type}.

(** [this.logger.<level>(message(this.id))]: the message is built from
    the id the agent has when the call is made. *)
Definition logger (l : level) (message : string -> string) : M (t X) unit :=
  modify (fun a => {| id := id a; tools := tools a; resources := resources a;
                      running := running a; logger_context := logger_context a;
                      emitted := emitted a;
                      log := log a ++ [createSubLogger (logger_context a) l (message (id a))];
                      ext := ext a |}).

(** [this.emit(event, arg)]; no listener is modelled. *)
Definition emit (event : string) (arg : option descriptor) : M (t X) unit :=
  modify (fun a => {| id := id a; tools := tools a; resources := resources a;
                      running := running a; logger_context := logger_context a;
                      emitted := emitted a ++ [{| event := event; arg := arg |}];
                      log := log a; ext := ext a |}).

Definition set_running (b : bool) : M (t X) unit :=
  modify (fun a => {| id := id a; tools := tools a; resources := resources a;
                      running := b; logger_context := logger_context a;
                      emitted := emitted a; log := log a; ext := ext a |}).

Definition push_tool (d : descriptor) : M (t X) unit :=
  modify (fun a => {| id := id a; tools := tools a ++ [d]; resources := resources a;
                      running := running a; logger_context := logger_context a;
                      emitted := emitted a; log := log a; ext := ext a |}).

Definition push_resource (d : descriptor) : M (t X) unit :=
  modify (fun a => {| id := id a; tools := tools a; resources := resources a ++ [d];
                      running := running a; logger_context := logger_context a;
                      emitted := emitted a; log := log a; ext := ext a |}).

Definition set_ext (f : X -> X) : M (t X) unit :=
  modify (fun a => {| id := id a; tools := tools a; resources := resources a;
                      running := running a; logger_context := logger_context a;
                      emitted := emitted a; log := log a; ext := f (ext a) |}).

(** [constructor(id, config)] *)
Definition new (id : string) (x : X) : t X :=
  {| id := id; tools := []; resources := []; running := false;
     logger_context := "Agent-" +:+ id; emitted := [];
     log := [createSubLogger ("Agent-" +:+ id) Info ("Agent '" +:+ id +:+ "' créé")];
     ext := x |}.

(** [async initialize()] of the base class. *)
Definition initialize : M (t X) unit :=
  logger Info (fun id => "Initialisation de l'agent '" +:+ id +:+ "'").

(** [async start()]; [this_initialize] is [this.initialize], resolved
    on the class of the receiver. *)
Definition start (this_initialize : M (t X) unit) : M (t X) unit :=
  running <- gets running ;;
  if running : bool
  then logger Warn (fun id => "L'agent '" +:+ id +:+ "' est déjà en cours d'exécution")
  else
    try_catch
      (this_initialize ;;;
       set_running true ;;;
       logger Info (fun id => "Agent '" +:+ id +:+ "' démarré") ;;;
       emit "started" None)
      (fun error =>
         m <- lift (read_message error) ;;
         logger Error (fun id =>
           "Erreur lors du démarrage de l'agent '" +:+ id +:+ "': " +:+ m) ;;;
         throw error).

(** [async stop()] *)
Definition stop : M (t X) unit :=
  running <- gets running ;;
  if negb running
  then logger Warn (fun id => "L'agent '" +:+ id +:+ "' n'est pas en cours d'exécution")
  else
    try_catch
      (set_running false ;;;
       logger Info (fun id => "Agent '" +:+ id +:+ "' arrêté") ;;;
       emit "stopped" None)
      (fun error =>
         m <- lift (read_message error) ;;
         logger Error (fun id =>
           "Erreur lors de l'arrêt de l'agent '" +:+ id +:+ "': " +:+ m) ;;;
         throw error).

(** [{ ...d, agentId: id }] *)
Definition with_agentId (d : descriptor) (id : string) : descriptor :=
  {| name := name d; description := description d; inputSchema := inputSchema d;
     handler := handler d; agentId := Some id |}.

Definition registerTool (tool : descriptor) : M (t X) descriptor :=
  if negb (truthy_str (name tool)) || negb (truthy_str (description tool))
     || negb (truthy (handler tool))
  then throw (JsError "Un outil doit avoir un nom, une description et un gestionnaire")
  else
    id <- gets id ;;
    let toolWithAgent := with_agentId tool id in
    push_tool toolWithAgent ;;;
    logger Debug (fun id =>
      "Outil '" +:+ show (name tool) +:+ "' enregistré par l'agent '" +:+ id +:+ "'") ;;;
    emit "tool-registered" (Some toolWithAgent) ;;;
    ret toolWithAgent.

Definition registerResource (resource : descriptor) : M (t X) descriptor :=
  if negb (truthy_str (name resource)) || negb (truthy_str (description resource))
     || negb (truthy (handler resource))
  then throw (JsError "Une ressource doit avoir un nom, une description et un gestionnaire")
  else
    id <- gets id ;;
    let resourceWithAgent := with_agentId resource id in
    push_resource resourceWithAgent ;;;
    logger Debug (fun id =>
      "Ressource '" +:+ show (name resource) +:+ "' enregistrée par l'agent '"
      +:+ id +:+ "'") ;;;
    emit "resource-registered" (Some resourceWithAgent) ;;;
    ret resourceWithAgent.

Definition getTools (a : t X) : list descriptor := tools a.
Definition getResources (a : t X) : list descriptor := resources a.

End Methods.

End BaseAgent.

(** ** agents/content-analysis-agent.js: lifecycle *)

Module ContentAnalysisAgent.

(** Fields added to the base agent.  [queueInterval] is the handle kept
    in [this.queueInterval]; [intervals] are the interval timers this
    agent has set on the event loop and not cleared; [nextHandle] is the
    handle the next [setInterval] returns.  The analysis queue and the
    result store are only touched by the analysis methods and the timer
    callback. *)
Record fields := {
  queueInterval : option nat;
  intervals : list nat;
  nextHandle : nat
}.

Definition agent := BaseAgent.t fields.

Definition type_object : value := VObj [("type", VStr "object")].
Definition type_string : value := VObj [("type", VStr "string")].
Definition type_boolean : value := VObj [("type", VStr "boolean")].

Definition analyze_text_schema : value :=
  VObj [("type", VStr "object");
        ("properties", VObj [
           ("text", type_string);
           ("options", VObj [
              ("type", VStr "object");
              ("properties", VObj [
                 ("extractSentiment", type_boolean);
                 ("extractTopics", type_boolean);
                 ("extractEntities", type_boolean);
                 ("language", type_string)])])]);
        ("required", VArr [VStr "text"])].

Definition analyze_image_schema : value :=
  VObj [("type", VStr "object");
        ("properties", VObj [
           ("imageUrl", type_string);
           ("imageBase64", type_string);
           ("options", VObj [
              ("type", VStr "object");
              ("properties", VObj [
                 ("detectObjects", type_boolean);
                 ("detectScenes", type_boolean);
                 ("extractText", type_boolean);
                 ("moderateContent", type_boolean)])])]);
        ("oneOf", VArr [VObj [("required", VArr [VStr "imageUrl"])];
                        VObj [("required", VArr [VStr "imageBase64"])]])].

Definition analyze_post_schema : value :=
  VObj [("type", VStr "object");
        ("properties", VObj [
           ("text", type_string);
           ("mediaUrls", VObj [("type", VStr "array"); ("items", type_string)]);
           ("platform", type_string);
           ("options", VObj [
              ("type", VStr "object");
              ("properties", VObj [
                 ("extractHashtags", type_boolean);
                 ("predictEngagement", type_boolean);
                 ("detectTrends", type_boolean)])])]);
        ("required", VArr [VStr "text"])].

Section Lifecycle.
(** [this.analyzeText.bind(this)] and the three other bound methods
    registered as handlers; the lifecycle never calls them. *)
Variables analyzeText_bound analyzeImage_bound analyzePost_bound
          getAnalysisResults_bound : handler_fn.

Definition analyze_text_tool : descriptor :=
  {| name := Some "analyze_text";
     description := Some "Analyse le contenu textuel pour en extraire le sentiment, les sujets et les entités";
     inputSchema := Some analyze_text_schema;
     handler := Some analyzeText_bound;
     agentId := None |}.

Definition analyze_image_tool : descriptor :=
  {| name := Some "analyze_image";
     description := Some "Analyse le contenu des images pour en extraire les objets, scènes et texte";
     inputSchema := Some analyze_image_schema;
     handler := Some analyzeImage_bound;
     agentId := None |}.

Definition analyze_post_tool : descriptor :=
  {| name := Some "analyze_post";
     description := Some "Analyse un post complet (texte et média) des réseaux sociaux";
     inputSchema := Some analyze_post_schema;
     handler := Some analyzePost_bound;
     agentId := None |}.

Definition content_analysis_results : descriptor :=
  {| name := Some "content_analysis_results";
     description := Some "Résultats des analyses de contenu précédentes";
     inputSchema := None;
     handler := Some getAnalysisResults_bound;
     agentId := None |}.

(** [constructor(agentConfig = {})] *)
Definition new : agent :=
  let a := BaseAgent.new "content-analysis"
             {| queueInterval := None; intervals := []; nextHandle := 1 |} in
  fst (BaseAgent.logger Info (fun _ => "Agent d'analyse de contenu créé") a).

(** [async initialize()] *)
Definition initialize : M agent unit :=
  BaseAgent.initialize ;;;
  BaseAgent.registerTool analyze_text_tool ;;;
  BaseAgent.registerTool analyze_image_tool ;;;
  BaseAgent.registerTool analyze_post_tool ;;;
  BaseAgent.registerResource content_analysis_results ;;;
  BaseAgent.logger Info (fun _ => "Agent d'analyse de contenu initialisé").

(** [this.queueInterval = setInterval(..., 100)] *)
Definition startQueueProcessor : M agent unit :=
  BaseAgent.set_ext (fun x =>
    {| queueInterval := Some (nextHandle x);
       intervals := intervals x ++ [nextHandle x];
       nextHandle := S (nextHandle x) |}).

(** [if (this.queueInterval) { clearInterval(...); this.queueInterval = null }] *)
Definition stopQueueProcessor : M agent unit :=
  BaseAgent.set_ext (fun x =>
    match queueInterval x with
    | Some h =>
        {| queueInterval := None;
           intervals := filter (fun h' => h' ≠ h) (intervals x);
           nextHandle := nextHandle x |}
    | None => x
    end).

(** [async start()] *)
Definition start : M agent unit :=
  BaseAgent.start initialize ;;;
  startQueueProcessor ;;;
  BaseAgent.logger Info (fun _ => "Agent d'analyse de contenu démarré").

(** [async stop()] *)
Definition stop : M agent unit :=
  stopQueueProcessor ;;;
  BaseAgent.stop ;;;
  BaseAgent.logger Info (fun _ => "Agent d'analyse de contenu arrêté").

End Lifecycle.

End ContentAnalysisAgent.

(** ** agents/twitter-agent.js *)

Module TwitterAgent.

Definition agent := BaseAgent.t unit.

(** [async searchTweets(params) { return { success: true, content: [] } }] *)
Definition searchTweets : handler_fn :=
  fun _ => Ret (VObj [("success", VBool true); ("content", VArr [])]).

Definition search_tweets_tool : descriptor :=
  {| name := Some "search_tweets";
     description := Some "Recherche des tweets";
     inputSchema := None;
     handler := Some searchTweets;
     agentId := None |}.

Definition new : agent :=
  fst (BaseAgent.logger Info (fun _ => "Agent Twitter créé") (BaseAgent.new "twitter" tt)).

Definition initialize : M agent unit :=
  BaseAgent.initialize ;;;
  BaseAgent.registerTool search_tweets_tool ;;;
  ret tt.

(** [start] and [stop] are inherited. *)
Definition start : M agent unit := BaseAgent.start initialize.
Definition stop : M agent unit := BaseAgent.stop.

End TwitterAgent.

(** ** middleware/mcp-middleware.js: McpMiddleware *)

Module McpMiddleware.

(** An agent as the middleware uses it: [getTools]/[getResources] are
    [None] when the object has no such method, and otherwise hold the
    list the method returns when it is called. *)
Record agent_obj := {
  getTools : option (list descriptor);
  getResources : option (list descriptor)
}.

Definition of_agent {X} (a : BaseAgent.t X) : agent_obj :=
  {| getTools := Some (BaseAgent.getTools a);
     getResources := Some (BaseAgent.getResources a) |}.

(** The server, transport and express application are set up by
    [initialize] and not used by registration. *)
Record t := {
  agents : gmap string agent_obj;
  capabilityRegistry : CapabilityRegistry.t;
  log : list log_entry
}.

Definition new : t :=
  {| agents := ∅; capabilityRegistry := CapabilityRegistry.new; log := [] |}.

Definition logger (l : level) (message : string) : M t unit :=
  modify (fun m => {| agents := agents m; capabilityRegistry := capabilityRegistry m;
                      log := log m ++ [createSubLogger "MCP-Middleware" l message] |}).

Definition set_agents (f : gmap string agent_obj -> gmap string agent_obj) : M t unit :=
  modify (fun m => {| agents := f (agents m); capabilityRegistry := capabilityRegistry m;
                      log := log m |}).

(** Run a registry method on [this.capabilityRegistry]. *)
Definition on_registry {A} (op : M CapabilityRegistry.t A) : M t A :=
  fun m => let '(r, o) := op (capabilityRegistry m) in
           ({| agents := agents m; capabilityRegistry := r; log := log m |}, o).

Definition registerAgent (id : string) (agent : agent_obj) : M t unit :=
  has <- gets (fun m => bool_decide (is_Some (agents m !! id))) ;;
  (if has : bool
   then logger Warn ("Agent avec l'ID " +:+ id +:+ " déjà enregistré, sera remplacé")
   else ret tt) ;;;
  set_agents (fun m => <[id := agent]> m) ;;;
  match getTools agent with
  | Some tools =>
      forEach tools (fun tool => on_registry (CapabilityRegistry.registerTool tool))
  | None => ret tt
  end ;;;
  match getResources agent with
  | Some resources =>
      forEach resources (fun resource =>
        on_registry (CapabilityRegistry.registerResource resource))
  | None => ret tt
  end ;;;
  logger Info ("Agent '" +:+ id +:+ "' enregistré avec succès").

Definition unregisterAgent (id : string) : M t unit :=
  agent_opt <- gets (fun m => agents m !! id) ;;
  match agent_opt with
  | None => logger Warn ("Aucun agent trouvé avec l'ID " +:+ id)
  | Some agent =>
      match getTools agent with
      | Some tools =>
          forEach tools (fun tool =>
            on_registry (CapabilityRegistry.unregisterTool (name tool)))
      | None => ret tt
      end ;;;
      match getResources agent with
      | Some resources =>
          forEach resources (fun resource =>
            on_registry (CapabilityRegistry.unregisterResource (name resource)))
      | None => ret tt
      end ;;;
      set_agents (fun m => delete id m) ;;;
      logger Info ("Agent '" +:+ id +:+ "' désenregistré avec succès")
  end.

End McpMiddleware.

(** ** agents/content-analysis-agent.js: analyzeText *)

Module TextAnalysis.

(** The analysed text and the keywords are JavaScript strings: sequences
    of UTF-16 code units. *)
Definition jsstring := list N.

(** Code units of a literal written in this file (UTF-8 source text, one
    to three bytes per character, which covers the Basic Multilingual
    Plane). *)
Fixpoint lit (s : string) : jsstring :=
  match s with
  | EmptyString => []
  | String a rest =>
      let b := Ascii.N_of_ascii a in
      if (b <? 128)%N then b :: lit rest
      else
        match rest with
        | String a1 rest1 =>
            let b1 := Ascii.N_of_ascii a1 in
            if (b <? 224)%N
            then ((b - 192) * 64 + (b1 - 128))%N :: lit rest1
            else
              match rest1 with
              | String a2 rest2 =>
                  let b2 := Ascii.N_of_ascii a2 in
                  ((b - 224) * 4096 + (b1 - 128) * 64 + (b2 - 128))%N :: lit rest2
              | EmptyString => [b; b1]
              end
        | EmptyString => [b]
        end
  end.

(** [String.prototype.toLowerCase], one code unit at a time: exact on
    Basic Latin and Latin-1 Supplement ([A-Z] and [À-Þ] except [×]);
    code units above U+00FF are left unchanged, while the engine
    lower-cases the letters among them (so U+212A to [k] and U+0130 to
    [i] followed by U+0307): on a text that holds such units the result
    is not the engine's. *)
Definition lower_unit (c : N) : N :=
  if ((65 <=? c) && (c <=? 90))%N then (c + 32)%N
  else if ((192 <=? c) && (c <=? 222) && negb (c =? 215))%N then (c + 32)%N
  else c.

Definition toLowerCase (s : jsstring) : jsstring := map lower_unit s.

(** [s.startsWith(p)] *)
Fixpoint startsWith (s p : jsstring) : bool :=
  match p, s with
  | [], _ => true
  | _ :: _, [] => false
  | x :: p', y :: s' => (x =? y)%N && startsWith s' p'
  end.

(** [s.includes(p)] *)
Fixpoint includes (s p : jsstring) : bool :=
  startsWith s p ||
  match s with
  | [] => false
  | _ :: s' => includes s' p
  end.

(** The class [\s] of a regular expression. *)
Definition is_whitespace (c : N) : bool :=
  ((9 <=? c) && (c <=? 13) || (c =? 32) || (c =? 160) || (c =? 5760)
   || (8192 <=? c) && (c <=? 8202) || (c =? 8232) || (c =? 8233)
   || (c =? 8239) || (c =? 8287) || (c =? 12288) || (c =? 65279))%N.

(** [s.split(/\s+/)]: [cur] is the piece being read, in reverse;
    [in_sep] tells that the previous code unit was whitespace. *)
Fixpoint split_aux (cur : jsstring) (in_sep : bool) (s : jsstring) : list jsstring :=
  match s with
  | [] => [rev cur]
  | c :: s' =>
      if is_whitespace c
      then if in_sep then split_aux [] true s'
           else rev cur :: split_aux [] true s'
      else split_aux (c :: cur) false s'
  end.

Definition split_whitespace (s : jsstring) : list jsstring := split_aux [] false s.

(** Numbers of the analysis are kept as exact rationals. *)
Definition Qgtb (a b : Q) : bool := negb (Qle_bool a b).
Definition Qltb (a b : Q) : bool := negb (Qle_bool b a).
Definition Qnat (n : nat) : Q := inject_Z (Z.of_nat n).

Module Sentiment.
Record t := { score : Q; label : string; confidence : Q }.
End Sentiment.

Module Topic.
Record t := { name : string; confidence : Q; matchedKeywords : list jsstring }.
End Topic.

Definition positiveWords : list jsstring :=
  map lit ["bon"; "super"; "excellent"; "génial"; "fantastique"; "heureux";
           "content"; "aimer"; "adorer"].
Definition negativeWords : list jsstring :=
  map lit ["mauvais"; "terrible"; "horrible"; "détester"; "triste"; "déçu";
           "nul"; "médiocre"; "pire"].

(** The two counters after [words.forEach(...)]. *)
Definition count_words (words : list jsstring) : nat * nat :=
  fold_left
    (fun '(positiveScore, negativeScore) word =>
       ((if existsb (fun pw => includes word pw) positiveWords
         then S positiveScore else positiveScore),
        (if existsb (fun nw => includes word nw) negativeWords
         then S negativeScore else negativeScore)))
    words (0, 0).

Definition extract_sentiment (text : jsstring) : Sentiment.t :=
  let words := split_whitespace (toLowerCase text) in
  let '(positiveScore, negativeScore) := count_words words in
  let score :=
    if (0 <? positiveScore + negativeScore)%nat
    then ((Qnat positiveScore - Qnat negativeScore)
          / (Qnat positiveScore + Qnat negativeScore))%Q
    else 0%Q in
  {| Sentiment.score := score;
     Sentiment.label := if Qgtb score 0.2%Q then "positive"
                        else if Qltb score (-0.2)%Q then "negative"
                        else "neutral";
     Sentiment.confidence := 0.7%Q |}.

Definition possibleTopics : list (string * list jsstring) :=
  [("technologie", map lit ["tech"; "technologie"; "ai"; "ia"; "intelligence artificielle";
                            "ordinateur"; "smartphone"; "application"]);
   ("politique", map lit ["politique"; "gouvernement"; "élection"; "président";
                          "ministre"; "débat"]);
   ("sport", map lit ["sport"; "football"; "tennis"; "match"; "équipe"; "championnat";
                      "olympique"; "joueur"]);
   ("divertissement", map lit ["film"; "série"; "musique"; "concert"; "acteur";
                               "chanteur"; "cinéma"; "télévision"]);
   ("santé", map lit ["santé"; "médecine"; "docteur"; "hôpital"; "maladie";
                      "traitement"; "bien-être"])].

(** [possibleTopics.forEach(topic => ...)] pushing onto [topics]. *)
Fixpoint match_topics (lowerText : jsstring) (candidates : list (string * list jsstring))
  : list Topic.t :=
  match candidates with
  | [] => []
  | (name, keywords) :: rest =>
      let matches := List.filter (fun kw => includes lowerText kw) keywords in
      if (0 <? length matches)%nat
      then {| Topic.name := name;
              Topic.confidence := Qmin (Qnat (length matches) / 3) 1;
              Topic.matchedKeywords := matches |} :: match_topics lowerText rest
      else match_topics lowerText rest
  end.

(** [topics.sort((a, b) => b.confidence - a.confidence)]: the sort is
    stable, so the result is the insertion of each element before the
    first later one whose confidence is not greater. *)
Fixpoint insert_topic (x : Topic.t) (sorted : list Topic.t) : list Topic.t :=
  match sorted with
  | [] => [x]
  | y :: rest =>
      if Qgtb (Topic.confidence y) (Topic.confidence x)
      then y :: insert_topic x rest
      else x :: y :: rest
  end.

Fixpoint sort_topics (l : list Topic.t) : list Topic.t :=
  match l with
  | [] => []
  | x :: rest => insert_topic x (sort_topics rest)
  end.

Definition extract_topics (text : jsstring) : list Topic.t :=
  sort_topics (match_topics (toLowerCase text) possibleTopics).

(** [params.options]; [None] is a property that is absent. *)
Record options := {
  extractSentiment : option bool;
  extractTopics : option bool;
  extractEntities : option bool;
  language : option string
}.

(** [options = {}] *)
Definition default_options : options :=
  {| extractSentiment := None; extractTopics := None; extractEntities := None;
     language := None |}.

Record params := { text : jsstring; params_options : option options }.

(** [opts]: the defaults overridden by the properties of [options]. *)
Record opts := {
  opt_extractSentiment : bool;
  opt_extractTopics : bool;
  opt_extractEntities : bool;
  opt_language : string
}.

Definition make_opts (o : options) : opts :=
  {| opt_extractSentiment := default true (extractSentiment o);
     opt_extractTopics := default true (extractTopics o);
     opt_extractEntities := default true (extractEntities o);
     opt_language := default "fr" (language o) |}.

(** What the runtime supplies: the id built from [Date.now()] and
    [Math.random()], and the ISO timestamp. *)
Record env := { env_analysisId : string; env_timestamp : string }.

(** The [result] object.  The [entities] property, filled by three
    regular-expression scans of [text], is not represented. *)
Record result := {
  analysisId : string;
  textLength : nat;
  result_language : string;
  timestamp : string;
  sentiment : option Sentiment.t;
  topics : option (list Topic.t)
}.

(** Entry of [this.analysisResults]. *)
Record stored := {
  stored_type : string;
  stored_input : jsstring;
  stored_options : opts;
  stored_result : result
}.

(** [{ content: result }] or [{ isError: true, content: { message, analysisId } }] *)
Inductive response :=
| Content (r : result)
| IsError (message : string) (analysisId : string).

(** [text.substring(0, 100) + (text.length > 100 ? '...' : '')] *)
Definition preview (text : jsstring) : jsstring :=
  take 100 text ++ (if (100 <? length text)%nat then lit "..." else []).

(** [async analyzeText(params)], on the state [this.analysisResults];
    the two logger calls are left out.  Nothing in the [try] block throws
    on a string, so the [catch] branch is not taken. *)
Definition analyzeText (e : env) (p : params) : M (gmap string stored) response :=
  let text := text p in
  let options := default default_options (params_options p) in
  let opts := make_opts options in
  let analysisId := env_analysisId e in
  let sentiment :=
    if opt_extractSentiment opts then Some (extract_sentiment text) else None in
  let topics :=
    if opt_extractTopics opts then Some (extract_topics text) else None in
  let result :=
    {| analysisId := analysisId;
       textLength := length text;
       result_language := opt_language opts;
       timestamp := env_timestamp e;
       sentiment := sentiment;
       topics := topics |} in
  modify (fun analysisResults =>
    <[analysisId := {| stored_type := "text"; stored_input := preview text;
                       stored_options := opts; stored_result := result |}]>
      analysisResults) ;;;
  ret (Content result).

End TextAnalysis.

(** * Agent classes and call sequences *)

Module AgentClass.
Import BaseAgent.

(** The overridable methods of an agent class. *)
Record t (X : Type) := {
  initialize : M (BaseAgent.t X) unit;
  start : M (BaseAgent.t X) unit;
  stop : M (BaseAgent.t X) unit
}.
Arguments initialize {X}.
Arguments start {X}.
Arguments stop {X}.

Definition Base {X} : t X :=
  {| initialize := BaseAgent.initialize;
     start := BaseAgent.start BaseAgent.initialize;
     stop := BaseAgent.stop |}.

Definition ContentAnalysis (h1 h2 h3 h4 : handler_fn) : t ContentAnalysisAgent.fields :=
  {| initialize := ContentAnalysisAgent.initialize h1 h2 h3 h4;
     start := ContentAnalysisAgent.start h1 h2 h3 h4;
     stop := ContentAnalysisAgent.stop |}.

Definition Twitter : t unit :=
  {| initialize := TwitterAgent.initialize;
     start := TwitterAgent.start;
     stop := TwitterAgent.stop |}.

(** A call made on an agent from outside. *)
Inductive call :=
| RegisterTool (d : descriptor)
| RegisterResource (d : descriptor)
| Initialize
| Start
| Stop.

Definition run {X} (cls : t X) (c : call) : M (BaseAgent.t X) unit :=
  match c with
  | RegisterTool d => registerTool d ;;; ret tt
  | RegisterResource d => registerResource d ;;; ret tt
  | Initialize => initialize cls
  | Start => start cls
  | Stop => stop cls
  end.

(** The states an agent goes through from [a0] under a sequence of calls,
    whether they succeed or throw. *)
Inductive reachable {X} (cls : t X) (a0 : BaseAgent.t X) : BaseAgent.t X → Prop :=
| reach_here : reachable cls a0 a0
| reach_call a c : reachable cls a0 a → reachable cls a0 (fst (run cls c a)).

End AgentClass.

(** * Vocabulary of the statements *)

Section RegistryNotions.
Import CapabilityRegistry.

(** A result has the success shape when it carries a [content] property,
    and the error shape when it is [{ isError: true, content: { message } }]. *)
Definition content_shape (v : value) : Prop := has_prop "content" v = true.

Definition error_shape (v : value) : Prop :=
  get_prop "isError" v = VBool true ∧
  ∃ m, get_prop "content" v = VObj [("message", VStr m)].

(** Every entry is stored under its own name. *)
Definition registry_wf (r : t) : Prop :=
  (∀ k d, tools r !! k = Some d → name d = Some k) ∧
  (∀ k d, resources r !! k = Some d → name d = Some k).

(** The descriptor is accepted by the registry: truthy name and handler. *)
Definition registrable (d : descriptor) (n : string) : Prop :=
  name d = Some n ∧ n ≠ "" ∧ is_Some (handler d).

(** [params => params] *)
Definition echo_tool : descriptor :=
  {| name := Some "echo"; description := Some "echo"; inputSchema := None;
     handler := Some (fun params => Ret params); agentId := Some "a" |}.

Definition echo_registry : t := fst (registerTool echo_tool new).

(** A handler that throws [new Error('boom')]. *)
Definition failing : descriptor :=
  {| name := Some "fail"; description := Some "fails"; inputSchema := None;
     handler := Some (fun _ => Throw (JsError "boom")); agentId := Some "a" |}.

Definition failing_registry : t :=
  fst (registerResource failing (fst (registerTool failing new))).

Definition tool_v1 : descriptor :=
  {| name := Some "echo"; description := Some "first"; inputSchema := None;
     handler := Some (fun _ => Ret (VNum 1)); agentId := Some "a" |}.

Definition tool_v2 : descriptor :=
  {| name := Some "echo"; description := Some "second"; inputSchema := None;
     handler := Some (fun _ => Ret (VNum 2)); agentId := Some "b" |}.

End RegistryNotions.

Section RouterNotions.
Import MessageRouter.

(** [async () => 'pong'] *)
Definition pong : route_handler := fun _ => Ret (VStr "pong").

(** [async () => { throw new Error('down') }] *)
Definition down : route_handler := fun _ => Throw (JsError "down").

Definition ping_router : t :=
  fst (registerRoute "down" down (fst (registerRoute "ping" pong new))).

Definition ping : message := {| id := VNum 7; method := "ping"; params := VUndefined |}.

End RouterNotions.

Section MiddlewareNotions.
Import McpMiddleware.

(** The descriptors an agent owns: the lists its [getTools] and
    [getResources] return. *)
Definition owned_tools (agent : agent_obj) : list descriptor :=
  default [] (getTools agent).

Definition owned_resources (agent : agent_obj) : list descriptor :=
  default [] (getResources agent).

(** The names deleted by a loop of unregistrations. *)
Definition delete_names (ds : list descriptor) (m : gmap string descriptor)
  : gmap string descriptor :=
  foldl (fun acc d => match name d with Some n => delete n acc | None => acc end) m ds.

(** The middleware's registry stores every entry under its own name. *)
Definition middleware_wf (m : t) : Prop := registry_wf (capabilityRegistry m).

Definition twitter_ready : TwitterAgent.agent :=
  fst (TwitterAgent.initialize TwitterAgent.new).

Definition twitter_middleware : t :=
  fst (registerAgent "twitter" (of_agent twitter_ready) new).

End MiddlewareNotions.

Section AgentNotions.
Import BaseAgent.
Context {X : Type}.
Implicit Types (a : BaseAgent.t X) (d : descriptor).

(** The descriptor passes the agent's validation. *)
Definition valid d : Prop :=
  truthy_str (name d) = true ∧ truthy_str (description d) = true ∧
  truthy (handler d) = true.

(** Every descriptor in the agent's lists carries the agent's id. *)
Definition tagged a : Prop :=
  Forall (λ d, agentId d = Some (id a)) (tools a) ∧
  Forall (λ d, agentId d = Some (id a)) (resources a).

(** How many times the event [e] was emitted. *)
Definition count_event (e : string) (l : list emission) : nat :=
  length (filter (λ x, event x = e) l).

Definition started : emission := {| event := "started"; arg := None |}.

Definition stopped : emission := {| event := "stopped"; arg := None |}.

(** The methods of the class keep the agent's descriptors tagged. *)
Definition preserves_tagged (cls : AgentClass.t X) : Prop :=
  ∀ c a, tagged a → tagged (fst (AgentClass.run cls c a)).

End AgentNotions.

Section ContentAnalysisNotions.
Import BaseAgent ContentAnalysisAgent.
Variables h1 h2 h3 h4 : handler_fn.

(** The descriptors [initialize] pushes, for an agent whose id is [i]. *)
Definition own_tools (i : string) : list descriptor :=
  [with_agentId (analyze_text_tool h1) i; with_agentId (analyze_image_tool h2) i;
   with_agentId (analyze_post_tool h3) i].

Definition own_resources (i : string) : list descriptor :=
  [with_agentId (content_analysis_results h4) i].

End ContentAnalysisNotions.

Section TextNotions.
Import TextAnalysis.

(** The keywords of the first entry of [possibleTopics]. *)
Definition technologie_keywords : list jsstring :=
  map lit ["tech"; "technologie"; "ai"; "ia"; "intelligence artificielle";
           "ordinateur"; "smartphone"; "application"].

Definition sample_text : jsstring := lit "Je suis très content de ce produit".

(** [options] left out of the parameters: [{ text }]. *)
Definition with_defaults (text : jsstring) : params :=
  {| text := text; params_options := None |}.

End TextNotions.

(** * Sequences of registry calls *)

Module RegistryCalls.
Import CapabilityRegistry.

(** A call made on the registry, directly or through one of its request
    handlers. *)
Inductive op :=
| RegisterTool (d : descriptor)
| UnregisterTool (n : option string)
| RegisterResource (d : descriptor)
| UnregisterResource (n : option string)
| CallTool (n : string) (p : value)
| GetResource (n : string) (p : value).

Definition run (c : op) : M t unit :=
  match c with
  | RegisterTool d => registerTool d
  | UnregisterTool n => unregisterTool n
  | RegisterResource d => registerResource d
  | UnregisterResource n => unregisterResource n
  | CallTool n p => call n p ;;; ret tt
  | GetResource n p => get n p ;;; ret tt
  end.

(** The registries reached from a new one, whether the calls succeed or
    throw. *)
Inductive reachable : t → Prop :=
| reach_new : reachable new
| reach_op r c : reachable r → reachable (fst (run c r)).

End RegistryCalls.

Section RegistryNotionsMore.
Import CapabilityRegistry.

(** Every entry is stored under its own name, which is not empty, and has
    a handler. *)
Definition complete_map (m : gmap string descriptor) : Prop :=
  ∀ k d, m !! k = Some d → name d = Some k ∧ k ≠ "" ∧ is_Some (handler d).

Definition registry_complete (r : t) : Prop :=
  complete_map (tools r) ∧ complete_map (resources r).

(** The map after a loop of successful registrations. *)
Definition insert_all (ds : list descriptor) (m : gmap string descriptor)
  : gmap string descriptor :=
  foldl (fun acc d => <[key_of (name d) := d]> acc) m ds.

(** All descriptors of the list pass the registry's check. *)
Definition all_registrable (ds : list descriptor) : Prop :=
  Forall (λ d, ∃ n, registrable d n) ds.

(** What a tool call settles with, given what the tool's handler settles
    with. *)
Definition tool_settlement (o : outcome value) : outcome value :=
  match o with
  | Ret v => Ret v
  | Throw e =>
      match read_message e with
      | Ret m => Ret (error_result ("Erreur: " +:+ m))
      | Throw e' => Throw e'
      end
  end.

(** What a resource read settles with, given what the resource's handler
    settles with. *)
Definition resource_settlement (o : outcome value) : outcome value :=
  match o with
  | Ret v => Ret v
  | Throw e =>
      match read_message e with
      | Ret _ => Throw e
      | Throw e' => Throw e'
      end
  end.

End RegistryNotionsMore.

Section RouterNotionsMore.
Import MessageRouter.

(** What [routeMessage] settles with, given what the route's handler
    settles with. *)
Definition route_settlement (msg : message) (o : outcome value) : outcome value :=
  match o with
  | Ret v => Ret v
  | Throw e =>
      match read_message e with
      | Ret m => Ret (error_envelope (id msg) INTERNAL_ERROR ("Erreur interne: " +:+ m))
      | Throw e' => Throw e'
      end
  end.

End RouterNotionsMore.

Section AgentNotionsMore.
Import BaseAgent.
Context {X : Type}.
Implicit Types (a : BaseAgent.t X) (d : descriptor).

(** Every descriptor in the agent's lists has a truthy name, description
    and handler. *)
Definition listed_valid a : Prop :=
  Forall valid (tools a) ∧ Forall valid (resources a).

(** As many [started] as [stopped] events were emitted, plus one while
    the agent is running. *)
Definition balanced a : Prop :=
  count_event "started" (emitted a)
  = count_event "stopped" (emitted a) + (if running a then 1 else 0).

(** The methods of the class keep a property of the agent. *)
Definition preserves (P : BaseAgent.t X → Prop) (cls : AgentClass.t X) : Prop :=
  ∀ c a, P a → P (fst (AgentClass.run cls c a)).

End AgentNotionsMore.

(** An agent of one of the three classes, in a state reached from its
    constructor by calls of its methods, successful or not. *)
Inductive built : ∀ {X : Type}, BaseAgent.t X → Prop :=
| built_base {X} (i : string) (x : X) a :
    AgentClass.reachable AgentClass.Base (BaseAgent.new i x) a → built a
| built_twitter a :
    AgentClass.reachable AgentClass.Twitter TwitterAgent.new a → built a
| built_content_analysis h1 h2 h3 h4 a :
    AgentClass.reachable (AgentClass.ContentAnalysis h1 h2 h3 h4)
      ContentAnalysisAgent.new a → built a.

(** Every interval handle in use was issued before [nextHandle]. *)
Definition handles_issued (x : ContentAnalysisAgent.fields) : Prop :=
  Forall (λ h, h < ContentAnalysisAgent.nextHandle x) (ContentAnalysisAgent.intervals x).

From stdpp Require Import sorting.

(** * agents/content-analysis-agent.js: the queue processor *)

Module QueueProcessor.

(** A queued task: its [type], its [id], and what awaiting
    [task.execute()] gives: fulfilment, [task.result] then holding the
    value, or rejection. *)
Record task := { task_type : string; task_id : value; execute : outcome value }.

(** The payload of [emit('analysis-completed', { type, taskId, result })]. *)
Record completion := {
  completed_type : string;
  completed_taskId : value;
  completed_result : value
}.

(** The part of the agent the timer callback works on.  [awaiting] is the
    task of the callback suspended at [await task.execute()], if any;
    [completions] are the events emitted; [rejections] are the rejections
    of a callback's own promise. *)
Record t := {
  analyzeQueue : list task;
  processingAnalysis : bool;
  awaiting : option task;
  completions : list completion;
  log : list log_entry;
  rejections : list thrown
}.

(** After the constructor, with [queue] placed in [analyzeQueue]. *)
Definition initial (queue : list task) : t :=
  {| analyzeQueue := queue; processingAnalysis := false; awaiting := None;
     completions := []; log := []; rejections := [] |}.

Definition logger (l : level) (message : string) : log_entry :=
  createSubLogger "Agent-content-analysis" l message.

(** The interval fires: the callback runs up to its [await]. *)
Definition tick (s : t) : t :=
  if (0 <? length (analyzeQueue s))%nat && negb (processingAnalysis s)
  then
    match analyzeQueue s with
    | task :: rest =>
        {| analyzeQueue := rest; processingAnalysis := true; awaiting := Some task;
           completions := completions s;
           log := log s ++ [logger Debug ("Traitement d'une tâche d'analyse: "
                                            +:+ task_type task)];
           rejections := rejections s |}
    | [] => s
    end
  else s.

(** [task.execute()] settles: the suspended callback runs to its end,
    through [catch] and [finally]. *)
Definition settle (s : t) : t :=
  match awaiting s with
  | None => s
  | Some task =>
      match execute task with
      | Ret result =>
          {| analyzeQueue := analyzeQueue s; processingAnalysis := false;
             awaiting := None;
             completions := completions s ++
               [{| completed_type := task_type task; completed_taskId := task_id task;
                   completed_result := result |}];
             log := log s; rejections := rejections s |}
      | Throw error =>
          match read_message error with
          | Ret m =>
              {| analyzeQueue := analyzeQueue s; processingAnalysis := false;
                 awaiting := None; completions := completions s;
                 log := log s ++ [logger Error
                          ("Erreur lors du traitement de la file d'analyse: " +:+ m)];
                 rejections := rejections s |}
          | Throw e' =>
              {| analyzeQueue := analyzeQueue s; processingAnalysis := false;
                 awaiting := None; completions := completions s; log := log s;
                 rejections := rejections s ++ [e'] |}
          end
      end
  end.

(** What happens next on the event loop. *)
Inductive step := Tick | Settle.

Definition run_step (s : t) (e : step) : t :=
  match e with Tick => tick s | Settle => settle s end.

Definition run (schedule : list step) (s : t) : t := fold_left run_step schedule s.

(** The events a list of tasks gives when each is executed: one per task
    that fulfils, in order. *)
Definition completions_of (tasks : list task) : list completion :=
  omap (fun task =>
          match execute task with
          | Ret result => Some {| completed_type := task_type task;
                                  completed_taskId := task_id task;
                                  completed_result := result |}
          | Throw _ => None
          end) tasks.

(** The tasks of [queue] that were taken are its first [k], the last of
    them being the one awaited, if any. *)
Definition drained (queue : list task) (k : nat) (s : t) : Prop :=
  analyzeQueue s = drop k queue ∧ (k ≤ length queue)%nat ∧
  match awaiting s with
  | Some task =>
      processingAnalysis s = true ∧ (0 < k)%nat ∧ queue !! (k - 1)%nat = Some task ∧
      completions s = completions_of (take (k - 1)%nat queue)
  | None =>
      processingAnalysis s = false ∧ completions s = completions_of (take k queue)
  end.

End QueueProcessor.

(** * agents/content-analysis-agent.js: getAnalysisResults *)

Module AnalysisResults.

(** A value of [this.analysisResults]: its [type], the time of its
    [timestamp] in milliseconds, and its other properties. *)
Record entry := { entry_type : string; entry_timestamp : Z; entry_data : value }.

(** [this.analysisResults]: the entries of the Map, in insertion order. *)
Definition store := list (string * entry).

(** [{ id, ...data }] *)
Record listed := { listed_id : string; listed_entry : entry }.

Definition timestamp (r : listed) : Z := entry_timestamp (listed_entry r).
Definition type (r : listed) : string := entry_type (listed_entry r).

(** [params]: [None] is a property that is absent; [limit] and [offset]
    are integers. *)
Record query := { q_type : option string; q_limit : option Z; q_offset : option Z }.

(** [params = {}] *)
Definition no_params : query := {| q_type := None; q_limit := None; q_offset := None |}.

(** [l.slice(start, end)] on integers. *)
Definition slice {A} (l : list A) (start end_ : Z) : list A :=
  let len := Z.of_nat (length l) in
  let k := if (start <? 0)%Z then Z.max (len + start) 0 else Z.min start len in
  let final := if (end_ <? 0)%Z then Z.max (len + end_) 0 else Z.min end_ len in
  take (Z.to_nat (final - k)) (drop (Z.to_nat k) l).

(** [results.sort((a, b) => b.timestamp - a.timestamp)]: the sort is
    stable, so each element goes before the first later one whose
    timestamp is not greater. *)
Fixpoint insert_newest (x : listed) (sorted : list listed) : list listed :=
  match sorted with
  | [] => [x]
  | y :: rest =>
      if (timestamp x <? timestamp y)%Z
      then y :: insert_newest x rest
      else x :: y :: rest
  end.

Fixpoint sort_newest (l : list listed) : list listed :=
  match l with
  | [] => []
  | x :: rest => insert_newest x (sort_newest rest)
  end.

(** [results] after the optional filter and the sort. *)
Definition selected (q : query) (s : store) : list listed :=
  let results := map (fun '(id, data) => {| listed_id := id; listed_entry := data |}) s in
  let results :=
    if truthy_str (q_type q)
    then List.filter (fun result => String.eqb (type result) (key_of (q_type q))) results
    else results in
  sort_newest results.

(** [{ total, offset, limit, results }] *)
Record content := {
  total : nat;
  content_offset : Z;
  content_limit : Z;
  results : list listed
}.

(** [async getAnalysisResults(params = {})]; nothing in its [try] block
    throws, so it returns [{ content }]. *)
Definition getAnalysisResults (q : query) (s : store) : content :=
  let limit := default 10%Z (q_limit q) in
  let offset := default 0%Z (q_offset q) in
  let results := selected q s in
  {| total := length results; content_offset := offset; content_limit := limit;
     results := slice results offset (offset + limit) |}.

(** [x] is not older than [y]. *)
Definition newer (x y : listed) : Prop := (timestamp y ≤ timestamp x)%Z.

(** Newest first. *)
Definition newest_first (l : list listed) : Prop :=
  ∀ (i j : nat) x y, (i ≤ j)%nat → l !! i = Some x → l !! j = Some y → (timestamp y ≤ timestamp x)%Z.

End AnalysisResults.

Section SentimentNotions.
Import TextAnalysis.

(** The quotient [extract_sentiment] computes for [p] positive and [n]
    negative words. *)
Definition ratio (p n : nat) : Q :=
  ((Qnat p - Qnat n) / (Qnat p + Qnat n))%Q.

(** A text all of whose code units lie in Basic Latin or the Latin-1
    Supplement (at most U+00FF), where [toLowerCase] is the engine's
    lower-casing: outside of it the engine also maps some code units to
    Latin letters (the Kelvin sign to [k], the dotted capital I to [i]
    and a combining dot), which [lower_unit] leaves as they are. *)
Definition latin1 (s : jsstring) : Prop :=
  forallb (fun c => (c <=? 255)%N) s = true.

End SentimentNotions.

(** * agents/content-analysis-agent.js: parts of analyzePost *)

Module PostAnalysis.
Import TextAnalysis.

(** The class [[a-zA-Z0-9_]]. *)
Definition is_word_char (c : N) : bool :=
  ((65 <=? c) && (c <=? 90) || (97 <=? c) && (c <=? 122)
   || (48 <=? c) && (c <=? 57) || (c =? 95))%N.

(** The longest run of word characters at the start of [s]. *)
Fixpoint word_prefix (s : jsstring) : jsstring :=
  match s with
  | c :: rest => if is_word_char c then c :: word_prefix rest else []
  | [] => []
  end.

(** [{ hashtag: match[0], text: match[1] }] *)
Record hashtag := { hashtag_match : jsstring; hashtag_text : jsstring }.

(** [[...text.matchAll(/#([a-zA-Z0-9_]+)/g)].map(...)]: a match starts at
    each [#] that a word character follows and takes the longest run of
    word characters after it; as [#] is no word character, matches do not
    overlap, and the scan may go on right after the [#]. *)
Fixpoint extract_hashtags (text : jsstring) : list hashtag :=
  match text with
  | [] => []
  | c :: rest =>
      if (c =? 35)%N
      then match word_prefix rest with
           | [] => extract_hashtags rest
           | w => {| hashtag_match := c :: w; hashtag_text := w |} :: extract_hashtags rest
           end
      else extract_hashtags rest
  end.

(** [{ trend, relevance, matchedKeywords }] *)
Record trend := {
  trend_name : string;
  relevance : Q;
  trend_matchedKeywords : list jsstring
}.

Definition currentTrends : list (string * list jsstring) :=
  [("IA générative", map lit ["ai"; "ia"; "intelligence artificielle"; "generative";
                              "génératif"; "gpt"; "chatgpt"; "claude"]);
   ("Jeux Olympiques", map lit ["jo"; "olympique"; "olympics"; "médaille"; "paris2025"]);
   ("Changement climatique", map lit ["climat"; "réchauffement"; "environnement";
                                      "durable"; "écologie"]);
   ("Nouvelle technologie blockchain", map lit ["crypto"; "blockchain"; "nft"; "web3";
                                                "bitcoin"; "ethereum"])].

(** [currentTrends.forEach(trend => ...)] pushing onto [matchedTrends]. *)
Fixpoint match_trends (lowerText : jsstring) (candidates : list (string * list jsstring))
  : list trend :=
  match candidates with
  | [] => []
  | (name, keywords) :: rest =>
      let matchedKeywords := List.filter (fun kw => includes lowerText kw) keywords in
      if (0 <? length matchedKeywords)%nat
      then {| trend_name := name;
              relevance := Qmin (Qnat (length matchedKeywords) / Qnat (length keywords) * 2) 1;
              trend_matchedKeywords := matchedKeywords |} :: match_trends lowerText rest
      else match_trends lowerText rest
  end.

(** [matchedTrends.sort((a, b) => b.relevance - a.relevance)], a stable
    sort done in place. *)
Fixpoint insert_trend (x : trend) (sorted : list trend) : list trend :=
  match sorted with
  | [] => [x]
  | y :: rest =>
      if Qgtb (relevance y) (relevance x)
      then y :: insert_trend x rest
      else x :: y :: rest
  end.

Fixpoint sort_trends (l : list trend) : list trend :=
  match l with
  | [] => []
  | x :: rest => insert_trend x (sort_trends rest)
  end.

(** [{ matchedTrends, trendingTopicCount, topTrend }]; the three
    properties are evaluated in this order, so the count and the top
    trend are read from the sorted array. *)
Record trendDetection := {
  matchedTrends : list trend;
  trendingTopicCount : nat;
  topTrend : option trend
}.

Definition detect_trends (text : jsstring) : trendDetection :=
  let lowerText := toLowerCase text in
  let matchedTrends := sort_trends (match_trends lowerText currentTrends) in
  {| matchedTrends := matchedTrends;
     trendingTopicCount := length matchedTrends;
     topTrend := head matchedTrends |}.

(** How many times the code unit [c] occurs. *)
Definition occurrences (c : N) (text : jsstring) : nat :=
  length (List.filter (fun c' => (c' =? c)%N) text).

End PostAnalysis.

(** * The express server: agents started and stopped over HTTP *)

Module Server.

(** [res.status(code).json(body)]; [res.json(body)] answers with 200. *)
Record response := { status : nat; body : value }.

(** [{ error: message }] *)
Definition error_body (message : string) : value := VObj [("error", VStr message)].

(** Truthiness of a value, as [!v] reads it. *)
Definition js_truthy (v : value) : bool :=
  match v with
  | VUndefined | VNull => false
  | VBool b => b
  | VNum n => negb (n =? 0)%Z
  | VStr s => negb (String.eqb s "")
  | VArr _ | VObj _ => true
  end.

(** [v.key], for a key that is no built-in property of strings, arrays,
    numbers or booleans. *)
Definition prop (v : value) (key : string) : outcome value :=
  match v with
  | VObj fields =>
      Ret (default VUndefined (snd <$> List.find (fun kv => String.eqb (fst kv) key) fields))
  | VUndefined =>
      Throw (JsError ("Cannot read properties of undefined (reading '" +:+ key +:+ "')"))
  | VNull =>
      Throw (JsError ("Cannot read properties of null (reading '" +:+ key +:+ "')"))
  | _ => Ret VUndefined
  end.

(** The property names every object inherits from [Object.prototype]:
    [agents[name]] finds a function, or for [__proto__] the prototype
    itself, under each of them. *)
Definition object_prototype_names : list string :=
  ["constructor"; "__defineGetter__"; "__defineSetter__"; "hasOwnProperty";
   "__lookupGetter__"; "__lookupSetter__"; "isPrototypeOf"; "propertyIsEnumerable";
   "toString"; "valueOf"; "__proto__"; "toLocaleString"].

(** What [agents[name]] evaluates to when it is truthy. *)
Inductive agent_ref :=
| ContentAnalysis
| Twitter
| Inherited.

Definition agents_lookup (name : string) : option agent_ref :=
  if String.eqb name "contentAnalysis" then Some ContentAnalysis
  else if String.eqb name "twitter" then Some Twitter
  else if bool_decide (name ∈ object_prototype_names) then Some Inherited
  else None.

(** Methods the routes call on the agents and that neither the agent's
    class, nor [BaseAgent], nor [EventEmitter] defines: the property read
    gives [undefined]. *)
Definition getUserProfile : option handler_fn := None.
Definition getUserTimeline : option handler_fn := None.
Definition analyzeContent : option handler_fn := None.

(** The module-level state: the two agents of [agents], [agentStatus]
    and what the root logger has been given. *)
Record t := {
  contentAnalysis : ContentAnalysisAgent.agent;
  twitter : TwitterAgent.agent;
  agentStatus : gmap string bool;
  log : list log_entry
}.

Definition logger (l : level) (message : string) : M t unit :=
  modify (fun s => {| contentAnalysis := contentAnalysis s; twitter := twitter s;
                      agentStatus := agentStatus s;
                      log := log s ++ [{| lvl := l; msg := message |}] |}).

Definition on_contentAnalysis {A} (m : M ContentAnalysisAgent.agent A) : M t A :=
  fun s => let '(a, o) := m (contentAnalysis s) in
           ({| contentAnalysis := a; twitter := twitter s;
               agentStatus := agentStatus s; log := log s |}, o).

Definition on_twitter {A} (m : M TwitterAgent.agent A) : M t A :=
  fun s => let '(a, o) := m (twitter s) in
           ({| contentAnalysis := contentAnalysis s; twitter := a;
               agentStatus := agentStatus s; log := log s |}, o).

(** [agentStatus[name] = b] *)
Definition set_status (name : string) (b : bool) : M t unit :=
  modify (fun s => {| contentAnalysis := contentAnalysis s; twitter := twitter s;
                      agentStatus := <[name := b]> (agentStatus s); log := log s |}).

(** [!agentStatus.<name>] is true on [false] and on a missing property. *)
Definition active (name : string) : M t bool :=
  gets (fun s => default false (agentStatus s !! name)).

Section Agents.
(** The bound methods of the content-analysis agent. *)
Variables analyzeText_bound analyzeImage_bound analyzePost_bound
          getAnalysisResults_bound : handler_fn.

Definition initial : t :=
  {| contentAnalysis := ContentAnalysisAgent.new;
     twitter := TwitterAgent.new;
     agentStatus := {[ "contentAnalysis" := false; "twitter" := false ]};
     log := [] |}.

(** [agent.start()] on what [agents[name]] holds. *)
Definition agent_start (agent : agent_ref) : M t unit :=
  match agent with
  | ContentAnalysis =>
      on_contentAnalysis
        (ContentAnalysisAgent.start analyzeText_bound analyzeImage_bound
           analyzePost_bound getAnalysisResults_bound)
  | Twitter => on_twitter TwitterAgent.start
  | Inherited => throw (TypeError_not_a_function "agent.start")
  end.

(** [agent.stop()] *)
Definition agent_stop (agent : agent_ref) : M t unit :=
  match agent with
  | ContentAnalysis => on_contentAnalysis ContentAnalysisAgent.stop
  | Twitter => on_twitter TwitterAgent.stop
  | Inherited => throw (TypeError_not_a_function "agent.stop")
  end.

(** [async function startAgent(name)] *)
Definition startAgent (name : string) : M t bool :=
  match agents_lookup name with
  | Some agent =>
      try_catch
        (agent_start agent ;;;
         logger Info ("Agent " +:+ name +:+ " démarré") ;;;
         set_status name true ;;;
         ret true)
        (fun error =>
           m <- lift (read_message error) ;;
           logger Error ("Erreur lors du démarrage de l'agent " +:+ name +:+ ": " +:+ m) ;;;
           ret false)
  | None => ret false
  end.

(** [async function stopAgent(name)] *)
Definition stopAgent (name : string) : M t bool :=
  match agents_lookup name with
  | Some agent =>
      try_catch
        (agent_stop agent ;;;
         logger Info ("Agent " +:+ name +:+ " arrêté") ;;;
         set_status name false ;;;
         ret true)
        (fun error =>
           m <- lift (read_message error) ;;
           logger Error ("Erreur lors de l'arrêt de l'agent " +:+ name +:+ ": " +:+ m) ;;;
           ret false)
  | None => ret false
  end.

(** [app.post('/api/agents/:agent/:action', ...)]; route parameters are
    strings. *)
Definition agents_action (agent action : string) : M t response :=
  if negb (bool_decide (agent ∈ ["twitter"; "contentAnalysis"]))
  then ret {| status := 404; body := error_body ("Agent " +:+ agent +:+ " non trouvé") |}
  else if negb (bool_decide (action ∈ ["start"; "stop"]))
  then ret {| status := 400; body := error_body ("Action " +:+ action +:+ " non valide") |}
  else
    try_catch
      (success <- (if String.eqb action "start" then startAgent agent
                   else stopAgent agent) ;;
       st <- gets (fun s => agentStatus s !! agent) ;;
       ret {| status := 200;
              body := VObj [("success", VBool success);
                            ("status", match st with
                                       | Some b => VBool b
                                       | None => VUndefined
                                       end)] |})
      (fun error =>
         m <- lift (read_message error) ;;
         logger Error ("Erreur lors de l'action " +:+ action +:+ " sur l'agent "
                       +:+ agent +:+ ": " +:+ m) ;;;
         ret {| status := 500; body := error_body m |}).

(** [app.get('/api/twitter/search', ...)]; [q] is [req.query.q] and
    [count] the number [parseInt(count, 10)] gives. *)
Definition twitter_search (q count : value) : M t response :=
  if negb (js_truthy q)
  then ret {| status := 400; body := error_body "Un terme de recherche est requis" |}
  else
    try_catch
      (is_active <- active "twitter" ;;
       if negb is_active
       then ret {| status := 400; body := error_body "L'agent Twitter n'est pas actif" |}
       else
         result <- lift (TwitterAgent.searchTweets (VObj [("query", q); ("count", count)])) ;;
         success <- lift (prop result "success") ;;
         if negb (js_truthy success)
         then
           error <- lift (prop result "error") ;;
           ret {| status := 500; body := VObj [("error", error)] |}
         else
           content <- lift (prop result "content") ;;
           ret {| status := 200; body := content |})
      (fun error =>
         m <- lift (read_message error) ;;
         logger Error ("Erreur lors de la recherche de tweets: " +:+ m) ;;;
         ret {| status := 500; body := error_body m |}).

(** [app.get('/api/twitter/user/:username', ...)] *)
Definition twitter_user (username : string) : M t response :=
  try_catch
    (is_active <- active "twitter" ;;
     if negb is_active
     then ret {| status := 400; body := error_body "L'agent Twitter n'est pas actif" |}
     else
       result <- lift (call_handler "agents.twitter.getUserProfile" getUserProfile
                         (VObj [("username", VStr username)])) ;;
       success <- lift (prop result "success") ;;
       if negb (js_truthy success)
       then
         error <- lift (prop result "error") ;;
         ret {| status := 500; body := VObj [("error", error)] |}
       else
         content <- lift (prop result "content") ;;
         ret {| status := 200; body := content |})
    (fun error =>
       m <- lift (read_message error) ;;
       logger Error ("Erreur lors de la récupération du profil utilisateur: " +:+ m) ;;;
       ret {| status := 500; body := error_body m |}).

(** [app.get('/api/twitter/timeline/:username', ...)]; [count] is the
    number [parseInt(count, 10)] gives. *)
Definition twitter_timeline (username : string) (count : value) : M t response :=
  try_catch
    (is_active <- active "twitter" ;;
     if negb is_active
     then ret {| status := 400; body := error_body "L'agent Twitter n'est pas actif" |}
     else
       result <- lift (call_handler "agents.twitter.getUserTimeline" getUserTimeline
                         (VObj [("username", VStr username); ("count", count)])) ;;
       success <- lift (prop result "success") ;;
       if negb (js_truthy success)
       then
         error <- lift (prop result "error") ;;
         ret {| status := 500; body := VObj [("error", error)] |}
       else
         content <- lift (prop result "content") ;;
         ret {| status := 200; body := content |})
    (fun error =>
       m <- lift (read_message error) ;;
       logger Error ("Erreur lors de la récupération de la timeline: " +:+ m) ;;;
       ret {| status := 500; body := error_body m |}).

(** [app.post('/api/content-analysis/analyze', ...)]; [text] is
    [req.body.text], [req.body] being the object [express.json()] leaves.
    The method is called with two arguments, of which the model passes
    the first. *)
Definition content_analysis_analyze (text : value) : M t response :=
  if negb (js_truthy text)
  then ret {| status := 400; body := error_body "Un texte est requis pour l'analyse" |}
  else
    try_catch
      (is_active <- active "contentAnalysis" ;;
       if negb is_active
       then ret {| status := 400;
                   body := error_body "L'agent d'analyse de contenu n'est pas actif" |}
       else
         analysis <- lift (call_handler "agents.contentAnalysis.analyzeContent"
                             analyzeContent text) ;;
         ret {| status := 200; body := analysis |})
      (fun error =>
         m <- lift (read_message error) ;;
         logger Error ("Erreur lors de l'analyse de contenu: " +:+ m) ;;;
         ret {| status := 500; body := error_body m |}).

(** What reaches the server. *)
Inductive request :=
| AgentsAction (agent action : string)
| TwitterSearch (q count : value)
| TwitterUser (username : string)
| TwitterTimeline (username : string) (count : value)
| ContentAnalysisAnalyze (text : value).

Definition handle (r : request) : M t response :=
  match r with
  | AgentsAction agent action => agents_action agent action
  | TwitterSearch q count => twitter_search q count
  | TwitterUser username => twitter_user username
  | TwitterTimeline username count => twitter_timeline username count
  | ContentAnalysisAnalyze text => content_analysis_analyze text
  end.

(** The states of the server after a sequence of requests and of direct
    calls of [startAgent] and [stopAgent]. *)
Inductive reachable : t → Prop :=
| reach_initial : reachable initial
| reach_request s r : reachable s → reachable (fst (handle r s))
| reach_startAgent s name : reachable s → reachable (fst (startAgent name s))
| reach_stopAgent s name : reachable s → reachable (fst (stopAgent name s)).

(** [agentStatus] says of each agent whether it is running. *)
Definition status_mirrors_running (s : t) : Prop :=
  agentStatus s = {[ "contentAnalysis" := BaseAgent.running (contentAnalysis s);
                     "twitter" := BaseAgent.running (twitter s) ]}.

(** Both agents and [agentStatus] are as before. *)
Definition same_agents (s s' : t) : Prop :=
  contentAnalysis s' = contentAnalysis s ∧ twitter s' = twitter s ∧
  agentStatus s' = agentStatus s.

(** The running flag of the agent [agents[name]] holds. *)
Definition running_of (agent : agent_ref) (s : t) : option bool :=
  match agent with
  | ContentAnalysis => Some (BaseAgent.running (contentAnalysis s))
  | Twitter => Some (BaseAgent.running (twitter s))
  | Inherited => None
  end.

End Agents.

End Server.


(** * Properties *)

(** ** The monad *)

Section MonadFacts.

(** Invariants carried through the monad's combinators. *)
Lemma bind_invariant {S A B} (P : S → Prop) (c : M S A) (k : A → M S B) :
  (∀ s, P s → P (fst (c s))) → (∀ a s, P s → P (fst (k a s))) →
  ∀ s, P s → P (fst (bind c k s)).
Proof.
  intros Hc Hk s Hs. unfold bind. specialize (Hc s Hs).
  destruct (c s) as [s' [a | e]]; simpl in *; [by apply Hk | done].
Qed.

Lemma try_catch_invariant {S A} (P : S → Prop) (c : M S A) (h : thrown → M S A) :
  (∀ s, P s → P (fst (c s))) → (∀ e s, P s → P (fst (h e s))) →
  ∀ s, P s → P (fst (try_catch c h s)).
Proof.
  intros Hc Hh s Hs. unfold try_catch. specialize (Hc s Hs).
  destruct (c s) as [s' [a | e]]; simpl in *; [done | by apply Hh].
Qed.

Lemma forEach_invariant {S A} (P : S → Prop) (l : list A) (body : A → M S unit) :
  (∀ x s, P s → P (fst (body x s))) → ∀ s, P s → P (fst (forEach l body s)).
Proof.
  intros Hbody. induction l as [| x l IH]; intros s Hs; simpl; [done |].
  apply bind_invariant; auto.
Qed.

End MonadFacts.

(** ** Capability registry: tool calls and resource reads *)

Section RegistryFacts.
Import CapabilityRegistry.

(** A result has the success shape when it carries a [content] property,
    and the error shape when it is [{ isError: true, content: { message } }]. *)

Lemma error_result_shape m : error_shape (error_result m).
Proof. split; [reflexivity | by exists m]. Qed.

Lemma call_found r T tool p :
  tools r !! T = Some tool →
  call T p r =
    match call_handler "tool.handler" (handler tool) p with
    | Ret v => (r, Ret v)
    | Throw error =>
        match read_message error with
        | Ret m =>
            (fst (logger Error ("Erreur lors de l'exécution de l'outil '" +:+ T +:+ "': " +:+ m) r),
             Ret (error_result ("Erreur: " +:+ m)))
        | Throw e' => (r, Throw e')
        end
    end.
Proof.
  intros Hfound. unfold call, bind, gets, try_catch, lift. rewrite Hfound.
  destruct (call_handler "tool.handler" (handler tool) p) as [v | error]; [reflexivity |].
  destruct error; reflexivity.
Qed.

Lemma get_found r T resource p :
  resources r !! T = Some resource →
  get T p r =
    match call_handler "resource.handler" (handler resource) p with
    | Ret v => (r, Ret v)
    | Throw error =>
        match read_message error with
        | Ret m =>
            (fst (logger Error ("Erreur lors de la récupération de la ressource '" +:+ T +:+ "': " +:+ m) r),
             Throw error)
        | Throw e' => (r, Throw e')
        end
    end.
Proof.
  intros Hfound. unfold get, bind, gets, try_catch, lift. rewrite Hfound.
  destruct (call_handler "resource.handler" (handler resource) p) as [v | error]; [reflexivity |].
  destruct error; reflexivity.
Qed.

(** C1, as stated, fails: the registered tool [echo] called with
    [{ x: 1 }] returns [{ x: 1 }], which has neither a [content] property
    nor the error shape. *)
Lemma C1_echo_result_has_no_content :
  tools echo_registry !! "echo" = Some echo_tool ∧
  snd (call "echo" (VObj [("x", VNum 1)]) echo_registry) = Ret (VObj [("x", VNum 1)]) ∧
  ¬ (content_shape (VObj [("x", VNum 1)]) ∨ error_shape (VObj [("x", VNum 1)])).
Proof.
  split; [reflexivity |]. split.
  - rewrite (call_found _ _ echo_tool) by reflexivity. reflexivity.
  - intros [H | [H _]]; discriminate H.
Qed.

(** C1, amended: for a tool name present in the registry, the call
    handler returns what the tool's handler returns, unchanged, when that
    handler returns; when the handler throws an Error with message [m],
    the call returns [{ isError: true, content: { message: "Erreur: " + m } }]
    and does not propagate; the registry's maps are left as they were. *)
Theorem C1_tool_call_outcome (r : t) (T : string) (tool : descriptor) (p : value) :
  tools r !! T = Some tool →
  (∀ v, call_handler "tool.handler" (handler tool) p = Ret v → call T p r = (r, Ret v)) ∧
  (∀ m, call_handler "tool.handler" (handler tool) p = Throw (JsError m) →
     ∃ r', call T p r = (r', Ret (error_result ("Erreur: " +:+ m))) ∧
           error_shape (error_result ("Erreur: " +:+ m)) ∧
           tools r' = tools r ∧ resources r' = resources r).
Proof.
  intros Hfound. rewrite (call_found _ _ _ _ Hfound). split.
  - intros v ->. reflexivity.
  - intros m ->. simpl. eexists. split; [reflexivity |].
    split; [apply error_result_shape | split; reflexivity].
Qed.

Lemma C1_tool_call_outcome_witness :
  call "echo" (VNum 3) echo_registry = (echo_registry, Ret (VNum 3)) ∧
  ∃ r', call "fail" VNull failing_registry = (r', Ret (error_result "Erreur: boom")).
Proof.
  split.
  - apply (C1_tool_call_outcome echo_registry "echo" echo_tool (VNum 3)); reflexivity.
  - destruct (C1_tool_call_outcome failing_registry "fail" failing VNull) as [_ H];
      [reflexivity |].
    destruct (H "boom") as (r' & Hcall & _); [reflexivity |].
    exists r'. exact Hcall.
Defined.

(** A handler doing [throw null] or [throw undefined] makes the [catch]
    block itself fail on [error.message]: that TypeError leaves the call. *)
Lemma call_handler_throwing_null r T tool p v :
  tools r !! T = Some tool →
  call_handler "tool.handler" (handler tool) p = Throw (JsNullish v) →
  call T p r = (r, Throw (TypeError_read_message v)).
Proof. intros Hfound Hthrow. rewrite (call_found _ _ _ _ Hfound), Hthrow. reflexivity. Qed.

(** C3, as stated, fails: calling a tool that is not registered settles
    with a thrown Error, not with a returned envelope. *)
Lemma C3_missing_tool_is_thrown :
  tools new !! "missing" = None ∧
  call "missing" VUndefined new = (new, Throw (JsError "Outil 'missing' non trouvé")) ∧
  resources new !! "missing" = None ∧
  get "missing" VUndefined new = (new, Throw (JsError "Ressource 'missing' non trouvée")).
Proof. repeat split. Qed.

(** C3, amended: for a name absent from the registry, the tool call and
    the resource read both fail by throwing an Error whose message names
    the missing tool or resource; the registry is unchanged and no result
    is returned. *)
Theorem C3_not_found_throws (r : t) (n : string) (p : value) :
  (tools r !! n = None →
     call n p r = (r, Throw (JsError ("Outil '" +:+ n +:+ "' non trouvé")))) ∧
  (resources r !! n = None →
     get n p r = (r, Throw (JsError ("Ressource '" +:+ n +:+ "' non trouvée")))).
Proof.
  split; intros Hnone.
  - unfold call, bind, gets. rewrite Hnone. reflexivity.
  - unfold get, bind, gets. rewrite Hnone. reflexivity.
Qed.

Lemma C3_not_found_throws_witness :
  call "analyze_text" VNull echo_registry
    = (echo_registry, Throw (JsError "Outil 'analyze_text' non trouvé")) ∧
  get "echo" VNull echo_registry
    = (echo_registry, Throw (JsError "Ressource 'echo' non trouvée")).
Proof.
  split.
  - apply (C3_not_found_throws echo_registry "analyze_text" VNull). reflexivity.
  - apply (C3_not_found_throws echo_registry "echo" VNull). reflexivity.
Defined.

(** C5: when the handler of a registered resource throws, the read
    throws as well, and an Error thrown by the handler is the one that
    reaches the caller; the same handler registered as a tool yields a
    returned error result instead. *)
Theorem C5_resource_errors_propagate (r : t) (n : string) (d : descriptor)
    (f : handler_fn) (p : value) (e : thrown) :
  handler d = Some f → f p = Throw e →
  (resources r !! n = Some d →
     (∃ e', snd (get n p r) = Throw e') ∧
     (∀ m, e = JsError m → snd (get n p r) = Throw (JsError m))) ∧
  (tools r !! n = Some d →
     ∀ m, e = JsError m → snd (call n p r) = Ret (error_result ("Erreur: " +:+ m))).
Proof.
  intros Hf Hthrow. split.
  - intros Hfound. rewrite (get_found _ _ _ _ Hfound), Hf. simpl. rewrite Hthrow. split.
    + destruct e; simpl; eauto.
    + intros m ->. reflexivity.
  - intros Hfound m ->. rewrite (call_found _ _ _ _ Hfound), Hf. simpl.
    rewrite Hthrow. reflexivity.
Qed.

Lemma C5_resource_errors_propagate_witness :
  snd (get "fail" VNull failing_registry) = Throw (JsError "boom") ∧
  snd (call "fail" VNull failing_registry) = Ret (error_result "Erreur: boom").
Proof.
  destruct (C5_resource_errors_propagate failing_registry "fail" failing
              (fun _ => Throw (JsError "boom")) VNull (JsError "boom"))
    as [Hres Htool]; [reflexivity | reflexivity |].
  split.
  - apply Hres; reflexivity.
  - apply Htool; reflexivity.
Defined.

End RegistryFacts.

(** ** Capability registry: registration *)

Section RegistrationFacts.
Import CapabilityRegistry.

Lemma registrable_checks d n :
  registrable d n → negb (truthy_str (name d)) || negb (truthy (handler d)) = false.
Proof.
  intros (-> & Hn & [h ->]). simpl.
  destruct (String.eqb_spec n ""); [contradiction | reflexivity].
Qed.

Lemma registerTool_ok r d n :
  registrable d n →
  registerTool d r =
    ({| tools := <[n := d]> (tools r); resources := resources r;
        log := log r ++ [createSubLogger "CapabilityRegistry" Debug
                           ("Outil '" +:+ n +:+ "' enregistré")] |}, Ret tt).
Proof.
  intros Hd. unfold registerTool. rewrite (registrable_checks _ _ Hd).
  destruct Hd as (-> & _ & _). reflexivity.
Qed.

Lemma registerResource_ok r d n :
  registrable d n →
  registerResource d r =
    ({| tools := tools r; resources := <[n := d]> (resources r);
        log := log r ++ [createSubLogger "CapabilityRegistry" Debug
                           ("Ressource '" +:+ n +:+ "' enregistrée")] |}, Ret tt).
Proof.
  intros Hd. unfold registerResource. rewrite (registrable_checks _ _ Hd).
  destruct Hd as (-> & _ & _). reflexivity.
Qed.

Lemma registerTool_rejected r d :
  negb (truthy_str (name d)) || negb (truthy (handler d)) = true →
  registerTool d r = (r, Throw (JsError "Un outil doit avoir un nom et un gestionnaire")).
Proof. intros H. unfold registerTool. rewrite H. reflexivity. Qed.

Lemma registerResource_rejected r d :
  negb (truthy_str (name d)) || negb (truthy (handler d)) = true →
  registerResource d r
    = (r, Throw (JsError "Une ressource doit avoir un nom et un gestionnaire")).
Proof. intros H. unfold registerResource. rewrite H. reflexivity. Qed.

Lemma checks_registrable d :
  negb (truthy_str (name d)) || negb (truthy (handler d)) = false →
  ∃ n, registrable d n.
Proof.
  destruct d as [[n |] ? ? [h |] ?]; simpl; try discriminate.
  - destruct (String.eqb_spec n ""); simpl; [discriminate |].
    intros _. exists n. repeat split; eauto.
  - destruct (String.eqb n ""); discriminate.
Qed.

Lemma unregisterTool_tools o r :
  snd (unregisterTool o r) = Ret tt ∧
  resources (fst (unregisterTool o r)) = resources r ∧
  tools (fst (unregisterTool o r))
    = match o with Some n => delete n (tools r) | None => tools r end.
Proof.
  destruct o as [n |]; [| by repeat split].
  unfold unregisterTool, bind, gets. case_bool_decide as Hin; simpl.
  - by repeat split.
  - repeat split. symmetry. apply delete_id.
    destruct (tools r !! n) eqn:E; [| done]. exfalso. apply Hin. eauto.
Qed.

Lemma unregisterResource_resources o r :
  snd (unregisterResource o r) = Ret tt ∧
  tools (fst (unregisterResource o r)) = tools r ∧
  resources (fst (unregisterResource o r))
    = match o with Some n => delete n (resources r) | None => resources r end.
Proof.
  destruct o as [n |]; [| by repeat split].
  unfold unregisterResource, bind, gets. case_bool_decide as Hin; simpl.
  - by repeat split.
  - repeat split. symmetry. apply delete_id.
    destruct (resources r !! n) eqn:E; [| done]. exfalso. apply Hin. eauto.
Qed.

(** [registry_wf] is an invariant of the registry's methods. *)
Lemma registry_wf_new : registry_wf new.
Proof. split; intros k d H; simpl in H; by rewrite lookup_empty in H. Qed.

Lemma registry_wf_registerTool r d :
  registry_wf r → registry_wf (fst (registerTool d r)).
Proof.
  intros [Ht Hr].
  destruct (negb (truthy_str (name d)) || negb (truthy (handler d))) eqn:E.
  - rewrite registerTool_rejected by done. by split.
  - destruct (checks_registrable d E) as [n Hd]. rewrite (registerTool_ok _ _ n Hd).
    split; simpl; [| done]. intros k d' Hk.
    destruct (decide (n = k)) as [-> | Hne].
    + rewrite lookup_insert_eq in Hk. injection Hk as <-. apply Hd.
    + rewrite lookup_insert_ne in Hk by done. eauto.
Qed.

Lemma registry_wf_registerResource r d :
  registry_wf r → registry_wf (fst (registerResource d r)).
Proof.
  intros [Ht Hr].
  destruct (negb (truthy_str (name d)) || negb (truthy (handler d))) eqn:E.
  - rewrite registerResource_rejected by done. by split.
  - destruct (checks_registrable d E) as [n Hd]. rewrite (registerResource_ok _ _ n Hd).
    split; simpl; [done |]. intros k d' Hk.
    destruct (decide (n = k)) as [-> | Hne].
    + rewrite lookup_insert_eq in Hk. injection Hk as <-. apply Hd.
    + rewrite lookup_insert_ne in Hk by done. eauto.
Qed.

Lemma registry_wf_unregisterTool r o :
  registry_wf r → registry_wf (fst (unregisterTool o r)).
Proof.
  intros [Ht Hr]. destruct (unregisterTool_tools o r) as (_ & Hres & Htools).
  split; intros k d; rewrite ?Hres, ?Htools; [| by eauto].
  destruct o as [n |]; [| by eauto].
  intros [_ Hk]%lookup_delete_Some. eauto.
Qed.

Lemma registry_wf_unregisterResource r o :
  registry_wf r → registry_wf (fst (unregisterResource o r)).
Proof.
  intros [Ht Hr]. destruct (unregisterResource_resources o r) as (_ & Htools & Hres).
  split; intros k d; rewrite ?Hres, ?Htools; [by eauto |].
  destruct o as [n |]; [| by eauto].
  intros [_ Hk]%lookup_delete_Some. eauto.
Qed.

Lemma filter_none {A} (P : A → Prop) `{!∀ x, Decision (P x)} (l : list A) :
  (∀ x, x ∈ l → ¬ P x) → filter P l = [].
Proof.
  induction l as [| x l IH]; intros Hall; [reflexivity |].
  rewrite filter_cons_False by (apply Hall; left).
  apply IH. intros y Hy. apply Hall. by right.
Qed.

(** In a well-formed map, exactly one listed descriptor bears a name
    that is registered. *)
Lemma one_entry_per_name (m : gmap string descriptor) n d :
  (∀ k d', m !! k = Some d' → name d' = Some k) →
  m !! n = Some d →
  length (filter (λ d', name d' = Some n) (map_to_list m).*2) = 1.
Proof.
  intros Hwf Hn.
  rewrite <- (insert_delete_id m n d Hn).
  rewrite (map_to_list_insert (delete n m) n d) by apply lookup_delete_eq.
  rewrite fmap_cons. simpl. rewrite filter_cons_True by eauto.
  rewrite filter_none; [reflexivity |].
  intros d' [[k d''] [-> Hin]]%list_elem_of_fmap Hname. simpl in Hname.
  apply elem_of_map_to_list in Hin. apply lookup_delete_Some in Hin as [Hne Hk].
  apply Hwf in Hk. congruence.
Qed.


(** C8: registering [t1] and then [t2] under the same name succeeds
    twice, leaves [t2] under that name, gives the same tools map as
    registering [t2] alone, does not change the length of the listing
    reached after [t1], and the listing holds exactly one descriptor of
    that name. *)
Theorem C8_same_name_later_wins (r : t) (t1 t2 : descriptor) (n : string) :
  registry_wf r → registrable t1 n → registrable t2 n →
  let r1 := fst (registerTool t1 r) in
  let r2 := fst (registerTool t2 r1) in
  snd (registerTool t1 r) = Ret tt ∧ snd (registerTool t2 r1) = Ret tt ∧
  tools r2 !! n = Some t2 ∧
  tools r2 = tools (fst (registerTool t2 r)) ∧
  length (listTools r2) = length (listTools r1) ∧
  length (filter (λ d, name d = Some n) (listTools r2)) = 1.
Proof.
  intros Hwf H1 H2 r1 r2.
  assert (Hwf2 : registry_wf r2)
    by (apply registry_wf_registerTool, registry_wf_registerTool, Hwf).
  subst r1 r2. revert Hwf2.
  rewrite (registerTool_ok r t1 n H1). simpl.
  rewrite (registerTool_ok _ t2 n H2). simpl.
  rewrite (registerTool_ok r t2 n H2). simpl.
  intros [Hwf2 _]. simpl in Hwf2.
  repeat split.
  - apply lookup_insert_eq.
  - apply insert_insert_eq.
  - unfold listTools. simpl. rewrite !length_fmap, !length_map_to_list.
    rewrite insert_insert_eq.
    rewrite !map_size_insert. reflexivity.
  - unfold listTools. simpl.
    apply (one_entry_per_name _ n t2 Hwf2). apply lookup_insert_eq.
Qed.

Lemma C8_same_name_later_wins_witness :
  let r2 := fst (registerTool tool_v2 (fst (registerTool tool_v1 new))) in
  tools r2 !! "echo" = Some tool_v2 ∧ length (listTools r2) = 1.
Proof.
  destruct (C8_same_name_later_wins new tool_v1 tool_v2 "echo")
    as (_ & _ & Hlookup & _ & _ & Hone).
  - apply registry_wf_new.
  - repeat split; [discriminate | eexists; reflexivity].
  - repeat split; [discriminate | eexists; reflexivity].
  - split; [exact Hlookup | reflexivity].
Defined.

End RegistrationFacts.

(** ** Message router *)

Section RouterFacts.
Import MessageRouter.


Lemma error_envelope_id i code text : get_prop "id" (error_envelope i code text) = i.
Proof. reflexivity. Qed.

Lemma error_envelope_code i code text :
  get_prop "code" (get_prop "error" (error_envelope i code text)) = VNum code.
Proof. reflexivity. Qed.

(** C2, as stated, fails on the success path: the route [ping] answers
    request 7 with the handler's own value, which carries no id. *)
Lemma C2_success_response_lacks_id :
  routes ping_router !! method ping = Some pong ∧
  routeMessage ping ping_router = (ping_router, Ret (VStr "pong")) ∧
  get_prop "id" (VStr "pong") ≠ id ping.
Proof. repeat split. discriminate. Qed.

(** C2, amended: [routeMessage] returns one response and does not throw
    when the route is missing or the handler returns or throws an Error.
    Without a route the response is the error envelope with code -32601
    and the request id; when the handler throws an Error with message
    [m] it is the error envelope with code -32000, the text
    ["Erreur interne: " + m] and the request id; when the handler returns,
    the response is the handler's value, unchanged. *)
Theorem C2_route_message_outcome (r : t) (msg : message) :
  (routes r !! method msg = None →
     ∃ r', routeMessage msg r
           = (r', Ret (error_envelope (id msg) METHOD_NOT_FOUND
                         ("Méthode '" +:+ method msg +:+ "' non trouvée"))) ∧
           routes r' = routes r) ∧
  (∀ h m, routes r !! method msg = Some h → h msg = Throw (JsError m) →
     ∃ r', routeMessage msg r
           = (r', Ret (error_envelope (id msg) INTERNAL_ERROR ("Erreur interne: " +:+ m))) ∧
           routes r' = routes r) ∧
  (∀ h v, routes r !! method msg = Some h → h msg = Ret v →
     routeMessage msg r = (r, Ret v)) ∧
  (∀ code text, get_prop "id" (error_envelope (id msg) code text) = id msg) ∧
  METHOD_NOT_FOUND ≠ INTERNAL_ERROR.
Proof.
  repeat split.
  - intros Hnone. eexists. unfold routeMessage, bind, gets. cbv zeta.
    rewrite Hnone. simpl. split; reflexivity.
  - intros h m Hsome Hthrow. eexists.
    unfold routeMessage, bind, gets, try_catch, lift. cbv zeta.
    rewrite Hsome, Hthrow. simpl. split; reflexivity.
  - intros h v Hsome Hret. unfold routeMessage, bind, gets, try_catch, lift. cbv zeta.
    rewrite Hsome, Hret. reflexivity.
  - discriminate.
Qed.

Lemma C2_route_message_outcome_witness :
  (∃ r', routeMessage {| id := VNum 1; method := "nope"; params := VNull |} ping_router
         = (r', Ret (error_envelope (VNum 1) (-32601) "Méthode 'nope' non trouvée"))) ∧
  (∃ r', routeMessage {| id := VStr "a"; method := "down"; params := VNull |} ping_router
         = (r', Ret (error_envelope (VStr "a") (-32000) "Erreur interne: down"))) ∧
  routeMessage ping ping_router = (ping_router, Ret (VStr "pong")).
Proof.
  split; [| split].
  - destruct (C2_route_message_outcome ping_router
                {| id := VNum 1; method := "nope"; params := VNull |})
      as [H _].
    destruct H as (r' & Hr & _); [reflexivity |]. exists r'. exact Hr.
  - destruct (C2_route_message_outcome ping_router
                {| id := VStr "a"; method := "down"; params := VNull |})
      as (_ & H & _).
    destruct (H down "down") as (r' & Hr & _); [reflexivity | reflexivity |].
    exists r'. exact Hr.
  - destruct (C2_route_message_outcome ping_router ping) as (_ & _ & H & _).
    apply (H pong); reflexivity.
Defined.

(** A route handler doing [throw null] or [throw undefined] makes the
    [catch] block fail on [error.message]; that TypeError leaves
    [routeMessage]. *)
Lemma routeMessage_handler_throwing_null r msg h v :
  routes r !! method msg = Some h → h msg = Throw (JsNullish v) →
  routeMessage msg r = (r, Throw (TypeError_read_message v)).
Proof.
  intros Hsome Hthrow. unfold routeMessage, bind, gets, try_catch, lift. cbv zeta.
  rewrite Hsome, Hthrow. reflexivity.
Qed.

End RouterFacts.

(** ** Middleware: agent registration *)

Section MiddlewareFacts.
Import McpMiddleware.

(** The descriptors an agent owns: the lists its [getTools] and
    [getResources] return. *)

Lemma delete_names_sub ds : ∀ m k x,
  delete_names ds m !! k = Some x → m !! k = Some x.
Proof.
  unfold delete_names. induction ds as [| d ds IH]; intros m k x; simpl; [done |].
  intros H%IH. destruct (name d) as [n |]; [| done].
  by apply lookup_delete_Some in H as [_ H].
Qed.

Lemma delete_names_gone ds : ∀ m k d,
  d ∈ ds → name d = Some k → delete_names ds m !! k = None.
Proof.
  unfold delete_names. induction ds as [| d0 ds IH]; intros m k d Hin Hname.
  - inversion Hin.
  - simpl. inversion Hin as [| ? ? ? Hin']; subst.
    + rewrite Hname.
      destruct (foldl _ (delete k m) ds !! k) eqn:E; [| done].
      apply (delete_names_sub ds) in E. by rewrite lookup_delete_eq in E.
    + by apply (IH _ _ d).
Qed.

Lemma unregister_tools_loop ds : ∀ m,
  ∃ lg, forEach ds (fun tool => on_registry (CapabilityRegistry.unregisterTool (name tool))) m
        = ({| agents := agents m;
              capabilityRegistry :=
                {| CapabilityRegistry.tools :=
                     delete_names ds (CapabilityRegistry.tools (capabilityRegistry m));
                   CapabilityRegistry.resources :=
                     CapabilityRegistry.resources (capabilityRegistry m);
                   CapabilityRegistry.log := lg |};
              log := log m |}, Ret tt).
Proof.
  induction ds as [| d ds IH]; intros m.
  - exists (CapabilityRegistry.log (capabilityRegistry m)).
    destruct m as [ag [tm rm lg] l]. reflexivity.
  - simpl. unfold bind at 1. unfold on_registry at 1.
    destruct (unregisterTool_tools (name d) (capabilityRegistry m)) as (Hret & Hres & Htools).
    destruct (CapabilityRegistry.unregisterTool (name d) (capabilityRegistry m))
      as [r' o] eqn:E.
    simpl in *. subst o.
    match goal with |- context [forEach ds _ ?m'] => destruct (IH m') as [lg Hlg] end.
    exists lg. rewrite Hlg. simpl. rewrite Hres, Htools.
    unfold delete_names. simpl. destruct (name d); reflexivity.
Qed.

Lemma unregister_resources_loop ds : ∀ m,
  ∃ lg, forEach ds (fun resource =>
                      on_registry (CapabilityRegistry.unregisterResource (name resource))) m
        = ({| agents := agents m;
              capabilityRegistry :=
                {| CapabilityRegistry.tools :=
                     CapabilityRegistry.tools (capabilityRegistry m);
                   CapabilityRegistry.resources :=
                     delete_names ds (CapabilityRegistry.resources (capabilityRegistry m));
                   CapabilityRegistry.log := lg |};
              log := log m |}, Ret tt).
Proof.
  induction ds as [| d ds IH]; intros m.
  - exists (CapabilityRegistry.log (capabilityRegistry m)).
    destruct m as [ag [tm rm lg] l]. reflexivity.
  - simpl. unfold bind at 1. unfold on_registry at 1.
    destruct (unregisterResource_resources (name d) (capabilityRegistry m))
      as (Hret & Htools & Hres).
    destruct (CapabilityRegistry.unregisterResource (name d) (capabilityRegistry m))
      as [r' o] eqn:E.
    simpl in *. subst o.
    match goal with |- context [forEach ds _ ?m'] => destruct (IH m') as [lg Hlg] end.
    exists lg. rewrite Hlg. simpl. rewrite Hres, Htools.
    unfold delete_names. simpl. destruct (name d); reflexivity.
Qed.

(** What [unregisterAgent] leaves behind when the id is registered. *)
Lemma unregisterAgent_found m id agent :
  agents m !! id = Some agent →
  ∃ lg, unregisterAgent id m
        = ({| agents := delete id (agents m);
              capabilityRegistry :=
                {| CapabilityRegistry.tools :=
                     delete_names (owned_tools agent)
                       (CapabilityRegistry.tools (capabilityRegistry m));
                   CapabilityRegistry.resources :=
                     delete_names (owned_resources agent)
                       (CapabilityRegistry.resources (capabilityRegistry m));
                   CapabilityRegistry.log := lg |};
              log := log m ++ [createSubLogger "MCP-Middleware" Info
                                 ("Agent '" +:+ id +:+ "' désenregistré avec succès")] |},
           Ret tt).
Proof.
  intros Hfound. unfold unregisterAgent. unfold bind at 1. unfold gets.
  rewrite Hfound. unfold owned_tools, owned_resources.
  destruct agent as [[ts |] [rs |]]; simpl.
  - unfold bind at 1. destruct (unregister_tools_loop ts m) as [lg1 ->].
    unfold bind at 1.
    match goal with |- context [forEach rs _ ?m'] =>
      destruct (unregister_resources_loop rs m') as [lg2 ->] end.
    exists lg2. reflexivity.
  - unfold bind at 1. destruct (unregister_tools_loop ts m) as [lg1 ->].
    exists lg1. reflexivity.
  - unfold bind at 1. unfold ret at 1. unfold bind at 1.
    destruct (unregister_resources_loop rs m) as [lg2 ->].
    exists lg2. reflexivity.
  - exists (CapabilityRegistry.log (capabilityRegistry m)).
    destruct m as [ag [tm rm lg] l]. reflexivity.
Qed.

Lemma registerAgent_registry_wf m id agent :
  middleware_wf m → middleware_wf (fst (registerAgent id agent m)).
Proof.
  revert m. unfold registerAgent.
  apply (bind_invariant middleware_wf); [done |].
  intros has. apply (bind_invariant middleware_wf); [by destruct has |]. intros _.
  apply (bind_invariant middleware_wf); [done |]. intros _.
  apply (bind_invariant middleware_wf).
  { destruct (getTools agent) as [ts |]; [| done].
    apply (forEach_invariant middleware_wf). intros d m Hm.
    unfold on_registry, middleware_wf in *.
    pose proof (registry_wf_registerTool (capabilityRegistry m) d Hm) as H.
    by destruct (CapabilityRegistry.registerTool d (capabilityRegistry m)). }
  intros _. apply (bind_invariant middleware_wf); [| done].
  destruct (getResources agent) as [rs |]; [| done].
  apply (forEach_invariant middleware_wf). intros d m Hm.
  unfold on_registry, middleware_wf in *.
  pose proof (registry_wf_registerResource (capabilityRegistry m) d Hm) as H.
  by destruct (CapabilityRegistry.registerResource d (capabilityRegistry m)).
Qed.

(** C6, amended: for an id registered in the middleware,
    [unregisterAgent] succeeds, drops the agent, and leaves in the
    registry no tool and no resource that the agent stored under the id
    lists: none of the descriptors in that agent's tool and resource
    lists is listed any more, and none of their names is registered.
    For an id that is not registered it only logs a warning: agents and
    registry are unchanged. *)
Theorem C6_unregister_agent (m : t) (id : string) :
  registry_wf (capabilityRegistry m) →
  (∀ agent, agents m !! id = Some agent →
     let m' := fst (unregisterAgent id m) in
     snd (unregisterAgent id m) = Ret tt ∧
     agents m' = delete id (agents m) ∧
     (∀ d, d ∈ owned_tools agent →
        (d ∉ CapabilityRegistry.listTools (capabilityRegistry m')) ∧
        ∀ n, name d = Some n →
             CapabilityRegistry.tools (capabilityRegistry m') !! n = None) ∧
     (∀ d, d ∈ owned_resources agent →
        (d ∉ CapabilityRegistry.listResources (capabilityRegistry m')) ∧
        ∀ n, name d = Some n →
             CapabilityRegistry.resources (capabilityRegistry m') !! n = None)) ∧
  (agents m !! id = None →
     unregisterAgent id m
     = ({| agents := agents m; capabilityRegistry := capabilityRegistry m;
           log := log m ++ [createSubLogger "MCP-Middleware" Warn
                              ("Aucun agent trouvé avec l'ID " +:+ id)] |}, Ret tt)).
Proof.
  intros [Hwt Hwr]. split.
  - intros agent Hfound m'. subst m'.
    destruct (unregisterAgent_found m id agent Hfound) as [lg ->]. simpl.
    split; [done |]. split; [done |]. split.
    + intros d Hd.
      assert (Hgone : ∀ n, name d = Some n →
                delete_names (owned_tools agent)
                  (CapabilityRegistry.tools (capabilityRegistry m)) !! n = None)
        by (intros n Hn; by apply (delete_names_gone _ _ _ d)).
      split; [| done].
      unfold CapabilityRegistry.listTools. simpl.
      intros [[k d'] [-> Hin]]%list_elem_of_fmap. simpl in *.
      apply elem_of_map_to_list in Hin. pose proof Hin as Hin'.
      apply delete_names_sub, Hwt in Hin'. rewrite (Hgone k Hin') in Hin. done.
    + intros d Hd.
      assert (Hgone : ∀ n, name d = Some n →
                delete_names (owned_resources agent)
                  (CapabilityRegistry.resources (capabilityRegistry m)) !! n = None)
        by (intros n Hn; by apply (delete_names_gone _ _ _ d)).
      split; [| done].
      unfold CapabilityRegistry.listResources. simpl.
      intros [[k d'] [-> Hin]]%list_elem_of_fmap. simpl in *.
      apply elem_of_map_to_list in Hin. pose proof Hin as Hin'.
      apply delete_names_sub, Hwr in Hin'. rewrite (Hgone k Hin') in Hin. done.
  - intros Hnone. unfold unregisterAgent, bind, gets. rewrite Hnone. reflexivity.
Qed.

Lemma C6_unregister_agent_witness :
  CapabilityRegistry.listTools (capabilityRegistry twitter_middleware)
    = [BaseAgent.with_agentId TwitterAgent.search_tweets_tool "twitter"] ∧
  CapabilityRegistry.tools
    (capabilityRegistry (fst (unregisterAgent "twitter" twitter_middleware)))
    !! "search_tweets" = None ∧
  agents (fst (unregisterAgent "ghost" twitter_middleware)) = agents twitter_middleware.
Proof.
  assert (Hwf : registry_wf (capabilityRegistry twitter_middleware))
    by apply registerAgent_registry_wf, registry_wf_new.
  destruct (C6_unregister_agent twitter_middleware "twitter" Hwf) as [Hfound _].
  destruct (C6_unregister_agent twitter_middleware "ghost" Hwf) as [_ Habsent].
  split; [reflexivity |]. split.
  - destruct (Hfound (of_agent twitter_ready)) as (_ & _ & Htools & _); [reflexivity |].
    destruct (Htools (BaseAgent.with_agentId TwitterAgent.search_tweets_tool "twitter"))
      as [_ Hname]; [left |].
    apply Hname. reflexivity.
  - rewrite Habsent; reflexivity.
Defined.

(** C6, as stated, fails: the registry keeps no record of owners, and
    [unregisterAgent] removes the names listed by the agent stored under
    the id at that moment.  When a twitter agent that is not yet
    initialized is registered under ["twitter"], an id taken by an
    initialized one, the first agent is replaced and its tool stays;
    after [unregisterAgent("twitter")] the tool listing still holds
    [search_tweets], tagged with the agent id ["twitter"]. *)
Lemma C6_replaced_agent_entries_survive :
  let m := fst (registerAgent "twitter" (of_agent TwitterAgent.new) twitter_middleware) in
  let m' := fst (unregisterAgent "twitter" m) in
  agents twitter_middleware !! "twitter" = Some (of_agent twitter_ready) ∧
  agents m !! "twitter" = Some (of_agent TwitterAgent.new) ∧
  snd (unregisterAgent "twitter" m) = Ret tt ∧
  agents m' !! "twitter" = None ∧
  CapabilityRegistry.listTools (capabilityRegistry m')
    = [BaseAgent.with_agentId TwitterAgent.search_tweets_tool "twitter"] ∧
  agentId (BaseAgent.with_agentId TwitterAgent.search_tweets_tool "twitter")
    = Some "twitter".
Proof.
  intros m m'. repeat split; reflexivity.
Qed.

End MiddlewareFacts.

(** ** Agents *)


Section AgentFacts.
Import BaseAgent.
Context {X : Type}.
Implicit Types (a : BaseAgent.t X) (d : descriptor).

Lemma registerTool_valid a d :
  valid d →
  registerTool d a =
    ({| id := id a; tools := tools a ++ [with_agentId d (id a)];
        resources := resources a; running := running a;
        logger_context := logger_context a;
        emitted := emitted a ++ [{| event := "tool-registered";
                                    arg := Some (with_agentId d (id a)) |}];
        log := log a ++ [createSubLogger (logger_context a) Debug
                           ("Outil '" +:+ show (name d) +:+ "' enregistré par l'agent '"
                            +:+ id a +:+ "'")];
        ext := ext a |}, Ret (with_agentId d (id a))).
Proof. intros (Hn & Hd & Hh). unfold registerTool. rewrite Hn, Hd, Hh. reflexivity. Qed.

Lemma registerResource_valid a d :
  valid d →
  registerResource d a =
    ({| id := id a; tools := tools a;
        resources := resources a ++ [with_agentId d (id a)]; running := running a;
        logger_context := logger_context a;
        emitted := emitted a ++ [{| event := "resource-registered";
                                    arg := Some (with_agentId d (id a)) |}];
        log := log a ++ [createSubLogger (logger_context a) Debug
                           ("Ressource '" +:+ show (name d)
                            +:+ "' enregistrée par l'agent '" +:+ id a +:+ "'")];
        ext := ext a |}, Ret (with_agentId d (id a))).
Proof. intros (Hn & Hd & Hh). unfold registerResource. rewrite Hn, Hd, Hh. reflexivity. Qed.

Lemma registerTool_cases a d :
  valid d ∨ registerTool d a
            = (a, Throw (JsError "Un outil doit avoir un nom, une description et un gestionnaire")).
Proof.
  unfold valid, registerTool.
  destruct (truthy_str (name d)), (truthy_str (description d)), (truthy (handler d));
    simpl; auto.
Qed.

Lemma registerResource_cases a d :
  valid d ∨ registerResource d a
            = (a, Throw (JsError "Une ressource doit avoir un nom, une description et un gestionnaire")).
Proof.
  unfold valid, registerResource.
  destruct (truthy_str (name d)), (truthy_str (description d)), (truthy (handler d));
    simpl; auto.
Qed.

Lemma tagged_new i (x : X) : tagged (new i x).
Proof. split; constructor. Qed.

Lemma tagged_registerTool a d : tagged a → tagged (fst (registerTool d a)).
Proof.
  intros [Ht Hr]. destruct (registerTool_cases a d) as [Hv | ->]; [| by split].
  rewrite (registerTool_valid a d Hv). split; simpl; [| done].
  apply Forall_app. split; [done |]. by constructor.
Qed.

Lemma tagged_registerResource a d : tagged a → tagged (fst (registerResource d a)).
Proof.
  intros [Ht Hr]. destruct (registerResource_cases a d) as [Hv | ->]; [| by split].
  rewrite (registerResource_valid a d Hv). split; simpl; [done |].
  apply Forall_app. split; [done |]. by constructor.
Qed.

End AgentFacts.

Section LifecycleFacts.
Import BaseAgent.
Context {X : Type}.
Implicit Types (a : BaseAgent.t X) (init : M (BaseAgent.t X) unit).


Lemma start_when_running init a :
  running a = true →
  start init a =
    ({| id := id a; tools := tools a; resources := resources a; running := running a;
        logger_context := logger_context a; emitted := emitted a;
        log := log a ++ [createSubLogger (logger_context a) Warn
                           ("L'agent '" +:+ id a +:+ "' est déjà en cours d'exécution")];
        ext := ext a |}, Ret tt).
Proof. destruct a; simpl. intros ->. reflexivity. Qed.

Lemma start_when_stopped init a ai :
  running a = false → init a = (ai, Ret tt) →
  start init a =
    ({| id := id ai; tools := tools ai; resources := resources ai; running := true;
        logger_context := logger_context ai;
        emitted := emitted ai ++ [started];
        log := log ai ++ [createSubLogger (logger_context ai) Info
                            ("Agent '" +:+ id ai +:+ "' démarré")];
        ext := ext ai |}, Ret tt).
Proof.
  intros Hr Hinit. unfold start, bind, gets, try_catch. rewrite Hr, Hinit. reflexivity.
Qed.

(** When [this.initialize()] throws an Error, [start] logs it and throws
    it again; the agent is left as initialization left it, not running. *)
Lemma start_initialize_fails init a ai m :
  running a = false → init a = (ai, Throw (JsError m)) →
  snd (start init a) = Throw (JsError m) ∧
  running (fst (start init a)) = running ai ∧
  emitted (fst (start init a)) = emitted ai.
Proof.
  intros Hr Hinit. unfold start, bind, gets, try_catch. rewrite Hr, Hinit.
  repeat split.
Qed.

Lemma stop_when_stopped a :
  running a = false →
  stop a =
    ({| id := id a; tools := tools a; resources := resources a; running := running a;
        logger_context := logger_context a; emitted := emitted a;
        log := log a ++ [createSubLogger (logger_context a) Warn
                           ("L'agent '" +:+ id a +:+ "' n'est pas en cours d'exécution")];
        ext := ext a |}, Ret tt).
Proof. destruct a; simpl. intros ->. reflexivity. Qed.

Lemma stop_when_running a :
  running a = true →
  stop a =
    ({| id := id a; tools := tools a; resources := resources a; running := false;
        logger_context := logger_context a; emitted := emitted a ++ [stopped];
        log := log a ++ [createSubLogger (logger_context a) Info
                           ("Agent '" +:+ id a +:+ "' arrêté")];
        ext := ext a |}, Ret tt).
Proof. destruct a; simpl. intros ->. reflexivity. Qed.

Lemma count_event_app e l1 l2 :
  count_event e (l1 ++ l2) = count_event e l1 + count_event e l2.
Proof. unfold count_event. by rewrite filter_app, length_app. Qed.

(** C7: on an agent that is not running, [stop] only logs a warning:
    every field but the log is as before, so the state stays and no
    [stopped] event is emitted.  Two calls of [start] in a row, the
    first of which initializes successfully, emit [started] once: the
    second call only logs a warning, so it neither runs the
    initialization again nor emits. *)
Theorem C7_lifecycle_guards init a :
  running a = false →
  (stop a =
     ({| id := id a; tools := tools a; resources := resources a; running := false;
         logger_context := logger_context a; emitted := emitted a;
         log := log a ++ [createSubLogger (logger_context a) Warn
                            ("L'agent '" +:+ id a +:+ "' n'est pas en cours d'exécution")];
         ext := ext a |}, Ret tt)) ∧
  (∀ ai, init a = (ai, Ret tt) →
     let a1 := fst (start init a) in
     let a2 := fst (start init a1) in
     snd (start init a) = Ret tt ∧ snd (start init a1) = Ret tt ∧
     running a1 = true ∧
     emitted a1 = emitted ai ++ [started] ∧
     a2 = {| id := id a1; tools := tools a1; resources := resources a1;
             running := true; logger_context := logger_context a1;
             emitted := emitted a1;
             log := log a1 ++ [createSubLogger (logger_context a1) Warn
                                 ("L'agent '" +:+ id a1
                                  +:+ "' est déjà en cours d'exécution")];
             ext := ext a1 |} ∧
     count_event "started" (emitted a2) = S (count_event "started" (emitted ai))).
Proof.
  intros Hr. split.
  - rewrite (stop_when_stopped a Hr), Hr. reflexivity.
  - intros ai Hinit a1 a2.
    pose proof (start_when_stopped init a ai Hr Hinit) as H1.
    assert (Hr1 : running a1 = true) by (subst a1; rewrite H1; reflexivity).
    pose proof (start_when_running init a1 Hr1) as H2.
    subst a2. rewrite H2. cbn [fst snd]. rewrite Hr1.
    subst a1. rewrite H1. cbn [fst snd emitted].
    repeat split. rewrite count_event_app.
    change (count_event "started" [started]) with 1. lia.
Qed.

End LifecycleFacts.

Lemma C7_lifecycle_guards_witness :
  BaseAgent.emitted (fst (TwitterAgent.stop TwitterAgent.new)) = [] ∧
  BaseAgent.running (fst (TwitterAgent.stop TwitterAgent.new)) = false ∧
  count_event "started"
    (BaseAgent.emitted
       (fst (TwitterAgent.start (fst (TwitterAgent.start TwitterAgent.new))))) = 1.
Proof.
  destruct (C7_lifecycle_guards TwitterAgent.initialize TwitterAgent.new) as [Hstop Hstart];
    [reflexivity |].
  split; [| split].
  - unfold TwitterAgent.stop. rewrite Hstop. reflexivity.
  - unfold TwitterAgent.stop. rewrite Hstop. reflexivity.
  - destruct (Hstart (fst (TwitterAgent.initialize TwitterAgent.new)))
      as (_ & _ & _ & _ & _ & Hcount); [reflexivity |].
    etrans; [exact Hcount | reflexivity].
Defined.

Section ContentAnalysisFacts.
Import BaseAgent ContentAnalysisAgent.
Variables h1 h2 h3 h4 : handler_fn.
Implicit Types a : ContentAnalysisAgent.agent.


Lemma initialize_effect a :
  let a' := fst (initialize h1 h2 h3 h4 a) in
  snd (initialize h1 h2 h3 h4 a) = Ret tt ∧
  id a' = id a ∧ running a' = running a ∧ ext a' = ext a ∧
  logger_context a' = logger_context a ∧
  tools a' = tools a ++ own_tools h1 h2 h3 (id a) ∧
  resources a' = resources a ++ own_resources h4 (id a) ∧
  emitted a' = emitted a ++
    map (λ d, {| event := "tool-registered"; arg := Some d |}) (own_tools h1 h2 h3 (id a)) ++
    map (λ d, {| event := "resource-registered"; arg := Some d |}) (own_resources h4 (id a)).
Proof.
  destruct a; simpl. repeat split; by rewrite <- ?app_assoc.
Qed.

Lemma start_effect a :
  running a = false →
  let a' := fst (start h1 h2 h3 h4 a) in
  snd (start h1 h2 h3 h4 a) = Ret tt ∧
  id a' = id a ∧ running a' = true ∧
  tools a' = tools a ++ own_tools h1 h2 h3 (id a) ∧
  resources a' = resources a ++ own_resources h4 (id a) ∧
  count_event "started" (emitted a') = S (count_event "started" (emitted a)).
Proof.
  destruct a; simpl. intros ->. simpl. repeat split; try by rewrite <- ?app_assoc.
  rewrite !count_event_app. simpl. unfold count_event. simpl. lia.
Qed.

Lemma stop_effect a :
  running a = true →
  let a' := fst (stop a) in
  snd (stop a) = Ret tt ∧
  id a' = id a ∧ running a' = false ∧
  tools a' = tools a ∧ resources a' = resources a.
Proof. destruct a; simpl. intros ->. simpl. repeat split. Qed.

(** A second [start] in a row emits nothing and registers nothing, but
    the override sets one more interval timer. *)
Lemma start_again_effect a :
  running a = true →
  let a' := fst (start h1 h2 h3 h4 a) in
  snd (start h1 h2 h3 h4 a) = Ret tt ∧
  emitted a' = emitted a ∧ tools a' = tools a ∧ resources a' = resources a ∧
  intervals (ext a') = intervals (ext a) ++ [nextHandle (ext a)].
Proof. destruct a; simpl. intros ->. simpl. repeat split. Qed.

(** [stop] on an agent that never started changes the log only. *)
Lemma stop_before_start_effect a :
  running a = false → queueInterval (ext a) = None →
  let a' := fst (stop a) in
  snd (stop a) = Ret tt ∧ running a' = false ∧ emitted a' = emitted a ∧
  tools a' = tools a ∧ resources a' = resources a ∧ ext a' = ext a.
Proof. destruct a as [? ? ? ? ? ? ? []]; simpl. intros -> ->. simpl. repeat split. Qed.

(** C4, amended: [start] runs [initialize] on every call made while the
    agent is not running, and [initialize] appends the agent's three tool
    descriptors and its resource descriptor each time.  After
    [start(); stop(); start()] the tool and resource lists are those
    reached after the first [start] followed by the same descriptors once
    more; all three calls succeed. *)
Theorem C4_restart_registers_again a :
  running a = false →
  let a1 := fst (start h1 h2 h3 h4 a) in
  let a2 := fst (stop a1) in
  let a3 := fst (start h1 h2 h3 h4 a2) in
  snd (start h1 h2 h3 h4 a) = Ret tt ∧ snd (stop a1) = Ret tt ∧
  snd (start h1 h2 h3 h4 a2) = Ret tt ∧
  tools a1 = tools a ++ own_tools h1 h2 h3 (id a) ∧
  resources a1 = resources a ++ own_resources h4 (id a) ∧
  tools a3 = tools a1 ++ own_tools h1 h2 h3 (id a) ∧
  resources a3 = resources a1 ++ own_resources h4 (id a).
Proof.
  intros Hr a1 a2 a3.
  destruct (start_effect a Hr) as (Hs1 & Hid1 & Hr1 & Ht1 & Hres1 & _).
  fold a1 in Hid1, Hr1, Ht1, Hres1.
  destruct (stop_effect a1 Hr1) as (Hs2 & Hid2 & Hr2 & Ht2 & Hres2).
  fold a2 in Hid2, Hr2, Ht2, Hres2.
  destruct (start_effect a2 Hr2) as (Hs3 & _ & _ & Ht3 & Hres3 & _).
  fold a3 in Ht3, Hres3.
  rewrite Hid2, Hid1 in Ht3, Hres3. rewrite Ht2 in Ht3. rewrite Hres2 in Hres3.
  repeat split; assumption.
Qed.

End ContentAnalysisFacts.

(** C4, as stated, fails: a fresh content-analysis agent has three tools
    and one resource after the first [start], and six tools and two
    resources after [start(); stop(); start()]. *)
Lemma C4_restart_duplicates_capabilities :
  let h : handler_fn := fun params => Ret params in
  let a1 := fst (ContentAnalysisAgent.start h h h h (ContentAnalysisAgent.new)) in
  let a3 := fst (ContentAnalysisAgent.start h h h h (fst (ContentAnalysisAgent.stop a1))) in
  length (BaseAgent.tools a1) = 3 ∧ length (BaseAgent.resources a1) = 1 ∧
  length (BaseAgent.tools a3) = 6 ∧ length (BaseAgent.resources a3) = 2 ∧
  BaseAgent.tools a3 ≠ BaseAgent.tools a1 ∧
  BaseAgent.resources a3 ≠ BaseAgent.resources a1.
Proof.
  repeat split; intros H; apply (f_equal length) in H; discriminate H.
Qed.

Lemma C4_restart_registers_again_witness :
  let h : handler_fn := fun params => Ret params in
  let a1 := fst (ContentAnalysisAgent.start h h h h (ContentAnalysisAgent.new)) in
  let a3 := fst (ContentAnalysisAgent.start h h h h (fst (ContentAnalysisAgent.stop a1))) in
  BaseAgent.tools a3 = BaseAgent.tools a1 ++ own_tools h h h "content-analysis".
Proof.
  intros h.
  destruct (C4_restart_registers_again h h h h ContentAnalysisAgent.new)
    as (_ & _ & _ & _ & _ & Htools & _); [reflexivity |].
  exact Htools.
Defined.

Section OwnershipFacts.
Import BaseAgent.

Lemma tagged_logger {X} l f (a : BaseAgent.t X) : tagged a → tagged (fst (logger l f a)).
Proof. done. Qed.

Lemma tagged_initialize {X} (a : BaseAgent.t X) : tagged a → tagged (fst (initialize a)).
Proof. done. Qed.

Lemma tagged_start {X} init (a : BaseAgent.t X) :
  (∀ a', tagged a' → tagged (fst (init a'))) →
  tagged a → tagged (fst (start init a)).
Proof.
  intros Hinit. revert a. unfold start.
  apply (bind_invariant tagged); [done |]. intros [|]; [done |].
  apply (try_catch_invariant tagged).
  - apply (bind_invariant tagged); [done |]. intros _.
    apply (bind_invariant tagged); [done |]. intros _.
    apply (bind_invariant tagged); done.
  - intros e. apply (bind_invariant tagged); [done |]. intros m.
    apply (bind_invariant tagged); done.
Qed.

Lemma tagged_stop {X} (a : BaseAgent.t X) : tagged a → tagged (fst (stop a)).
Proof.
  revert a. unfold stop.
  apply (bind_invariant tagged); [done |]. intros [|]; by simpl.
Qed.

Lemma tagged_register_calls {X} (cls : AgentClass.t X) :
  (∀ a, tagged a → tagged (fst (AgentClass.initialize cls a))) →
  (∀ a, tagged a → tagged (fst (AgentClass.start cls a))) →
  (∀ a, tagged a → tagged (fst (AgentClass.stop cls a))) →
  preserves_tagged cls.
Proof.
  intros Hi Hs Hp [d | d | | |] a Ha; simpl; auto.
  - revert a Ha. apply (bind_invariant tagged); [| done].
    intros a. apply tagged_registerTool.
  - revert a Ha. apply (bind_invariant tagged); [| done].
    intros a. apply tagged_registerResource.
Qed.

Lemma Base_preserves_tagged {X} : preserves_tagged (@AgentClass.Base X).
Proof.
  apply tagged_register_calls; simpl.
  - apply tagged_initialize.
  - intros a. apply tagged_start, tagged_initialize.
  - apply tagged_stop.
Qed.

Lemma Twitter_initialize_tagged a : tagged a → tagged (fst (TwitterAgent.initialize a)).
Proof.
  revert a. unfold TwitterAgent.initialize.
  apply (bind_invariant tagged); [done |]. intros _.
  apply (bind_invariant tagged); [| done]. intros a. apply tagged_registerTool.
Qed.

Lemma Twitter_preserves_tagged : preserves_tagged AgentClass.Twitter.
Proof.
  apply tagged_register_calls; simpl.
  - apply Twitter_initialize_tagged.
  - intros a. apply tagged_start, Twitter_initialize_tagged.
  - apply tagged_stop.
Qed.

Lemma ContentAnalysis_initialize_tagged h1 h2 h3 h4 a :
  tagged a → tagged (fst (ContentAnalysisAgent.initialize h1 h2 h3 h4 a)).
Proof.
  revert a. unfold ContentAnalysisAgent.initialize.
  apply (bind_invariant tagged); [done |]. intros _.
  apply (bind_invariant tagged); [intros a; apply tagged_registerTool |]. intros _.
  apply (bind_invariant tagged); [intros a; apply tagged_registerTool |]. intros _.
  apply (bind_invariant tagged); [intros a; apply tagged_registerTool |]. intros _.
  apply (bind_invariant tagged); [intros a; apply tagged_registerResource | done].
Qed.

Lemma ContentAnalysis_preserves_tagged h1 h2 h3 h4 :
  preserves_tagged (AgentClass.ContentAnalysis h1 h2 h3 h4).
Proof.
  apply tagged_register_calls; simpl.
  - apply ContentAnalysis_initialize_tagged.
  - unfold ContentAnalysisAgent.start.
    apply (bind_invariant tagged).
    + intros a. apply tagged_start, ContentAnalysis_initialize_tagged.
    + intros _. apply (bind_invariant tagged); done.
  - unfold ContentAnalysisAgent.stop.
    apply (bind_invariant tagged).
    + intros a Ha. unfold ContentAnalysisAgent.stopQueueProcessor. done.
    + intros _. apply (bind_invariant tagged); [apply tagged_stop | done].
Qed.

Lemma reachable_tagged {X} (cls : AgentClass.t X) a0 a :
  preserves_tagged cls → tagged a0 → AgentClass.reachable cls a0 a → tagged a.
Proof.
  intros Hcls H0 Hreach. induction Hreach as [| a c _ IH]; [done |].
  by apply Hcls.
Qed.

(** C10: for a descriptor that passes validation, [registerTool] and
    [registerResource] return the descriptor built from it by setting
    [agentId] to the agent's id, every other property being the given
    one, and append that same descriptor to the agent's tool list,
    respectively resource list, leaving the other list and the id alone.
    The given descriptor is only read.  Hence, in a class whose methods
    go through these two, every descriptor in the lists of an agent
    reached from its constructor carries the agent's id. *)
Theorem C10_register_tags_copy {X} (cls : AgentClass.t X) (a : BaseAgent.t X)
    (d : descriptor) :
  valid d →
  let copy := with_agentId d (id a) in
  (snd (registerTool d a) = Ret copy ∧
   tools (fst (registerTool d a)) = tools a ++ [copy] ∧
   resources (fst (registerTool d a)) = resources a ∧
   id (fst (registerTool d a)) = id a) ∧
  (snd (registerResource d a) = Ret copy ∧
   resources (fst (registerResource d a)) = resources a ++ [copy] ∧
   tools (fst (registerResource d a)) = tools a ∧
   id (fst (registerResource d a)) = id a) ∧
  (agentId copy = Some (id a) ∧ name copy = name d ∧
   description copy = description d ∧ inputSchema copy = inputSchema d ∧
   handler copy = handler d) ∧
  (tagged a → tagged (fst (registerTool d a)) ∧ tagged (fst (registerResource d a))) ∧
  (preserves_tagged cls →
   ∀ i x a', AgentClass.reachable cls (new i x) a' →
             Forall (λ d', agentId d' = Some (id a')) (tools a') ∧
             Forall (λ d', agentId d' = Some (id a')) (resources a')).
Proof.
  intros Hv copy. subst copy.
  split; [| split; [| split; [| split]]].
  - rewrite (registerTool_valid a d Hv). by simpl.
  - rewrite (registerResource_valid a d Hv). by simpl.
  - by simpl.
  - intros Ha. split; [by apply tagged_registerTool | by apply tagged_registerResource].
  - intros Hcls i x a' Hreach.
    apply (reachable_tagged cls (new i x) a' Hcls (tagged_new i x) Hreach).
Qed.

End OwnershipFacts.

Lemma C10_register_tags_copy_witness :
  let a := BaseAgent.new "twitter" tt in
  let a' := fst (AgentClass.run AgentClass.Twitter AgentClass.Start
              (fst (AgentClass.run AgentClass.Twitter AgentClass.Stop
                 (fst (AgentClass.run AgentClass.Twitter AgentClass.Start a))))) in
  snd (BaseAgent.registerTool TwitterAgent.search_tweets_tool a)
    = Ret (BaseAgent.with_agentId TwitterAgent.search_tweets_tool (BaseAgent.id a)) ∧
  Forall (λ d, agentId d = Some (BaseAgent.id a')) (BaseAgent.tools a').
Proof.
  intros a a'.
  destruct (C10_register_tags_copy AgentClass.Twitter a TwitterAgent.search_tweets_tool)
    as ((Hret & _) & _ & _ & _ & Hreach); [repeat split |].
  split; [exact Hret |].
  destruct (Hreach Twitter_preserves_tagged "twitter" tt a') as [Htools _];
    [| exact Htools].
  subst a'. do 3 apply AgentClass.reach_call. apply AgentClass.reach_here.
Defined.

(** ** Text analysis *)

Section TextFacts.
Import TextAnalysis.

Lemma possibleTopics_head :
  ∃ rest, possibleTopics = ("technologie", technologie_keywords) :: rest.
Proof. eexists. reflexivity. Qed.

Lemma startsWith_map (f : N → N) p : ∀ s,
  startsWith s p = true → startsWith (map f s) (map f p) = true.
Proof.
  induction p as [| x p IH]; intros [| y s]; simpl; try done.
  intros [Hxy Hrest]%andb_prop. apply N.eqb_eq in Hxy as ->.
  rewrite N.eqb_refl. simpl. by apply IH.
Qed.

Lemma includes_map (f : N → N) p s :
  includes s p = true → includes (map f s) (map f p) = true.
Proof.
  induction s as [| y s IH].
  - simpl. rewrite !orb_false_r. apply (startsWith_map f p []).
  - cbn [includes map]. intros [H | H]%orb_prop.
    + apply (startsWith_map f) in H. cbn [map] in H. rewrite H. reflexivity.
    + rewrite (IH H). apply orb_true_r.
Qed.

Lemma technologie_keywords_lower :
  Forall (λ kw, toLowerCase kw = kw) technologie_keywords.
Proof. repeat constructor. Qed.

(** A keyword found in the text is found in the lower-cased text. *)
Lemma includes_lowered text kw :
  kw ∈ technologie_keywords → includes text kw = true →
  includes (toLowerCase text) kw = true.
Proof.
  intros Hkw Hin.
  pose proof (proj1 (Forall_forall _ _) technologie_keywords_lower kw Hkw) as Hfix.
  simpl in Hfix. rewrite <- Hfix. by apply includes_map.
Qed.

Lemma elem_of_insert_topic x y l : x ∈ y :: l → x ∈ insert_topic y l.
Proof.
  induction l as [| z l IH]; simpl; [done |].
  destruct (Qgtb _ _); [| done].
  intros [-> | [-> | H]%elem_of_cons]%elem_of_cons.
  - right. apply IH. by left.
  - by left.
  - right. apply IH. by right.
Qed.

Lemma elem_of_sort_topics x l : x ∈ l → x ∈ sort_topics l.
Proof.
  induction l as [| y l IH]; simpl; [done |].
  intros [-> | H]%elem_of_cons; apply elem_of_insert_topic; [by left |].
  right. by apply IH.
Qed.

Lemma filter_nonempty {A} (f : A → bool) x l :
  x ∈ l → f x = true → (0 <? length (List.filter f l))%nat = true.
Proof.
  induction l as [| y l IH]; [by inversion 1 |].
  intros [-> | H]%elem_of_cons Hx; simpl.
  - by rewrite Hx.
  - destruct (f y); [done | by apply IH].
Qed.

(** The first candidate is reported as soon as one of its keywords
    occurs in the lower-cased text. *)
Lemma match_topics_first lowerText topic keywords rest kw :
  kw ∈ keywords → includes lowerText kw = true →
  ∃ t, t ∈ match_topics lowerText ((topic, keywords) :: rest) ∧ Topic.name t = topic.
Proof.
  intros Hkw Hin. cbn [match_topics]. cbv zeta.
  rewrite (filter_nonempty (fun k => includes lowerText k) kw keywords Hkw Hin).
  eexists. split; [by left | reflexivity].
Qed.

Lemma extract_topics_technologie text kw :
  kw ∈ technologie_keywords → includes (toLowerCase text) kw = true →
  ∃ t, t ∈ extract_topics text ∧ Topic.name t = "technologie".
Proof.
  intros Hkw Hin. unfold extract_topics.
  destruct possibleTopics_head as [rest ->].
  destruct (match_topics_first (toLowerCase text) "technologie" technologie_keywords
              rest kw Hkw Hin) as (t & Ht & Hname).
  exists t. split; [by apply elem_of_sort_topics | done].
Qed.

(** C9: with the options left to their defaults, [analyzeText] on
    ["Je suis très content de ce produit"] returns a content whose
    sentiment label is ["positive"], one positive word and no negative
    word having been counted; and for every text in which a keyword of
    the topic "technologie" occurs, as written or after lower-casing, it
    returns a content whose [topics] is an array holding an entry named
    ["technologie"].  ["produit technologique"] is such a text. *)
Theorem C9_analyze_text (e : env) (store : gmap string stored) :
  (∃ r, snd (analyzeText e (with_defaults sample_text) store) = Ret (Content r) ∧
        count_words (split_whitespace (toLowerCase sample_text)) = (1, 0)%nat ∧
        Sentiment.label <$> sentiment r = Some "positive") ∧
  (∀ text kw,
     kw ∈ technologie_keywords →
     includes text kw = true ∨ includes (toLowerCase text) kw = true →
     ∃ r ts t,
       snd (analyzeText e (with_defaults text) store) = Ret (Content r) ∧
       topics r = Some ts ∧ t ∈ ts ∧ Topic.name t = "technologie") ∧
  (lit "tech" ∈ technologie_keywords ∧
   includes (lit "produit technologique") (lit "tech") = true).
Proof.
  split; [| split].
  - eexists. split; [reflexivity |]. split; [by vm_compute |]. by vm_compute.
  - intros text kw Hkw Hin.
    assert (Hlow : includes (toLowerCase text) kw = true)
      by (destruct Hin; [by apply includes_lowered | done]).
    destruct (extract_topics_technologie text kw Hkw Hlow) as (t & Ht & Hname).
    eexists _, (extract_topics text), t. split; [reflexivity |].
    split; [reflexivity | by split].
  - split; [left | by vm_compute].
Qed.

Lemma C9_analyze_text_witness :
  ∃ r ts t,
    snd (analyzeText {| env_analysisId := "text_0_abc"; env_timestamp := "t0" |}
           (with_defaults (lit "Je suis très content de ce nouveau produit technologique !"))
           ∅) = Ret (Content r) ∧
    topics r = Some ts ∧ t ∈ ts ∧ Topic.name t = "technologie".
Proof.
  destruct (C9_analyze_text {| env_analysisId := "text_0_abc"; env_timestamp := "t0" |} ∅)
    as (_ & Htopics & _).
  apply (Htopics _ (lit "tech")); [left | left; by vm_compute].
Defined.

End TextFacts.

(** * Further properties *)

(** ** Capability registry *)

Section RegistryMoreFacts.
Import CapabilityRegistry.

Lemma complete_map_insert m d n :
  complete_map m → registrable d n → complete_map (<[n := d]> m).
Proof.
  intros Hm (Hname & Hn & Hh) k d' Hk.
  destruct (decide (n = k)) as [-> | Hne].
  - rewrite lookup_insert_eq in Hk. by injection Hk as <-.
  - rewrite lookup_insert_ne in Hk by done. by apply Hm.
Qed.

Lemma complete_map_delete m n : complete_map m → complete_map (delete n m).
Proof. intros Hm k d [_ Hk]%lookup_delete_Some. by apply Hm. Qed.

Lemma registry_complete_registerTool r d :
  registry_complete r → registry_complete (fst (registerTool d r)).
Proof.
  intros [Ht Hr].
  destruct (negb (truthy_str (name d)) || negb (truthy (handler d))) eqn:E.
  - rewrite registerTool_rejected by done. by split.
  - destruct (checks_registrable d E) as [n Hd]. rewrite (registerTool_ok _ _ n Hd).
    split; simpl; [by apply complete_map_insert | done].
Qed.

Lemma registry_complete_registerResource r d :
  registry_complete r → registry_complete (fst (registerResource d r)).
Proof.
  intros [Ht Hr].
  destruct (negb (truthy_str (name d)) || negb (truthy (handler d))) eqn:E.
  - rewrite registerResource_rejected by done. by split.
  - destruct (checks_registrable d E) as [n Hd]. rewrite (registerResource_ok _ _ n Hd).
    split; simpl; [done | by apply complete_map_insert].
Qed.

Lemma registry_complete_unregisterTool r o :
  registry_complete r → registry_complete (fst (unregisterTool o r)).
Proof.
  intros [Ht Hr]. destruct (unregisterTool_tools o r) as (_ & Hres & Htools).
  split; rewrite ?Hres, ?Htools; [| done].
  destruct o; [by apply complete_map_delete | done].
Qed.

Lemma registry_complete_unregisterResource r o :
  registry_complete r → registry_complete (fst (unregisterResource o r)).
Proof.
  intros [Ht Hr]. destruct (unregisterResource_resources o r) as (_ & Htools & Hres).
  split; rewrite ?Hres, ?Htools; [done |].
  destruct o; [by apply complete_map_delete | done].
Qed.

(** A tool call and a resource read change the log at most. *)
Lemma call_maps r n p :
  tools (fst (call n p r)) = tools r ∧ resources (fst (call n p r)) = resources r.
Proof.
  destruct (tools r !! n) as [tool |] eqn:E.
  - rewrite (call_found _ _ _ _ E).
    destruct (call_handler _ _ _) as [v | [m |]]; by split.
  - unfold call, bind, gets. rewrite E. by split.
Qed.

Lemma get_maps r n p :
  tools (fst (get n p r)) = tools r ∧ resources (fst (get n p r)) = resources r.
Proof.
  destruct (resources r !! n) as [resource |] eqn:E.
  - rewrite (get_found _ _ _ _ E).
    destruct (call_handler _ _ _) as [v | [m |]]; by split.
  - unfold get, bind, gets. rewrite E. by split.
Qed.

(** X1: in every registry reached from a new one by registrations,
    removals, tool calls and resource reads, successful or not, each tool
    and each resource is stored under its own name, that name is not
    empty, and the entry has a handler: a descriptor that lacks a name or
    a handler is never stored. *)
Theorem registry_never_stores_incomplete (r : t) :
  RegistryCalls.reachable r →
  registry_complete r ∧
  (∀ d, d ∈ listTools r ∨ d ∈ listResources r →
        truthy_str (name d) = true ∧ is_Some (handler d)).
Proof.
  intros Hreach.
  assert (Hc : registry_complete r).
  { induction Hreach as [| r c _ IH].
    - split; intros k d H; simpl in H; by rewrite lookup_empty in H.
    - destruct c as [d | n | d | n | n p | n p]; simpl.
      + by apply registry_complete_registerTool.
      + by apply registry_complete_unregisterTool.
      + by apply registry_complete_registerResource.
      + by apply registry_complete_unregisterResource.
      + unfold bind. destruct (call_maps r n p) as [Ht Hr].
        destruct (call n p r) as [r' [v | e]]; simpl in *;
          unfold registry_complete; by rewrite Ht, Hr.
      + unfold bind. destruct (get_maps r n p) as [Ht Hr].
        destruct (get n p r) as [r' [v | e]]; simpl in *;
          unfold registry_complete; by rewrite Ht, Hr. }
  split; [done |]. destruct Hc as [Ht Hr].
  assert (Hmap : ∀ m, complete_map m → ∀ d, d ∈ (map_to_list m).*2 →
                 truthy_str (name d) = true ∧ is_Some (handler d)).
  { intros m Hm d [[k d'] [-> Hin]]%list_elem_of_fmap. simpl.
    apply elem_of_map_to_list, Hm in Hin as (-> & Hk & Hh). split; [| done].
    simpl. by destruct (String.eqb_spec k ""). }
  intros d [Hd | Hd]; [by apply (Hmap (tools r)) | by apply (Hmap (resources r))].
Qed.

Lemma registry_never_stores_incomplete_witness :
  let r := fst (RegistryCalls.run (RegistryCalls.RegisterTool
                  {| name := Some ""; description := None; inputSchema := None;
                     handler := Some (fun v => Ret v); agentId := None |})
             (fst (RegistryCalls.run (RegistryCalls.RegisterTool echo_tool) new))) in
  registry_complete r.
Proof.
  intros r.
  apply (registry_never_stores_incomplete r).
  subst r. do 2 apply RegistryCalls.reach_op. apply RegistryCalls.reach_new.
Defined.

(** X2: once a descriptor with a name and a handler is registered as a
    tool, it is listed, and calling its name settles as its handler does:
    with the handler's value, or with the error result built from the
    Error the handler throws.  Registered as a resource, reading its name
    settles with the handler's value or throws what the handler throws.
    When the handler throws [null] or [undefined], the call and the read
    throw the engine's TypeError for reading [message] on that value. *)
Theorem register_then_invoke (r : t) (d : descriptor) (n : string) (f : handler_fn)
    (p : value) :
  registrable d n → handler d = Some f →
  (d ∈ listTools (fst (registerTool d r)) ∧
   snd (call n p (fst (registerTool d r))) = tool_settlement (f p)) ∧
  (d ∈ listResources (fst (registerResource d r)) ∧
   snd (get n p (fst (registerResource d r))) = resource_settlement (f p)).
Proof.
  intros Hd Hf. rewrite (registerTool_ok r d n Hd), (registerResource_ok r d n Hd).
  cbn [fst]. split; split.
  - unfold listTools. cbn [tools]. apply list_elem_of_fmap. exists (n, d).
    split; [done |]. apply elem_of_map_to_list, lookup_insert_eq.
  - rewrite (call_found _ n d) by apply lookup_insert_eq. rewrite Hf. simpl.
    destruct (f p) as [v | [m |]]; reflexivity.
  - unfold listResources. cbn [resources]. apply list_elem_of_fmap. exists (n, d).
    split; [done |]. apply elem_of_map_to_list, lookup_insert_eq.
  - rewrite (get_found _ n d) by apply lookup_insert_eq. rewrite Hf. simpl.
    destruct (f p) as [v | [m |]]; reflexivity.
Qed.

Lemma register_then_invoke_witness :
  snd (call "echo" (VStr "hi") (fst (registerTool echo_tool failing_registry)))
    = Ret (VStr "hi") ∧
  snd (get "fail" VNull (fst (registerResource failing new))) = Throw (JsError "boom") ∧
  snd (call "nil" VNull
         (fst (registerTool
                 {| name := Some "nil"; description := None; inputSchema := None;
                    handler := Some (fun _ => Throw (JsNullish Null)); agentId := None |}
                 new)))
    = Throw (JsError "Cannot read properties of null (reading 'message')").
Proof.
  split; [| split].
  - apply (register_then_invoke failing_registry echo_tool "echo" (fun params => Ret params)
             (VStr "hi")); [repeat split; [discriminate | eexists; reflexivity] | reflexivity].
  - apply (register_then_invoke new failing "fail" (fun _ => Throw (JsError "boom")) VNull);
      [repeat split; [discriminate | eexists; reflexivity] | reflexivity].
  - apply (register_then_invoke new
             {| name := Some "nil"; description := None; inputSchema := None;
                handler := Some (fun _ => Throw (JsNullish Null)); agentId := None |}
             "nil" (fun _ => Throw (JsNullish Null)) VNull);
      [repeat split; [discriminate | eexists; reflexivity] | reflexivity].
Defined.

(** X3: removing a name that is not registered changes nothing at all,
    not even the log; and registering a descriptor under a name that was
    free and then removing that name gives back the maps the registry had
    before. *)
Theorem unregister_is_inverse_and_idle (r : t) (d : descriptor) (n : string) :
  tools r !! n = None → resources r !! n = None →
  unregisterTool (Some n) r = (r, Ret tt) ∧
  unregisterResource (Some n) r = (r, Ret tt) ∧
  (registrable d n →
   tools (fst (unregisterTool (Some n) (fst (registerTool d r)))) = tools r ∧
   resources (fst (unregisterTool (Some n) (fst (registerTool d r)))) = resources r ∧
   resources (fst (unregisterResource (Some n) (fst (registerResource d r)))) = resources r ∧
   tools (fst (unregisterResource (Some n) (fst (registerResource d r)))) = tools r).
Proof.
  intros Ht Hr. split; [| split].
  - unfold unregisterTool, bind, gets. rewrite Ht.
    rewrite bool_decide_eq_false_2; [reflexivity | by intros [? ?]].
  - unfold unregisterResource, bind, gets. rewrite Hr.
    rewrite bool_decide_eq_false_2; [reflexivity | by intros [? ?]].
  - intros Hd.
    destruct (unregisterTool_tools (Some n) (fst (registerTool d r))) as (_ & H1 & H2).
    destruct (unregisterResource_resources (Some n) (fst (registerResource d r)))
      as (_ & H3 & H4).
    rewrite H1, H2, H3, H4.
    rewrite (registerTool_ok r d n Hd), (registerResource_ok r d n Hd). simpl.
    rewrite !delete_insert_eq, !delete_id by done. done.
Qed.

Lemma unregister_is_inverse_and_idle_witness :
  unregisterTool (Some "echo") new = (new, Ret tt) ∧
  tools (fst (unregisterTool (Some "echo") (fst (registerTool echo_tool new)))) = ∅.
Proof.
  destruct (unregister_is_inverse_and_idle new echo_tool "echo") as (Hidle & _ & Hinv);
    [reflexivity | reflexivity |].
  split; [exact Hidle |].
  destruct Hinv as (Htools & _); [repeat split; [discriminate | eexists; reflexivity] |].
  exact Htools.
Defined.

(** X4: tools and resources are two name spaces.  Registering a resource
    under a name leaves the tools map as it was, so a tool call by that
    name still fails as not found when no tool bears it, and a tool of
    that name stays in place; likewise for a tool and the resources
    map. *)
Theorem tools_and_resources_are_separate (r : t) (d : descriptor) (n : string) (p : value) :
  registrable d n →
  let rr := fst (registerResource d r) in
  let rt := fst (registerTool d r) in
  tools rr = tools r ∧ resources rt = resources r ∧
  (tools r !! n = None →
     snd (call n p rr) = Throw (JsError ("Outil '" +:+ n +:+ "' non trouvé"))) ∧
  (resources r !! n = None →
     snd (get n p rt) = Throw (JsError ("Ressource '" +:+ n +:+ "' non trouvée"))).
Proof.
  intros Hd rr rt. subst rr rt.
  rewrite (registerTool_ok r d n Hd), (registerResource_ok r d n Hd). cbn [fst].
  split; [done |]. split; [done |]. split; intros Hnone.
  - unfold call, bind, gets. cbn [tools]. rewrite Hnone. reflexivity.
  - unfold get, bind, gets. cbn [resources]. rewrite Hnone. reflexivity.
Qed.

Lemma tools_and_resources_are_separate_witness :
  snd (call "fail" VNull (fst (registerResource failing new)))
    = Throw (JsError "Outil 'fail' non trouvé").
Proof.
  destruct (tools_and_resources_are_separate new failing "fail" VNull)
    as (_ & _ & Hcall & _); [repeat split; [discriminate | eexists; reflexivity] |].
  apply Hcall. reflexivity.
Defined.

End RegistryMoreFacts.

(** ** Message router *)

Section RouterMoreFacts.
Import MessageRouter.

Lemma routeMessage_settles r msg :
  snd (routeMessage msg r) =
    match routes r !! method msg with
    | Some h => route_settlement msg (h msg)
    | None => Ret (error_envelope (id msg) METHOD_NOT_FOUND
                     ("Méthode '" +:+ method msg +:+ "' non trouvée"))
    end
  ∧ routes (fst (routeMessage msg r)) = routes r.
Proof.
  unfold routeMessage, bind, gets, try_catch, lift. cbv zeta.
  destruct (routes r !! method msg) as [h |]; [| by split].
  destruct (h msg) as [v | [m |]]; by split.
Qed.

(** X5: after [registerRoute(method, handler)], a message for that method
    settles as the new handler does, whatever handler was registered for
    it before: with the handler's value, with the internal-error envelope
    built from the Error it throws, or, when it throws [null] or
    [undefined], by throwing the engine's TypeError for reading [message]
    on that value.  Messages for every other method settle as they did
    before; and routing a message never changes the routes. *)
Theorem registerRoute_then_route (r : t) (m : string) (h : route_handler) (msg : message) :
  let r' := fst (registerRoute m h r) in
  snd (registerRoute m h r) = Ret tt ∧
  (method msg = m → snd (routeMessage msg r') = route_settlement msg (h msg)) ∧
  (method msg ≠ m → snd (routeMessage msg r') = snd (routeMessage msg r)) ∧
  routes (fst (routeMessage msg r')) = routes r'.
Proof.
  intros r'. split; [reflexivity |].
  destruct (routeMessage_settles r' msg) as [Hs' Hr'].
  destruct (routeMessage_settles r msg) as [Hs _].
  assert (Hroutes : routes r' = <[m := h]> (routes r)) by reflexivity.
  split; [| split; [| done]].
  - intros Hm. rewrite Hs', Hroutes, Hm, lookup_insert_eq. reflexivity.
  - intros Hm. rewrite Hs', Hs, Hroutes, lookup_insert_ne by done. reflexivity.
Qed.

Lemma registerRoute_then_route_witness :
  snd (routeMessage ping (fst (registerRoute "ping" down ping_router)))
    = Ret (error_envelope (VNum 7) (-32000) "Erreur interne: down") ∧
  snd (routeMessage ping
         (fst (registerRoute "ping" (fun _ => Throw (JsNullish Null)) ping_router)))
    = Throw (JsError "Cannot read properties of null (reading 'message')") ∧
  snd (routeMessage ping
         (fst (registerRoute "ping" (fun _ => Throw (JsNullish Undefined)) ping_router)))
    = Throw (JsError "Cannot read properties of undefined (reading 'message')").
Proof.
  split; [| split].
  - destruct (registerRoute_then_route ping_router "ping" down ping) as (_ & H & _).
    apply H. reflexivity.
  - destruct (registerRoute_then_route ping_router "ping"
                (fun _ => Throw (JsNullish Null)) ping) as (_ & H & _).
    apply H. reflexivity.
  - destruct (registerRoute_then_route ping_router "ping"
                (fun _ => Throw (JsNullish Undefined)) ping) as (_ & H & _).
    apply H. reflexivity.
Defined.

End RouterMoreFacts.

(** ** Middleware *)

Section MiddlewareMoreFacts.
Import McpMiddleware.

Lemma forEach_app {S A} (l1 l2 : list A) (body : A → M S unit) s :
  forEach (l1 ++ l2) body s = bind (forEach l1 body) (fun _ => forEach l2 body) s.
Proof.
  revert s. induction l1 as [| x l1 IH]; intros s; simpl; [reflexivity |].
  unfold bind in *. destruct (body x s) as [s' [[] | e]]; [| reflexivity].
  apply IH.
Qed.

Lemma insert_all_other ds : ∀ m k,
  all_registrable ds → (∀ d, d ∈ ds → name d ≠ Some k) →
  insert_all ds m !! k = m !! k.
Proof.
  unfold insert_all. induction ds as [| d ds IH]; intros m k Hall Hk; simpl; [done |].
  inversion Hall as [| ? ? [n Hd] Hall']; subst.
  rewrite IH by (try done; intros d' Hd'; apply Hk; by right).
  destruct Hd as (Hname & _). rewrite Hname. simpl.
  apply lookup_insert_ne. intros <-. by apply (Hk d); [left |].
Qed.

Lemma insert_all_named ds : ∀ m d n,
  all_registrable ds → d ∈ ds → name d = Some n →
  ∃ d', d' ∈ ds ∧ name d' = Some n ∧ insert_all ds m !! n = Some d'.
Proof.
  unfold insert_all. induction ds as [| d0 ds IH]; intros m d n Hall Hin Hname.
  - inversion Hin.
  - inversion Hall as [| ? ? [n0 Hd0] Hall']; subst. simpl.
    destruct (decide (Some n ∈ name <$> ds)) as [Hlater | Hlater].
    + apply list_elem_of_fmap in Hlater as (d1 & Hn1 & Hd1).
      destruct (IH (<[key_of (name d0) := d0]> m) d1 n Hall' Hd1 (eq_sym Hn1))
        as (d' & Hd' & Hn' & Hl).
      exists d'. split; [by right | done].
    + assert (Hd : d = d0).
      { inversion Hin; subst; [done |]. exfalso. apply Hlater.
        apply list_elem_of_fmap. eauto. }
      subst d0. exists d. split; [by left |]. split; [done |].
      change (insert_all ds (<[key_of (name d) := d]> m) !! n = Some d).
      rewrite insert_all_other; [| done |].
      * rewrite Hname. simpl. apply lookup_insert_eq.
      * intros d' Hd' Hn'. apply Hlater. apply list_elem_of_fmap. eauto.
Qed.

Lemma delete_names_other ds : ∀ m k,
  (∀ d, d ∈ ds → name d ≠ Some k) → delete_names ds m !! k = m !! k.
Proof.
  unfold delete_names. induction ds as [| d ds IH]; intros m k Hk; simpl; [done |].
  rewrite IH by (intros d' Hd'; apply Hk; by right).
  destruct (name d) as [n |] eqn:E; [| done].
  apply lookup_delete_ne. intros <-. by apply (Hk d); [left |].
Qed.

Lemma register_tools_loop ds : ∀ m,
  all_registrable ds →
  ∃ lg, forEach ds (fun tool => on_registry (CapabilityRegistry.registerTool tool)) m
        = ({| agents := agents m;
              capabilityRegistry :=
                {| CapabilityRegistry.tools :=
                     insert_all ds (CapabilityRegistry.tools (capabilityRegistry m));
                   CapabilityRegistry.resources :=
                     CapabilityRegistry.resources (capabilityRegistry m);
                   CapabilityRegistry.log := lg |};
              log := log m |}, Ret tt).
Proof.
  induction ds as [| d ds IH]; intros m Hall.
  - exists (CapabilityRegistry.log (capabilityRegistry m)).
    destruct m as [ag [tm rm lg] l]. reflexivity.
  - inversion Hall as [| ? ? [n Hd] Hall']; subst.
    simpl. unfold bind at 1. unfold on_registry at 1.
    rewrite (registerTool_ok _ d n Hd).
    match goal with |- context [forEach ds _ ?m'] => destruct (IH m' Hall') as [lg Hlg] end.
    exists lg. rewrite Hlg. simpl. unfold insert_all. simpl.
    destruct Hd as (-> & _). reflexivity.
Qed.

Lemma register_resources_loop ds : ∀ m,
  all_registrable ds →
  ∃ lg, forEach ds (fun resource =>
                      on_registry (CapabilityRegistry.registerResource resource)) m
        = ({| agents := agents m;
              capabilityRegistry :=
                {| CapabilityRegistry.tools :=
                     CapabilityRegistry.tools (capabilityRegistry m);
                   CapabilityRegistry.resources :=
                     insert_all ds (CapabilityRegistry.resources (capabilityRegistry m));
                   CapabilityRegistry.log := lg |};
              log := log m |}, Ret tt).
Proof.
  induction ds as [| d ds IH]; intros m Hall.
  - exists (CapabilityRegistry.log (capabilityRegistry m)).
    destruct m as [ag [tm rm lg] l]. reflexivity.
  - inversion Hall as [| ? ? [n Hd] Hall']; subst.
    simpl. unfold bind at 1. unfold on_registry at 1.
    rewrite (registerResource_ok _ d n Hd).
    match goal with |- context [forEach ds _ ?m'] => destruct (IH m' Hall') as [lg Hlg] end.
    exists lg. rewrite Hlg. simpl. unfold insert_all. simpl.
    destruct Hd as (-> & _). reflexivity.
Qed.

(** What [registerAgent] leaves behind when all the agent's descriptors
    pass the registry's check. *)
Lemma registerAgent_accepted m id agent :
  all_registrable (owned_tools agent) → all_registrable (owned_resources agent) →
  ∃ lg lm, registerAgent id agent m
        = ({| agents := <[id := agent]> (agents m);
              capabilityRegistry :=
                {| CapabilityRegistry.tools :=
                     insert_all (owned_tools agent)
                       (CapabilityRegistry.tools (capabilityRegistry m));
                   CapabilityRegistry.resources :=
                     insert_all (owned_resources agent)
                       (CapabilityRegistry.resources (capabilityRegistry m));
                   CapabilityRegistry.log := lg |};
              log := lm |}, Ret tt).
Proof.
  intros Ht Hr. unfold registerAgent. unfold bind at 1. unfold gets.
  set (m0 := (if bool_decide (is_Some (agents m !! id))
              then logger Warn ("Agent avec l'ID " +:+ id +:+ " déjà enregistré, sera remplacé")
              else ret ()) m).
  assert (Hm0 : ∃ l0, m0 = ({| agents := agents m; capabilityRegistry := capabilityRegistry m;
                               log := l0 |}, Ret tt)).
  { subst m0. case_bool_decide; [eexists; reflexivity |].
    exists (log m). destruct m; reflexivity. }
  destruct Hm0 as [l0 Hm0]. unfold bind at 1. fold m0. rewrite Hm0.
  unfold bind at 1. unfold set_agents at 1, modify at 1. cbn [agents capabilityRegistry log].
  unfold owned_tools, owned_resources in *.
  destruct agent as [[ts |] [rs |]]; cbn [getTools getResources default] in *.
  - unfold bind at 1.
    match goal with |- context [forEach ts _ ?m'] =>
      destruct (register_tools_loop ts m' Ht) as [lg1 ->] end.
    unfold bind at 1.
    match goal with |- context [forEach rs _ ?m'] =>
      destruct (register_resources_loop rs m' Hr) as [lg2 ->] end.
    eexists _, _. reflexivity.
  - unfold bind at 1.
    match goal with |- context [forEach ts _ ?m'] =>
      destruct (register_tools_loop ts m' Ht) as [lg1 ->] end.
    eexists _, _. reflexivity.
  - unfold bind at 1. unfold ret at 1. unfold bind at 1.
    match goal with |- context [forEach rs _ ?m'] =>
      destruct (register_resources_loop rs m' Hr) as [lg2 ->] end.
    eexists _, _. reflexivity.
  - exists (CapabilityRegistry.log (capabilityRegistry m)).
    exists (l0 ++ [createSubLogger "MCP-Middleware" Info
                     ("Agent '" +:+ id +:+ "' enregistré avec succès")]).
    destruct (capabilityRegistry m). reflexivity.
Qed.

Lemma valid_registrable d : valid d → ∃ n, registrable d n.
Proof.
  intros (Hn & _ & Hh). destruct d as [[n |] ? ? [h |] ?]; simpl in *; try done.
  exists n. split; [done |]. split; [| by eexists].
  intros ->. done.
Qed.

Lemma listed_valid_registrable {X} (a : BaseAgent.t X) :
  listed_valid a →
  all_registrable (owned_tools (of_agent a)) ∧
  all_registrable (owned_resources (of_agent a)).
Proof.
  intros [Ht Hr]. split; (eapply Forall_impl; [eassumption |]);
    intros d Hd; by apply valid_registrable.
Qed.

(** X7: when the agent's tool list holds a descriptor the registry
    rejects, [registerAgent] throws the registry's Error, and yet the
    agent is already stored under the id and the tools listed before the
    rejected one are registered; no resource of the agent is registered
    and no success is logged. *)
Theorem registerAgent_stops_at_rejected_tool (m : t) (id : string) (agent : agent_obj)
    (before after : list descriptor) (bad : descriptor) :
  getTools agent = Some (before ++ bad :: after) →
  all_registrable before →
  negb (truthy_str (name bad)) || negb (truthy (handler bad)) = true →
  let m' := fst (registerAgent id agent m) in
  snd (registerAgent id agent m)
    = Throw (JsError "Un outil doit avoir un nom et un gestionnaire") ∧
  agents m' = <[id := agent]> (agents m) ∧
  CapabilityRegistry.tools (capabilityRegistry m')
    = insert_all before (CapabilityRegistry.tools (capabilityRegistry m)) ∧
  CapabilityRegistry.resources (capabilityRegistry m')
    = CapabilityRegistry.resources (capabilityRegistry m) ∧
  (∀ d n, d ∈ before → name d = Some n →
          is_Some (CapabilityRegistry.tools (capabilityRegistry m') !! n)) ∧
  log m' = log m ++
    (if bool_decide (is_Some (agents m !! id))
     then [createSubLogger "MCP-Middleware" Warn
             ("Agent avec l'ID " +:+ id +:+ " déjà enregistré, sera remplacé")]
     else []) ∧
  createSubLogger "MCP-Middleware" Info ("Agent '" +:+ id +:+ "' enregistré avec succès")
    ∉ drop (length (log m)) (log m').
Proof.
  intros Htools Hbefore Hbad m'.
  assert (Hrun : ∃ lg, registerAgent id agent m
            = ({| agents := <[id := agent]> (agents m);
                  capabilityRegistry :=
                    {| CapabilityRegistry.tools :=
                         insert_all before (CapabilityRegistry.tools (capabilityRegistry m));
                       CapabilityRegistry.resources :=
                         CapabilityRegistry.resources (capabilityRegistry m);
                       CapabilityRegistry.log := lg |};
                  log := log m ++
                    (if bool_decide (is_Some (agents m !! id))
                     then [createSubLogger "MCP-Middleware" Warn
                             ("Agent avec l'ID " +:+ id +:+ " déjà enregistré, sera remplacé")]
                     else []) |},
               Throw (JsError "Un outil doit avoir un nom et un gestionnaire"))).
  { unfold registerAgent. unfold bind at 1. unfold gets.
    set (m0 := (if bool_decide (is_Some (agents m !! id))
                then logger Warn ("Agent avec l'ID " +:+ id +:+ " déjà enregistré, sera remplacé")
                else ret ()) m).
    assert (Hm0 : m0 = ({| agents := agents m;
                           capabilityRegistry := capabilityRegistry m;
                           log := log m ++
                             (if bool_decide (is_Some (agents m !! id))
                              then [createSubLogger "MCP-Middleware" Warn
                                      ("Agent avec l'ID " +:+ id
                                       +:+ " déjà enregistré, sera remplacé")]
                              else []) |}, Ret tt)).
    { subst m0. case_bool_decide; [reflexivity |].
      rewrite app_nil_r. destruct m; reflexivity. }
    unfold bind at 1. fold m0. rewrite Hm0.
    unfold bind at 1. unfold set_agents at 1, modify at 1.
    cbn [agents capabilityRegistry log]. rewrite Htools.
    unfold bind at 1. rewrite forEach_app. unfold bind at 1.
    match goal with |- context [forEach before _ ?m'] =>
      destruct (register_tools_loop before m' Hbefore) as [lg1 ->] end.
    cbn [forEach]. unfold bind at 1. unfold on_registry at 1.
    rewrite registerTool_rejected by done. cbn.
    eexists. reflexivity. }
  destruct Hrun as (lg & Hrun). subst m'. rewrite Hrun.
  cbn [fst snd agents capabilityRegistry log CapabilityRegistry.tools
       CapabilityRegistry.resources].
  split; [done |]. split; [done |]. split; [done |]. split; [done |].
  split; [| split; [done |]].
  - intros d n Hd Hn.
    destruct (insert_all_named before (CapabilityRegistry.tools (capabilityRegistry m))
                d n Hbefore Hd Hn) as (d' & _ & _ & ->). by eexists.
  - rewrite drop_app_length. case_bool_decide.
    + intros Heq%list_elem_of_singleton. unfold createSubLogger in Heq. discriminate Heq.
    + apply not_elem_of_nil.
Qed.

Lemma registerAgent_stops_at_rejected_tool_witness :
  let agent := {| getTools := Some [echo_tool;
                                    {| name := Some "broken"; description := Some "no handler";
                                       inputSchema := None; handler := None;
                                       agentId := Some "a" |};
                                    tool_v2];
                  getResources := Some [failing] |} in
  snd (registerAgent "a" agent new)
    = Throw (JsError "Un outil doit avoir un nom et un gestionnaire") ∧
  agents (fst (registerAgent "a" agent new)) !! "a" = Some agent ∧
  is_Some (CapabilityRegistry.tools (capabilityRegistry (fst (registerAgent "a" agent new)))
           !! "echo").
Proof.
  intros agent.
  destruct (registerAgent_stops_at_rejected_tool new "a" agent [echo_tool] [tool_v2]
              {| name := Some "broken"; description := Some "no handler";
                 inputSchema := None; handler := None; agentId := Some "a" |})
    as (Hthrow & Hagents & _ & _ & Hbefore & _).
  - reflexivity.
  - repeat constructor. exists "echo". repeat split; [discriminate | eexists; reflexivity].
  - reflexivity.
  - split; [exact Hthrow |]. split.
    + rewrite Hagents. apply lookup_insert_eq.
    + apply (Hbefore echo_tool "echo"); [left | reflexivity].
Defined.

(** X8: registering an agent whose descriptors all pass the registry's
    check, under an id that was free and with names that were free, and
    then unregistering that id, gives back the agents map, the tools map
    and the resources map the middleware had before. *)
Theorem register_then_unregister_agent (m : t) (id : string) (agent : agent_obj) :
  all_registrable (owned_tools agent) → all_registrable (owned_resources agent) →
  agents m !! id = None →
  (∀ d n, d ∈ owned_tools agent → name d = Some n →
          CapabilityRegistry.tools (capabilityRegistry m) !! n = None) →
  (∀ d n, d ∈ owned_resources agent → name d = Some n →
          CapabilityRegistry.resources (capabilityRegistry m) !! n = None) →
  let m1 := fst (registerAgent id agent m) in
  let m2 := fst (unregisterAgent id m1) in
  snd (registerAgent id agent m) = Ret tt ∧ snd (unregisterAgent id m1) = Ret tt ∧
  agents m2 = agents m ∧
  CapabilityRegistry.tools (capabilityRegistry m2)
    = CapabilityRegistry.tools (capabilityRegistry m) ∧
  CapabilityRegistry.resources (capabilityRegistry m2)
    = CapabilityRegistry.resources (capabilityRegistry m).
Proof.
  intros Ht Hr Hid Hft Hfr m1 m2.
  destruct (registerAgent_accepted m id agent Ht Hr) as (lg & lm & Hreg).
  subst m2 m1. rewrite Hreg. cbn [fst snd].
  match goal with |- context [unregisterAgent id ?m'] =>
    destruct (unregisterAgent_found m' id agent) as [lg' Hun];
      [apply lookup_insert_eq |] end.
  rewrite Hun. cbn.
  assert (Hback : ∀ ds (tm : gmap string descriptor),
            all_registrable ds →
            (∀ d n, d ∈ ds → name d = Some n → tm !! n = None) →
            delete_names ds (insert_all ds tm) = tm).
  { intros ds tm Hall Hfresh. apply map_eq. intros k.
    destruct (decide (Some k ∈ name <$> ds)) as [Hin | Hout].
    - apply list_elem_of_fmap in Hin as (d & Hn & Hd).
      rewrite (delete_names_gone ds _ k d Hd (eq_sym Hn)).
      symmetry. by apply (Hfresh d).
    - assert (Hne : ∀ d, d ∈ ds → name d ≠ Some k).
      { intros d Hd Hn. apply Hout. apply list_elem_of_fmap. eauto. }
      rewrite delete_names_other by done. by rewrite insert_all_other. }
  repeat split.
  - rewrite delete_insert_eq. by apply delete_id.
  - by apply Hback.
  - by apply Hback.
Qed.

Lemma register_then_unregister_agent_witness :
  CapabilityRegistry.tools (capabilityRegistry
    (fst (unregisterAgent "twitter"
       (fst (registerAgent "twitter" (of_agent twitter_ready) new))))) = ∅.
Proof.
  destruct (register_then_unregister_agent new "twitter" (of_agent twitter_ready))
    as (_ & _ & _ & Htools & _).
  - repeat constructor. exists "search_tweets".
    repeat split; [discriminate | eexists; reflexivity].
  - constructor.
  - reflexivity.
  - intros d n _ _. reflexivity.
  - intros d n _ _. reflexivity.
  - exact Htools.
Defined.

(** X9: registering a second agent under an id that is taken replaces the
    agent without removing what the first one registered.  After the id
    is unregistered, no agent is stored under it, but a tool name of the
    first agent that the second does not bear is still registered, with a
    descriptor of the first agent. *)
Theorem replaced_agent_leaves_its_tools (m : t) (id : string) (first second : agent_obj)
    (d : descriptor) (n : string) :
  all_registrable (owned_tools first) → all_registrable (owned_resources first) →
  all_registrable (owned_tools second) → all_registrable (owned_resources second) →
  d ∈ owned_tools first → name d = Some n →
  (∀ d', d' ∈ owned_tools second → name d' ≠ Some n) →
  let m1 := fst (registerAgent id first m) in
  let m2 := fst (registerAgent id second m1) in
  let m3 := fst (unregisterAgent id m2) in
  agents m2 !! id = Some second ∧
  snd (unregisterAgent id m2) = Ret tt ∧
  agents m3 !! id = None ∧
  ∃ d', d' ∈ owned_tools first ∧ name d' = Some n ∧
        CapabilityRegistry.tools (capabilityRegistry m3) !! n = Some d'.
Proof.
  intros Ht1 Hr1 Ht2 Hr2 Hd Hn Hother m1 m2 m3.
  destruct (registerAgent_accepted m id first Ht1 Hr1) as (lg1 & lm1 & Hreg1).
  subst m3 m2 m1. rewrite Hreg1. cbn [fst].
  match goal with |- context [registerAgent id second ?m'] =>
    destruct (registerAgent_accepted m' id second Ht2 Hr2) as (lg2 & lm2 & Hreg2) end.
  rewrite Hreg2. cbn [fst agents capabilityRegistry CapabilityRegistry.tools].
  match goal with |- context [unregisterAgent id ?m'] =>
    destruct (unregisterAgent_found m' id second) as [lg3 Hun];
      [apply lookup_insert_eq |] end.
  rewrite Hun. cbn.
  split; [apply lookup_insert_eq |]. split; [done |].
  split; [apply lookup_delete_eq |].
  destruct (insert_all_named (owned_tools first)
              (CapabilityRegistry.tools (capabilityRegistry m)) d n Ht1 Hd Hn)
    as (d' & Hd' & Hn' & Hl).
  exists d'. split; [done |]. split; [done |].
  rewrite delete_names_other by done. by rewrite insert_all_other.
Qed.

Lemma replaced_agent_leaves_its_tools_witness :
  let first := {| getTools := Some [echo_tool]; getResources := None |} in
  let second := {| getTools := Some [failing]; getResources := None |} in
  let m3 := fst (unregisterAgent "a"
              (fst (registerAgent "a" second (fst (registerAgent "a" first new))))) in
  agents m3 !! "a" = None ∧
  ∃ d', CapabilityRegistry.tools (capabilityRegistry m3) !! "echo" = Some d'.
Proof.
  intros first second.
  destruct (replaced_agent_leaves_its_tools new "a" first second echo_tool "echo")
    as (_ & _ & Hgone & d' & _ & _ & Hleft).
  - repeat constructor. exists "echo". repeat split; [discriminate | eexists; reflexivity].
  - constructor.
  - repeat constructor. exists "fail". repeat split; [discriminate | eexists; reflexivity].
  - constructor.
  - left.
  - reflexivity.
  - intros d' [-> | H]%elem_of_cons; [discriminate | inversion H].
  - split; [exact Hgone |]. exists d'. exact Hleft.
Defined.

(** X10: tool names are shared by all agents.  When two agents registered
    under different ids both bear a tool name, unregistering the first
    removes that name from the registry although the second agent, whose
    descriptor was stored under it, is still registered. *)
Theorem unregister_removes_shared_name (m : t) (id1 id2 : string) (a1 a2 : agent_obj)
    (d1 d2 : descriptor) (n : string) :
  id1 ≠ id2 →
  all_registrable (owned_tools a1) → all_registrable (owned_resources a1) →
  all_registrable (owned_tools a2) → all_registrable (owned_resources a2) →
  d1 ∈ owned_tools a1 → name d1 = Some n →
  d2 ∈ owned_tools a2 → name d2 = Some n →
  let m1 := fst (registerAgent id1 a1 m) in
  let m2 := fst (registerAgent id2 a2 m1) in
  let m3 := fst (unregisterAgent id1 m2) in
  (∃ d', d' ∈ owned_tools a2 ∧
         CapabilityRegistry.tools (capabilityRegistry m2) !! n = Some d') ∧
  agents m3 !! id2 = Some a2 ∧
  CapabilityRegistry.tools (capabilityRegistry m3) !! n = None.
Proof.
  intros Hne Ht1 Hr1 Ht2 Hr2 Hd1 Hn1 Hd2 Hn2 m1 m2 m3.
  destruct (registerAgent_accepted m id1 a1 Ht1 Hr1) as (lg1 & lm1 & Hreg1).
  subst m3 m2 m1. rewrite Hreg1. cbn [fst].
  match goal with |- context [registerAgent id2 a2 ?m'] =>
    destruct (registerAgent_accepted m' id2 a2 Ht2 Hr2) as (lg2 & lm2 & Hreg2) end.
  rewrite Hreg2. cbn [fst agents capabilityRegistry CapabilityRegistry.tools].
  match goal with |- context [unregisterAgent id1 ?m'] =>
    destruct (unregisterAgent_found m' id1 a1) as [lg3 Hun];
      [cbn; rewrite lookup_insert_ne by done; apply lookup_insert_eq |] end.
  rewrite Hun. cbn.
  split; [| split].
  - destruct (insert_all_named (owned_tools a2)
                (insert_all (owned_tools a1)
                   (CapabilityRegistry.tools (capabilityRegistry m))) d2 n Ht2 Hd2 Hn2)
      as (d' & Hd' & _ & Hl). by exists d'.
  - rewrite lookup_delete_ne by done. apply lookup_insert_eq.
  - by apply (delete_names_gone _ _ _ d1).
Qed.

Lemma unregister_removes_shared_name_witness :
  let a1 := {| getTools := Some [tool_v1]; getResources := None |} in
  let a2 := {| getTools := Some [tool_v2]; getResources := None |} in
  let m3 := fst (unregisterAgent "a"
              (fst (registerAgent "b" a2 (fst (registerAgent "a" a1 new))))) in
  agents m3 !! "b" = Some a2 ∧
  CapabilityRegistry.tools (capabilityRegistry m3) !! "echo" = None.
Proof.
  intros a1 a2.
  destruct (unregister_removes_shared_name new "a" "b" a1 a2 tool_v1 tool_v2 "echo")
    as (_ & Hstill & Hgone).
  - discriminate.
  - repeat constructor. exists "echo". repeat split; [discriminate | eexists; reflexivity].
  - constructor.
  - repeat constructor. exists "echo". repeat split; [discriminate | eexists; reflexivity].
  - constructor.
  - left.
  - reflexivity.
  - left.
  - reflexivity.
  - split; [exact Hstill | exact Hgone].
Defined.

End MiddlewareMoreFacts.
(** ** Agents: what the lists hold *)

Section AgentMoreFacts.
Import BaseAgent.

Lemma valid_with_agentId d i : valid d → valid (with_agentId d i).
Proof. done. Qed.

Lemma listed_valid_registerTool {X} (a : BaseAgent.t X) d :
  listed_valid a → listed_valid (fst (registerTool d a)).
Proof.
  intros [Ht Hr]. destruct (registerTool_cases a d) as [Hv | ->]; [| by split].
  rewrite (registerTool_valid a d Hv). split; simpl; [| done].
  apply Forall_app. split; [done |]. by constructor.
Qed.

Lemma listed_valid_registerResource {X} (a : BaseAgent.t X) d :
  listed_valid a → listed_valid (fst (registerResource d a)).
Proof.
  intros [Ht Hr]. destruct (registerResource_cases a d) as [Hv | ->]; [| by split].
  rewrite (registerResource_valid a d Hv). split; simpl; [done |].
  apply Forall_app. split; [done |]. by constructor.
Qed.

Lemma listed_valid_start {X} init (a : BaseAgent.t X) :
  (∀ a', listed_valid a' → listed_valid (fst (init a'))) →
  listed_valid a → listed_valid (fst (start init a)).
Proof.
  intros Hinit. revert a. unfold start.
  apply (bind_invariant listed_valid); [done |]. intros [|]; [done |].
  apply (try_catch_invariant listed_valid).
  - apply (bind_invariant listed_valid); [done |]. intros _.
    apply (bind_invariant listed_valid); [done |]. intros _.
    apply (bind_invariant listed_valid); done.
  - intros e. apply (bind_invariant listed_valid); [done |]. intros m.
    apply (bind_invariant listed_valid); done.
Qed.

Lemma listed_valid_stop {X} (a : BaseAgent.t X) :
  listed_valid a → listed_valid (fst (stop a)).
Proof.
  revert a. unfold stop.
  apply (bind_invariant listed_valid); [done |]. intros [|]; by simpl.
Qed.

Lemma listed_valid_calls {X} (cls : AgentClass.t X) :
  (∀ a, listed_valid a → listed_valid (fst (AgentClass.initialize cls a))) →
  (∀ a, listed_valid a → listed_valid (fst (AgentClass.start cls a))) →
  (∀ a, listed_valid a → listed_valid (fst (AgentClass.stop cls a))) →
  preserves listed_valid cls.
Proof.
  intros Hi Hs Hp [d | d | | |] a Ha; simpl; auto.
  - revert a Ha. apply (bind_invariant listed_valid); [| done].
    intros a. apply listed_valid_registerTool.
  - revert a Ha. apply (bind_invariant listed_valid); [| done].
    intros a. apply listed_valid_registerResource.
Qed.

Lemma Base_listed_valid {X} : preserves listed_valid (@AgentClass.Base X).
Proof.
  apply listed_valid_calls; simpl; [done | | apply listed_valid_stop].
  intros a. by apply listed_valid_start.
Qed.

Lemma Twitter_initialize_listed_valid a :
  listed_valid a → listed_valid (fst (TwitterAgent.initialize a)).
Proof.
  revert a. unfold TwitterAgent.initialize.
  apply (bind_invariant listed_valid); [done |]. intros _.
  apply (bind_invariant listed_valid); [| done]. intros a. apply listed_valid_registerTool.
Qed.

Lemma Twitter_listed_valid : preserves listed_valid AgentClass.Twitter.
Proof.
  apply listed_valid_calls; simpl.
  - apply Twitter_initialize_listed_valid.
  - intros a. apply listed_valid_start, Twitter_initialize_listed_valid.
  - apply listed_valid_stop.
Qed.

Lemma ContentAnalysis_initialize_listed_valid h1 h2 h3 h4 a :
  listed_valid a → listed_valid (fst (ContentAnalysisAgent.initialize h1 h2 h3 h4 a)).
Proof.
  revert a. unfold ContentAnalysisAgent.initialize.
  apply (bind_invariant listed_valid); [done |]. intros _.
  apply (bind_invariant listed_valid); [intros a; apply listed_valid_registerTool |].
  intros _.
  apply (bind_invariant listed_valid); [intros a; apply listed_valid_registerTool |].
  intros _.
  apply (bind_invariant listed_valid); [intros a; apply listed_valid_registerTool |].
  intros _.
  apply (bind_invariant listed_valid); [intros a; apply listed_valid_registerResource | done].
Qed.

Lemma ContentAnalysis_listed_valid h1 h2 h3 h4 :
  preserves listed_valid (AgentClass.ContentAnalysis h1 h2 h3 h4).
Proof.
  apply listed_valid_calls; simpl.
  - apply ContentAnalysis_initialize_listed_valid.
  - unfold ContentAnalysisAgent.start.
    apply (bind_invariant listed_valid).
    + intros a. apply listed_valid_start, ContentAnalysis_initialize_listed_valid.
    + intros _. apply (bind_invariant listed_valid); done.
  - unfold ContentAnalysisAgent.stop.
    apply (bind_invariant listed_valid).
    + intros a Ha. unfold ContentAnalysisAgent.stopQueueProcessor. done.
    + intros _. apply (bind_invariant listed_valid); [apply listed_valid_stop | done].
Qed.

Lemma reachable_preserved {X} (P : BaseAgent.t X → Prop) (cls : AgentClass.t X) a0 a :
  preserves P cls → P a0 → AgentClass.reachable cls a0 a → P a.
Proof.
  intros Hcls H0 Hreach. induction Hreach as [| a c _ IH]; [done |]. by apply Hcls.
Qed.

Lemma built_listed_valid {X} (a : BaseAgent.t X) : built a → listed_valid a.
Proof.
  intros [X' i x a' H | a' H | h1 h2 h3 h4 a' H].
  - apply (reachable_preserved listed_valid _ _ _ Base_listed_valid) in H; [done |].
    split; constructor.
  - apply (reachable_preserved listed_valid _ _ _ Twitter_listed_valid) in H; [done |].
    split; constructor.
  - apply (reachable_preserved listed_valid _ _ _
             (ContentAnalysis_listed_valid h1 h2 h3 h4)) in H; [done |].
    split; constructor.
Qed.

(** X11: an agent never lists a descriptor that fails its validation.
    [registerTool] and [registerResource] given a descriptor without a
    truthy name, description or handler throw and leave the agent exactly
    as it was, with no event and no log entry; so in every state an agent
    of the three classes reaches from its constructor, each listed tool
    and resource has a truthy name, description and handler. *)
Theorem agent_lists_hold_valid_descriptors {X} (a : BaseAgent.t X) (d : descriptor) :
  built a →
  listed_valid a ∧
  (¬ valid d →
   registerTool d a
     = (a, Throw (JsError "Un outil doit avoir un nom, une description et un gestionnaire")) ∧
   registerResource d a
     = (a, Throw (JsError "Une ressource doit avoir un nom, une description et un gestionnaire"))).
Proof.
  intros Hb. split; [by apply built_listed_valid |].
  intros Hnv. split.
  - by destruct (registerTool_cases a d).
  - by destruct (registerResource_cases a d).
Qed.

Lemma agent_lists_hold_valid_descriptors_witness :
  let a := fst (AgentClass.run AgentClass.Twitter AgentClass.Start TwitterAgent.new) in
  listed_valid a ∧
  BaseAgent.registerTool
    {| name := Some "x"; description := Some ""; inputSchema := None;
       handler := Some (fun v => Ret v); agentId := None |} a
  = (a, Throw (JsError "Un outil doit avoir un nom, une description et un gestionnaire")).
Proof.
  intros a.
  destruct (agent_lists_hold_valid_descriptors a
              {| name := Some "x"; description := Some ""; inputSchema := None;
                 handler := Some (fun v => Ret v); agentId := None |}) as [Hl Hrej].
  - apply built_twitter. subst a. apply AgentClass.reach_call, AgentClass.reach_here.
  - split; [exact Hl |]. apply Hrej. intros (_ & Hd & _). discriminate Hd.
Defined.

End AgentMoreFacts.

Section BuiltAgentsInMiddleware.
Import McpMiddleware.

(** X6: an agent of the three classes, in any state reached from its
    constructor, is accepted by [registerAgent]: the call returns, the
    agent is stored under the id, and each of its tools and resources is
    afterwards registered under its name, with a descriptor of the agent
    bearing that name. *)
Theorem registerAgent_accepts_built_agents {X} (a : BaseAgent.t X) (m : t) (id : string) :
  built a →
  let m' := fst (registerAgent id (of_agent a) m) in
  snd (registerAgent id (of_agent a) m) = Ret tt ∧
  agents m' !! id = Some (of_agent a) ∧
  (∀ d, d ∈ BaseAgent.tools a →
     ∃ n d', name d = Some n ∧ d' ∈ BaseAgent.tools a ∧ name d' = Some n ∧
             CapabilityRegistry.tools (capabilityRegistry m') !! n = Some d') ∧
  (∀ d, d ∈ BaseAgent.resources a →
     ∃ n d', name d = Some n ∧ d' ∈ BaseAgent.resources a ∧ name d' = Some n ∧
             CapabilityRegistry.resources (capabilityRegistry m') !! n = Some d').
Proof.
  intros Hb m'.
  destruct (listed_valid_registrable a (built_listed_valid a Hb)) as [Ht Hr].
  destruct (registerAgent_accepted m id (of_agent a) Ht Hr) as (lg & lm & Hreg).
  subst m'. rewrite Hreg. cbn.
  split; [done |]. split; [apply lookup_insert_eq |].
  assert (Hnamed : ∀ ds (tm : gmap string descriptor) d,
            all_registrable ds → d ∈ ds →
            ∃ n d', name d = Some n ∧ d' ∈ ds ∧ name d' = Some n ∧
                    insert_all ds tm !! n = Some d').
  { intros ds tm d Hall Hd.
    pose proof (proj1 (Forall_forall _ _) Hall d Hd) as [n Hn].
    destruct (insert_all_named ds tm d n Hall Hd (proj1 Hn)) as (d' & Hd' & Hn' & Hl).
    exists n, d'. by destruct Hn. }
  split; intros d Hd; by apply Hnamed.
Qed.

Lemma registerAgent_accepts_built_agents_witness :
  let h : handler_fn := fun params => Ret params in
  let a := fst (AgentClass.run (AgentClass.ContentAnalysis h h h h) AgentClass.Start
             (fst (AgentClass.run (AgentClass.ContentAnalysis h h h h) AgentClass.Initialize
                ContentAnalysisAgent.new))) in
  snd (registerAgent "content-analysis" (of_agent a) new) = Ret tt.
Proof.
  intros h a.
  apply (registerAgent_accepts_built_agents a new "content-analysis").
  apply (built_content_analysis h h h h). subst a.
  do 2 apply AgentClass.reach_call. apply AgentClass.reach_here.
Defined.

End BuiltAgentsInMiddleware.

(** ** Agents: lifecycle *)

Section LifecycleMoreFacts.
Import BaseAgent.

Ltac count_events :=
  rewrite ?count_event_app;
  repeat match goal with
  | |- context [count_event ?e [?x]] =>
      let v := eval vm_compute in (count_event e [x]) in
      change (count_event e [x]) with v
  end.

Lemma balanced_registerTool {X} (a : BaseAgent.t X) d :
  balanced a → balanced (fst (registerTool d a)).
Proof.
  intros Hb. destruct (registerTool_cases a d) as [Hv | ->]; [| done].
  rewrite (registerTool_valid a d Hv). unfold balanced in *. simpl.
  count_events. lia.
Qed.

Lemma balanced_registerResource {X} (a : BaseAgent.t X) d :
  balanced a → balanced (fst (registerResource d a)).
Proof.
  intros Hb. destruct (registerResource_cases a d) as [Hv | ->]; [| done].
  rewrite (registerResource_valid a d Hv). unfold balanced in *. simpl.
  count_events. lia.
Qed.

Lemma balanced_stop {X} (a : BaseAgent.t X) : balanced a → balanced (fst (stop a)).
Proof.
  unfold balanced. destruct a as [? ? ? [|] ? ? ? ?]; simpl; intros Hb;
    count_events; lia.
Qed.

Lemma Base_balanced {X} : preserves balanced (@AgentClass.Base X).
Proof.
  intros [d | d | | |] a Hb; simpl.
  - revert a Hb. apply (bind_invariant balanced); [| done].
    intros a. apply balanced_registerTool.
  - revert a Hb. apply (bind_invariant balanced); [| done].
    intros a. apply balanced_registerResource.
  - done.
  - revert Hb. unfold balanced. destruct a as [? ? ? [|] ? ? ? ?]; simpl; intros Hb;
      count_events; lia.
  - by apply balanced_stop.
Qed.

Lemma Twitter_balanced : preserves balanced AgentClass.Twitter.
Proof.
  intros [d | d | | |] a Hb; simpl.
  - revert a Hb. apply (bind_invariant balanced); [| done].
    intros a. apply balanced_registerTool.
  - revert a Hb. apply (bind_invariant balanced); [| done].
    intros a. apply balanced_registerResource.
  - revert Hb. unfold balanced. destruct a; simpl; intros Hb; count_events; lia.
  - revert Hb. unfold balanced. destruct a as [? ? ? [|] ? ? ? ?]; simpl; intros Hb;
      count_events; lia.
  - by apply balanced_stop.
Qed.

Lemma ContentAnalysis_balanced h1 h2 h3 h4 :
  preserves balanced (AgentClass.ContentAnalysis h1 h2 h3 h4).
Proof.
  intros [d | d | | |] a Hb; simpl.
  - revert a Hb. apply (bind_invariant balanced); [| done].
    intros a. apply balanced_registerTool.
  - revert a Hb. apply (bind_invariant balanced); [| done].
    intros a. apply balanced_registerResource.
  - revert Hb. unfold balanced. destruct a; simpl; intros Hb; count_events; lia.
  - revert Hb. unfold balanced. destruct a as [? ? ? [|] ? ? ? ?]; simpl; intros Hb;
      count_events; lia.
  - revert Hb. unfold balanced. destruct a as [? ? ? [|] ? ? ? ?]; simpl; intros Hb;
      count_events; lia.
Qed.

(** X12: the lifecycle events of an agent alternate.  In every state an
    agent of the three classes reaches from its constructor, the number of
    [started] events emitted so far equals the number of [stopped] events,
    plus one exactly while the agent is running. *)
Theorem lifecycle_events_balance {X} (a : BaseAgent.t X) :
  built a →
  count_event "started" (emitted a)
  = count_event "stopped" (emitted a) + (if running a then 1 else 0).
Proof.
  intros [X' i x a' H | a' H | h1 h2 h3 h4 a' H].
  - by apply (reachable_preserved balanced _ _ _ Base_balanced) in H.
  - by apply (reachable_preserved balanced _ _ _ Twitter_balanced) in H.
  - by apply (reachable_preserved balanced _ _ _ (ContentAnalysis_balanced h1 h2 h3 h4)) in H.
Qed.

Lemma lifecycle_events_balance_witness :
  let a := fst (AgentClass.run AgentClass.Twitter AgentClass.Start
             (fst (AgentClass.run AgentClass.Twitter AgentClass.Stop
                (fst (AgentClass.run AgentClass.Twitter AgentClass.Start
                   TwitterAgent.new))))) in
  count_event "started" (emitted a)
  = count_event "stopped" (emitted a) + (if running a then 1 else 0).
Proof.
  intros a. apply (lifecycle_events_balance a).
  apply built_twitter. subst a.
  do 3 apply AgentClass.reach_call. apply AgentClass.reach_here.
Defined.

(** X13: when [this.initialize()] throws an Error on an agent that is
    not running, and has left the flag alone, [start] logs the Error and
    throws it again: the agent is as the initialization left it but for
    that log entry, so it is not running and no [started] event is
    emitted.  A later [start] is not stopped by the guard and runs the
    initialization again, on that state: when it now succeeds the agent
    is set running and [started] is emitted; when it throws an Error
    again, that Error is thrown again and the agent is still not
    running. *)
Theorem start_rethrows_initialization_error {X} (init : M (BaseAgent.t X) unit)
    (a ai : BaseAgent.t X) (m : string) :
  running a = false → init a = (ai, Throw (JsError m)) → running ai = false →
  let a' := fst (start init a) in
  snd (start init a) = Throw (JsError m) ∧
  a' = {| id := id ai; tools := tools ai; resources := resources ai;
          running := false; logger_context := logger_context ai;
          emitted := emitted ai;
          log := log ai ++ [createSubLogger (logger_context ai) Error
                              ("Erreur lors du démarrage de l'agent '" +:+ id ai
                               +:+ "': " +:+ m)];
          ext := ext ai |} ∧
  (∀ a2, init a' = (a2, Ret tt) →
     snd (start init a') = Ret tt ∧
     running (fst (start init a')) = true ∧
     tools (fst (start init a')) = tools a2 ∧
     resources (fst (start init a')) = resources a2 ∧
     emitted (fst (start init a')) = emitted a2 ++ [started]) ∧
  (∀ a2 m2, init a' = (a2, Throw (JsError m2)) →
     snd (start init a') = Throw (JsError m2) ∧
     running (fst (start init a')) = running a2 ∧
     emitted (fst (start init a')) = emitted a2).
Proof.
  intros Hr Hinit Hri a'.
  assert (Ha' : start init a =
            ({| id := id ai; tools := tools ai; resources := resources ai;
                running := false; logger_context := logger_context ai;
                emitted := emitted ai;
                log := log ai ++ [createSubLogger (logger_context ai) Error
                                    ("Erreur lors du démarrage de l'agent '" +:+ id ai
                                     +:+ "': " +:+ m)];
                ext := ext ai |}, Throw (JsError m))).
  { unfold start, bind, gets, try_catch. rewrite Hr, Hinit. cbn. by rewrite Hri. }
  subst a'. rewrite Ha'. cbn [fst snd].
  split; [done |]. split; [done |]. split.
  - intros a2 Hinit2.
    pose proof (λ H, start_when_stopped init _ a2 H Hinit2) as Hs.
    rewrite Hs by reflexivity. cbn. done.
  - intros a2 m2 Hinit2. by apply start_initialize_fails.
Qed.

Lemma start_rethrows_initialization_error_witness :
  let init : M (BaseAgent.t unit) unit :=
    (BaseAgent.registerTool
       {| name := None; description := None; inputSchema := None; handler := None;
          agentId := None |} ;;; ret tt)%js in
  let a' := fst (start init (new "broken" tt)) in
  snd (start init (new "broken" tt))
    = Throw (JsError "Un outil doit avoir un nom, une description et un gestionnaire") ∧
  running a' = false ∧ emitted a' = [] ∧
  snd (start init a')
    = Throw (JsError "Un outil doit avoir un nom, une description et un gestionnaire") ∧
  running (fst (start init a')) = false.
Proof.
  intros init a'.
  destruct (start_rethrows_initialization_error init (new "broken" tt) (new "broken" tt)
              "Un outil doit avoir un nom, une description et un gestionnaire")
    as (Hthrow & Hstate & _ & Hagain); [reflexivity | reflexivity | reflexivity |].
  split; [exact Hthrow |]. subst a'. rewrite Hstate.
  split; [reflexivity |]. split; [reflexivity |].
  rewrite Hstate in Hagain.
  destruct (Hagain _ "Un outil doit avoir un nom, une description et un gestionnaire" eq_refl)
    as (H1 & H2 & _).
  split; [exact H1 | exact H2].
Defined.

End LifecycleMoreFacts.

(** ** Content analysis agent: the queue timer *)

Section TimerFacts.
Import BaseAgent ContentAnalysisAgent.
Variables h1 h2 h3 h4 : handler_fn.
Implicit Types a : ContentAnalysisAgent.agent.

Lemma filter_fresh_handle (l : list nat) (h : nat) :
  Forall (λ h', h' < h) l → filter (λ h', h' ≠ h) (l ++ [h]) = l.
Proof.
  intros Hl. rewrite filter_app.
  rewrite (filter_cons_False _ h) by (intros H; by apply H).
  rewrite filter_nil, app_nil_r.
  induction Hl as [| x l Hx _ IH]; [reflexivity |].
  rewrite filter_cons_True by lia. by rewrite IH.
Qed.

(** X14: [stop] clears only the interval whose handle is kept in
    [queueInterval].  On an agent that is not running and keeps no
    handle, [start] then [stop] leaves the set of active intervals as it
    was; but [start], [start], [stop] leaves the interval set by the first
    [start] active with no handle kept for it, and a further [stop] does
    not clear it. *)
Theorem second_start_leaks_an_interval a :
  running a = false → queueInterval (ext a) = None → handles_issued (ext a) →
  let once := fst (stop (fst (start h1 h2 h3 h4 a))) in
  let twice := fst (stop (fst (start h1 h2 h3 h4 (fst (start h1 h2 h3 h4 a))))) in
  intervals (ext once) = intervals (ext a) ∧ queueInterval (ext once) = None ∧
  intervals (ext twice) = intervals (ext a) ++ [nextHandle (ext a)] ∧
  queueInterval (ext twice) = None ∧ running twice = false ∧
  intervals (ext (fst (stop twice))) = intervals (ext twice).
Proof.
  destruct a as [i ts rs r lc em lg [q iv nh]]. simpl. intros -> -> Hiv. simpl.
  unfold handles_issued in Hiv. simpl in Hiv.
  assert (H1 : filter (λ h', h' ≠ nh) (iv ++ [nh]) = iv) by by apply filter_fresh_handle.
  assert (H2 : filter (λ h', h' ≠ S nh) ((iv ++ [nh]) ++ [S nh]) = iv ++ [nh]).
  { apply filter_fresh_handle. apply Forall_app. split.
    - eapply Forall_impl; [exact Hiv |]. simpl. lia.
    - repeat constructor. }
  rewrite H1, H2. repeat split.
Qed.

End TimerFacts.

Lemma second_start_leaks_an_interval_witness :
  let h : handler_fn := fun params => Ret params in
  let a := ContentAnalysisAgent.new in
  ContentAnalysisAgent.intervals (BaseAgent.ext
    (fst (ContentAnalysisAgent.stop
       (fst (ContentAnalysisAgent.start h h h h
          (fst (ContentAnalysisAgent.start h h h h a))))))) = [1].
Proof.
  intros h a.
  destruct (second_start_leaks_an_interval h h h h a) as (_ & _ & Hleak & _);
    [reflexivity | reflexivity | constructor |].
  exact Hleak.
Defined.

(** ** Content analysis agent: the queue processor *)

Section QueueFacts.
Import QueueProcessor.

Lemma drained_tick queue k s : drained queue k s → ∃ k', drained queue k' (tick s).
Proof.
  intros (Hq & Hk & Ha). unfold tick.
  destruct (awaiting s) as [t0 |] eqn:Eaw.
  - pose proof Ha as (Hp & _). rewrite Hp, andb_false_r. exists k.
    unfold drained. by rewrite Eaw.
  - destruct Ha as (Hp & Hc). rewrite Hp, andb_true_r.
    destruct (analyzeQueue s) as [| task rest] eqn:Eq; simpl.
    + exists k. unfold drained. by rewrite Eaw, Eq.
    + exists (S k).
      assert (Hlook : queue !! k = Some task).
      { rewrite <- (Nat.add_0_r k), <- lookup_drop, <- Hq. reflexivity. }
      assert (Hlt : k < length queue) by (apply lookup_lt_is_Some; eauto).
      unfold drained. cbn [analyzeQueue awaiting processingAnalysis completions].
      replace (S k - 1) with k by lia.
      split; [| split; [lia | repeat split; [lia | done | done]]].
      rewrite (drop_S queue task k Hlook) in Hq. congruence.
Qed.

Lemma completions_of_snoc tasks task :
  completions_of (tasks ++ [task])
  = completions_of tasks ++
    match execute task with
    | Ret result => [{| completed_type := task_type task; completed_taskId := task_id task;
                        completed_result := result |}]
    | Throw _ => []
    end.
Proof.
  unfold completions_of. rewrite omap_app. simpl.
  by destruct (execute task).
Qed.

Lemma drained_settle queue k s : drained queue k s → drained queue k (settle s).
Proof.
  intros (Hq & Hk & Ha). unfold settle.
  destruct (awaiting s) as [task |] eqn:Eaw.
  - destruct Ha as (Hp & Hpos & Hlook & Hc).
    assert (Htake : take k queue = take (k - 1) queue ++ [task]).
    { replace k with (S (k - 1)) at 1 by lia. by apply take_S_r. }
    assert (Hdone : completions_of (take k queue)
              = completions s ++
                match execute task with
                | Ret result => [{| completed_type := task_type task;
                                    completed_taskId := task_id task;
                                    completed_result := result |}]
                | Throw _ => []
                end)
      by (rewrite Htake, completions_of_snoc; congruence).
    destruct (execute task) as [result | [m |]]; simpl;
      unfold drained; cbn [analyzeQueue awaiting processingAnalysis completions];
      rewrite ?app_nil_r in Hdone; done.
  - unfold drained. by rewrite Eaw.
Qed.

Lemma drained_run queue schedule : ∀ s k,
  drained queue k s → ∃ k', drained queue k' (run schedule s).
Proof.
  induction schedule as [| e schedule IH]; intros s k Hs; [by exists k |].
  unfold run. simpl. destruct e; simpl.
  - destruct (drained_tick queue k s Hs) as [k' Hk']. by apply (IH _ k').
  - apply (IH _ k). by apply drained_settle.
Qed.

(** X15: whatever the order in which the interval fires and executions
    settle, the tasks of the queue are taken from its head, one at a time:
    at every moment the queue is what is left after its first [k] tasks,
    at most one task is awaited, and the [analysis-completed] events
    emitted so far are those of the tasks taken and settled, one for each
    task whose execution fulfilled, in queue order; a task whose execution
    rejected gives no event and is not put back. *)
Theorem queue_is_drained_in_order (queue : list task) (schedule : list step) :
  let s := run schedule (initial queue) in
  ∃ k, analyzeQueue s = drop k queue ∧ (k ≤ length queue)%nat ∧
       match awaiting s with
       | Some task =>
           processingAnalysis s = true ∧ (0 < k)%nat ∧ queue !! (k - 1)%nat = Some task ∧
           completions s = completions_of (take (k - 1)%nat queue)
       | None =>
           processingAnalysis s = false ∧ completions s = completions_of (take k queue)
       end.
Proof.
  apply (drained_run queue schedule (initial queue) 0).
  unfold drained, initial. simpl. repeat split. lia.
Qed.



End QueueFacts.

(** ** Content analysis agent: getAnalysisResults *)

Section ResultsFacts.
Import AnalysisResults.

Lemma insert_newest_elem x y l : x ∈ insert_newest y l ↔ x ∈ y :: l.
Proof.
  induction l as [| z l IH]; simpl; [done |].
  destruct (timestamp y <? timestamp z)%Z; [| done].
  rewrite elem_of_cons, IH, !elem_of_cons. tauto.
Qed.

Lemma sort_newest_elem x l : x ∈ sort_newest l ↔ x ∈ l.
Proof.
  induction l as [| y l IH]; simpl; [done |].
  by rewrite insert_newest_elem, !elem_of_cons, IH.
Qed.

Lemma insert_newest_length y l : length (insert_newest y l) = S (length l).
Proof.
  induction l as [| z l IH]; simpl; [done |].
  destruct (timestamp y <? timestamp z)%Z; simpl; by rewrite ?IH.
Qed.

Lemma sort_newest_length l : length (sort_newest l) = length l.
Proof.
  induction l as [| y l IH]; simpl; [done |]. by rewrite insert_newest_length, IH.
Qed.

Lemma insert_newest_sorted y l :
  StronglySorted newer l → StronglySorted newer (insert_newest y l).
Proof.
  induction l as [| z l IH]; intros Hl; simpl.
  - repeat constructor.
  - apply StronglySorted_inv in Hl as [Hl Hz].
    destruct (Z.ltb_spec (timestamp y) (timestamp z)).
    + constructor; [by apply IH |].
      apply Forall_forall. intros x [-> | Hx]%insert_newest_elem%elem_of_cons.
      * unfold newer. lia.
      * by apply (proj1 (Forall_forall _ _) Hz).
    + constructor; [by constructor |].
      constructor; [unfold newer; lia |].
      eapply Forall_impl; [exact Hz |]. unfold newer. simpl. lia.
Qed.

Lemma sort_newest_sorted l : StronglySorted newer (sort_newest l).
Proof.
  induction l as [| y l IH]; simpl; [constructor | by apply insert_newest_sorted].
Qed.

Lemma sorted_newest_first l : StronglySorted newer l → newest_first l.
Proof.
  intros Hl i j x y Hij Hi Hj.
  destruct (decide (i = j)) as [-> | Hne]; [unfold timestamp; by simplify_eq |].
  assert (Hsplit : l = take j l ++ drop j l) by by rewrite take_drop.
  rewrite Hsplit in Hl.
  apply (StronglySorted_app_1_elem_of _ _ _ x y Hl).
  - apply list_elem_of_lookup. exists i. rewrite lookup_take_lt by lia. done.
  - apply list_elem_of_lookup. exists 0. rewrite lookup_drop, Nat.add_0_r. done.
Qed.

Lemma slice_segment {A} (l : list A) (start end_ : Z) :
  ∃ k n, slice l start end_ = take n (drop k l).
Proof. unfold slice. eauto. Qed.

Lemma slice_nonneg {A} (l : list A) (offset limit : Z) :
  (0 ≤ offset)%Z → (0 ≤ limit)%Z →
  slice l offset (offset + limit) = take (Z.to_nat limit) (drop (Z.to_nat offset) l).
Proof.
  intros Ho Hl. unfold slice.
  destruct (Z.ltb_spec offset 0); [lia |].
  destruct (Z.ltb_spec (offset + limit) 0); [lia |].
  destruct (Z.le_gt_cases offset (Z.of_nat (length l))) as [Hin | Hout].
  - rewrite (Z.min_l offset) by done.
    destruct (Z.le_gt_cases (offset + limit) (Z.of_nat (length l))).
    + rewrite Z.min_l by done. f_equal. lia.
    + rewrite Z.min_r by lia.
      rewrite (take_ge (drop _ _) (Z.to_nat limit)) by (rewrite length_drop; lia).
      apply take_ge. rewrite length_drop. lia.
  - rewrite !Z.min_r by lia.
    rewrite !drop_ge by lia. by rewrite !take_nil.
Qed.

Lemma selected_type q s n :
  q_type q = Some n → n ≠ "" → ∀ r, r ∈ selected q s → type r = n.
Proof.
  intros Hq Hn r Hr. unfold selected in Hr. rewrite Hq in Hr. simpl in Hr.
  destruct (String.eqb_spec n ""); [done |]. simpl in Hr.
  apply (proj1 (sort_newest_elem _ _)), list_elem_of_In, filter_In in Hr as [_ Hr].
  by apply String.eqb_eq in Hr.
Qed.

Lemma selected_stored q s r :
  r ∈ selected q s → (listed_id r, listed_entry r) ∈ s.
Proof.
  unfold selected. cbv zeta. intros Hr. apply (proj1 (sort_newest_elem _ _)) in Hr.
  assert (Hm : r ∈ map (fun '(id, data) => {| listed_id := id; listed_entry := data |}) s).
  { destruct (truthy_str (q_type q)); [| exact Hr].
    by apply list_elem_of_In, filter_In in Hr as [Hr%list_elem_of_In _]. }
  apply list_elem_of_fmap in Hm as ([i d] & -> & Hin). done.
Qed.

(** X17: with a non-negative offset and limit, [getAnalysisResults]
    returns the [limit] results that follow the first [offset] ones in the
    sorted selection: at most [limit] of them, none once the offset
    reaches the total; the total is the size of the whole selection,
    whatever the page; and the page at [offset] of length [l1] followed
    by the page at [offset + l1] of length [l2] is the page at [offset] of
    length [l1 + l2]. *)
Theorem results_are_paged (ty : option string) (s : store) (offset l1 l2 : Z) :
  (0 ≤ offset)%Z → (0 ≤ l1)%Z → (0 ≤ l2)%Z →
  let page o l := getAnalysisResults {| q_type := ty; q_limit := Some l; q_offset := Some o |} s in
  let all := selected {| q_type := ty; q_limit := None; q_offset := None |} s in
  results (page offset l1) = take (Z.to_nat l1) (drop (Z.to_nat offset) all) ∧
  length (results (page offset l1)) = Z.to_nat l1 `min` (length all - Z.to_nat offset) ∧
  total (page offset l1) = length all ∧
  ((Z.of_nat (length all) ≤ offset)%Z → results (page offset l1) = []) ∧
  results (page offset l1) ++ results (page (offset + l1)%Z l2)
    = results (page offset (l1 + l2)%Z).
Proof.
  intros Ho H1 H2 page all.
  assert (Hpage : ∀ o l, (0 ≤ o)%Z → (0 ≤ l)%Z →
            results (page o l) = take (Z.to_nat l) (drop (Z.to_nat o) all)).
  { intros o l Ho' Hl'. subst page. cbn. by apply slice_nonneg. }
  split; [by apply Hpage |]. split; [| split; [done | split]].
  - rewrite Hpage by done. rewrite length_take, length_drop. done.
  - intros Hover. rewrite Hpage by done. rewrite drop_ge by lia. apply take_nil.
  - rewrite !Hpage by lia.
    rewrite Z2Nat.inj_add by done. rewrite (Z2Nat.inj_add l1 l2) by done.
    rewrite <- drop_drop. apply take_take_drop.
Qed.

Lemma results_are_paged_witness :
  let s : store :=
    [("a", {| entry_type := "text"; entry_timestamp := 10; entry_data := VNull |});
     ("b", {| entry_type := "image"; entry_timestamp := 30; entry_data := VNull |});
     ("c", {| entry_type := "text"; entry_timestamp := 20; entry_data := VNull |})] in
  map listed_id
    (results (getAnalysisResults {| q_type := None; q_limit := Some 1%Z;
                                    q_offset := Some 0%Z |} s)) = ["b"] ∧
  total (getAnalysisResults {| q_type := None; q_limit := Some 1%Z;
                               q_offset := Some 0%Z |} s) = 3.
Proof.
  intros s.
  destruct (results_are_paged None s 0 1 0) as (Hres & _ & Htotal & _); [lia | lia | lia |].
  rewrite Hres, Htotal. split; reflexivity.
Defined.

(** X18: whatever the offset and the limit, negative ones included, the
    results returned are in order of non-increasing timestamp, each of
    them is an entry of the store under its id, and when a non-empty
    [type] is asked for, each of them has that type.  Without parameters
    at most ten are returned. *)
Theorem results_are_newest_first (q : query) (s : store) :
  let c := getAnalysisResults q s in
  newest_first (results c) ∧
  (∀ r, r ∈ results c → (listed_id r, listed_entry r) ∈ s) ∧
  (∀ n, q_type q = Some n → n ≠ "" → ∀ r, r ∈ results c → type r = n) ∧
  length (results (getAnalysisResults no_params s)) ≤ 10.
Proof.
  intros c. subst c. cbn [results getAnalysisResults].
  destruct (slice_segment (selected q s) (default 0%Z (q_offset q))
              (default 0%Z (q_offset q) + default 10%Z (q_limit q))) as (k & n & ->).
  assert (Hsub : ∀ r, r ∈ take n (drop k (selected q s)) → r ∈ selected q s).
  { intros r Hr. rewrite <- (take_drop k (selected q s)). apply elem_of_app. right.
    rewrite <- (take_drop n (drop k (selected q s))). apply elem_of_app. by left. }
  split; [| split; [| split]].
  - apply sorted_newest_first.
    apply (StronglySorted_app_1_l _ _ (drop n (drop k (selected q s)))).
    rewrite take_drop.
    apply (StronglySorted_app_1_r _ (take k (selected q s))).
    rewrite take_drop. apply sort_newest_sorted.
  - intros r Hr. by apply (selected_stored q), Hsub.
  - intros ty Hq Hn r Hr. by apply (selected_type q s ty Hq Hn), Hsub.
  - rewrite slice_nonneg by (simpl; lia). simpl. rewrite length_take. lia.
Qed.

Lemma results_are_newest_first_witness :
  Forall (λ r, type r = "text")
    (results (getAnalysisResults
                {| q_type := Some "text"; q_limit := Some 5%Z; q_offset := Some (-1)%Z |}
                [("a", {| entry_type := "text"; entry_timestamp := 10; entry_data := VNull |});
                 ("b", {| entry_type := "image"; entry_timestamp := 30; entry_data := VNull |});
                 ("c", {| entry_type := "text"; entry_timestamp := 20; entry_data := VNull |})])).
Proof.
  apply Forall_forall. intros r Hr.
  destruct (results_are_newest_first
              {| q_type := Some "text"; q_limit := Some 5%Z; q_offset := Some (-1)%Z |}
              [("a", {| entry_type := "text"; entry_timestamp := 10; entry_data := VNull |});
               ("b", {| entry_type := "image"; entry_timestamp := 30; entry_data := VNull |});
               ("c", {| entry_type := "text"; entry_timestamp := 20; entry_data := VNull |})])
    as (_ & _ & Htype & _).
  apply (Htype "text"); [reflexivity | discriminate | exact Hr].
Defined.

End ResultsFacts.

(** ** Text analysis: sentiment *)

Section SentimentFacts.
Import TextAnalysis.

Lemma Qgtb_lt a b : Qgtb a b = true ↔ (b < a)%Q.
Proof.
  unfold Qgtb. rewrite negb_true_iff. split.
  - intros H. apply Qnot_le_lt. intros Hle. apply Qle_bool_iff in Hle. congruence.
  - intros H. destruct (Qle_bool a b) eqn:E; [| done].
    apply Qle_bool_iff in E. by apply Qlt_not_le in H.
Qed.

Lemma Qltb_lt a b : Qltb a b = true ↔ (a < b)%Q.
Proof. apply (Qgtb_lt b a). Qed.

Ltac q2z := unfold Qlt, Qle, Qminus, Qplus, Qmult, Qopp, Qnat, inject_Z; simpl; lia.

Lemma ratio_bounds p n : (0 < p + n)%nat → (-1 <= ratio p n)%Q ∧ (ratio p n <= 1)%Q.
Proof.
  intros Hpos. unfold ratio. split.
  - apply Qle_shift_div_l; q2z.
  - apply Qle_shift_div_r; q2z.
Qed.

Lemma ratio_positive p n : (0 < p + n)%nat → (0.2 < ratio p n)%Q ↔ (3 * n < 2 * p)%nat.
Proof.
  intros Hpos. unfold ratio. split.
  - intros H. destruct (decide (3 * n < 2 * p)%nat) as [| Hno]; [done |].
    exfalso. apply (Qlt_not_le _ _ H). apply Qle_shift_div_r; q2z.
  - intros H. apply Qlt_shift_div_l; q2z.
Qed.

Lemma ratio_negative p n : (0 < p + n)%nat → (ratio p n < -0.2)%Q ↔ (3 * p < 2 * n)%nat.
Proof.
  intros Hpos. unfold ratio. split.
  - intros H. destruct (decide (3 * p < 2 * n)%nat) as [| Hno]; [done |].
    exfalso. apply (Qlt_not_le _ _ H). apply Qle_shift_div_l; q2z.
  - intros H. apply Qlt_shift_div_r; q2z.
Qed.

Lemma fold_counts_bound (f g : jsstring → bool) words : ∀ p n p' n',
  fold_left
    (fun '(positiveScore, negativeScore) word =>
       ((if f word then S positiveScore else positiveScore),
        (if g word then S negativeScore else negativeScore)))
    words (p, n) = (p', n') →
  (p' ≤ p + length words)%nat ∧ (n' ≤ n + length words)%nat.
Proof.
  induction words as [| w words IH]; intros p n p' n' H; cbn [fold_left length] in *.
  - injection H as <- <-. lia.
  - apply IH in H. destruct (f w), (g w); lia.
Qed.

Lemma count_words_bound words p n :
  count_words words = (p, n) → (p ≤ length words)%nat ∧ (n ≤ length words)%nat.
Proof.
  intros H.
  apply (fold_counts_bound
           (fun word => existsb (fun pw => includes word pw) positiveWords)
           (fun word => existsb (fun nw => includes word nw) negativeWords)
           words 0 0 p n H).
Qed.

Lemma extract_sentiment_counts text p n :
  count_words (split_whitespace (toLowerCase text)) = (p, n) →
  extract_sentiment text =
    let score := if (0 <? p + n)%nat then ratio p n else 0%Q in
    {| Sentiment.score := score;
       Sentiment.label := if Qgtb score 0.2%Q then "positive"
                          else if Qltb score (-0.2)%Q then "negative"
                          else "neutral";
       Sentiment.confidence := 0.7%Q |}.
Proof. intros H. unfold extract_sentiment. rewrite H. reflexivity. Qed.

(** X19: the sentiment score lies between -1 and 1, and the label is read
    off the two word counts alone: with [p] positive and [n] negative
    words among those of the lower-cased text, the label is "positive"
    exactly when 2p > 3n, "negative" exactly when 2n > 3p, and "neutral"
    otherwise, in particular when no word of either list occurs; neither
    count exceeds the number of words. *)
Theorem sentiment_score_and_label (text : jsstring) (p n : nat) :
  count_words (split_whitespace (toLowerCase text)) = (p, n) →
  let s := extract_sentiment text in
  (p ≤ length (split_whitespace (toLowerCase text)))%nat ∧
  (n ≤ length (split_whitespace (toLowerCase text)))%nat ∧
  (-1 <= Sentiment.score s)%Q ∧ (Sentiment.score s <= 1)%Q ∧
  (Sentiment.label s = "positive" ↔ (3 * n < 2 * p)%nat) ∧
  (Sentiment.label s = "negative" ↔ (3 * p < 2 * n)%nat) ∧
  (Sentiment.label s = "neutral" ↔ (2 * p ≤ 3 * n)%nat ∧ (2 * n ≤ 3 * p)%nat).
Proof.
  intros Hc s. subst s. rewrite (extract_sentiment_counts text p n Hc). cbv zeta.
  pose proof (count_words_bound _ p n Hc) as [Hp Hn].
  split; [lia |]. split; [lia |]. cbn [Sentiment.score Sentiment.label].
  destruct (Nat.ltb_spec 0 (p + n)) as [Hpos | Hzero].
  - destruct (ratio_bounds p n Hpos) as [Hlo Hhi].
    pose proof (ratio_positive p n Hpos) as Hpositive.
    pose proof (ratio_negative p n Hpos) as Hnegative.
    split; [done |]. split; [done |].
    destruct (Qgtb (ratio p n) 0.2) eqn:Egt.
    + apply Qgtb_lt, Hpositive in Egt.
      repeat split; try done; try lia; intros; try discriminate; lia.
    + assert (Hnp : ¬ (3 * n < 2 * p)%nat).
      { intros H. apply Hpositive, Qgtb_lt in H. congruence. }
      destruct (Qltb (ratio p n) (-0.2)) eqn:Elt.
      * apply Qltb_lt, Hnegative in Elt.
        repeat split; try done; try lia; intros; try discriminate; lia.
      * assert (Hnn : ¬ (3 * p < 2 * n)%nat).
        { intros H. apply Hnegative, Qltb_lt in H. congruence. }
        repeat split; try done; try lia; intros; try discriminate; lia.
  - assert (p = 0 ∧ n = 0) as [-> ->] by lia.
    split; [done |]. split; [done |].
    repeat split; try done; try lia; intros; try discriminate; lia.
Qed.

Lemma sentiment_score_and_label_witness :
  Sentiment.label (extract_sentiment (lit "Un produit super mais un service horrible"))
    = "neutral".
Proof.
  destruct (sentiment_score_and_label (lit "Un produit super mais un service horrible") 1 1)
    as (_ & _ & _ & _ & _ & _ & Hneutral); [by vm_compute |].
  apply Hneutral. lia.
Defined.

Lemma split_single_word s : ∀ cur,
  Forall (λ c, is_whitespace c = false) s →
  split_aux cur false s = [rev cur ++ s].
Proof.
  induction s as [| c s IH]; intros cur Hs; simpl.
  - by rewrite app_nil_r.
  - inversion Hs as [| ? ? Hc Hs']; subst. rewrite Hc.
    rewrite IH by done. simpl. by rewrite <- app_assoc.
Qed.

(** X20: keywords are looked for inside words.  A text made of a single
    word, which contains a positive keyword anywhere in its lower-cased
    form and no negative keyword, is labelled "positive", with one
    positive word counted, even when the keyword is only a part of the
    word. *)
Theorem sentiment_matches_inside_words (w pw : jsstring) :
  pw ∈ positiveWords →
  Forall (λ c, is_whitespace c = false) (toLowerCase w) →
  includes (toLowerCase w) pw = true →
  (∀ nw, nw ∈ negativeWords → includes (toLowerCase w) nw = false) →
  count_words (split_whitespace (toLowerCase w)) = (1, 0)%nat ∧
  Sentiment.label (extract_sentiment w) = "positive".
Proof.
  intros Hpw Hws Hin Hneg.
  assert (Hc : count_words (split_whitespace (toLowerCase w)) = (1, 0)%nat).
  { unfold split_whitespace. rewrite (split_single_word _ [] Hws).
    cbn [rev app]. unfold count_words. cbn [fold_left].
    assert (Hp : existsb (fun pw0 => includes (toLowerCase w) pw0) positiveWords = true).
    { apply existsb_exists. exists pw. split; [by apply list_elem_of_In | done]. }
    assert (Hn : existsb (fun nw => includes (toLowerCase w) nw) negativeWords = false).
    { destruct (existsb _ negativeWords) eqn:E; [| done].
      apply existsb_exists in E as (nw & Hnw & Hin').
      rewrite (Hneg nw) in Hin' by (by apply list_elem_of_In). done. }
    cbv beta iota. rewrite Hp, Hn. reflexivity. }
  split; [done |].
  by rewrite (extract_sentiment_counts w 1 0 Hc).
Qed.

Lemma sentiment_matches_inside_words_witness :
  Sentiment.label (extract_sentiment (lit "Mécontent")) = "positive".
Proof.
  apply (sentiment_matches_inside_words (lit "Mécontent") (lit "content")).
  - by vm_compute; repeat (first [left | right]).
  - by vm_compute; repeat constructor.
  - by vm_compute.
  - intros nw Hnw. revert nw Hnw. apply Forall_forall. by vm_compute; repeat constructor.
Defined.

End SentimentFacts.
(** ** Text analysis: topics *)

Section TopicFacts.
Import TextAnalysis.

Lemma Qgtb_false a b : Qgtb a b = false → (a <= b)%Q.
Proof.
  unfold Qgtb. rewrite negb_false_iff. apply Qle_bool_iff.
Qed.

Lemma Qgtb_true a b : Qgtb a b = true → (b <= a)%Q.
Proof.
  unfold Qgtb. rewrite negb_true_iff. intros H. apply Qlt_le_weak, Qnot_le_lt.
  intros Hle. apply Qle_bool_iff in Hle. congruence.
Qed.

(** [b] does not come before [a] by confidence. *)
Lemma insert_topic_perm x l : insert_topic x l ≡ₚ x :: l.
Proof.
  induction l as [| y l IH]; simpl; [done |].
  destruct (Qgtb _ _); [| done].
  rewrite IH. apply Permutation_swap.
Qed.

Lemma sort_topics_perm l : sort_topics l ≡ₚ l.
Proof.
  induction l as [| x l IH]; simpl; [done |].
  by rewrite insert_topic_perm, IH.
Qed.

Lemma insert_topic_sorted x l :
  StronglySorted (λ a b, (Topic.confidence b <= Topic.confidence a)%Q) l →
  StronglySorted (λ a b, (Topic.confidence b <= Topic.confidence a)%Q) (insert_topic x l).
Proof.
  induction 1 as [| y l Hl IH Hy]; simpl.
  - repeat constructor.
  - destruct (Qgtb (Topic.confidence y) (Topic.confidence x)) eqn:E.
    + constructor; [done |].
      apply Forall_forall. intros z Hz.
      rewrite insert_topic_perm in Hz. apply elem_of_cons in Hz as [-> | Hz].
      * by apply Qgtb_true.
      * by apply (proj1 (Forall_forall _ _) Hy).
    + apply Qgtb_false in E. constructor; [by constructor |].
      constructor; [done |].
      apply Forall_forall. intros z Hz.
      apply (Qle_trans _ (Topic.confidence y)); [| done].
      by apply (proj1 (Forall_forall _ _) Hy).
Qed.

Lemma sort_topics_sorted l :
  StronglySorted (λ a b, (Topic.confidence b <= Topic.confidence a)%Q) (sort_topics l).
Proof.
  induction l as [| x l IH]; simpl; [constructor | by apply insert_topic_sorted].
Qed.

Lemma match_topics_names lowerText candidates :
  sublist (Topic.name <$> match_topics lowerText candidates) (candidates.*1).
Proof.
  induction candidates as [| [name keywords] rest IH]; cbn [match_topics]; [done |].
  cbv zeta. destruct (0 <? _)%nat; simpl.
  - by apply sublist_skip.
  - by apply sublist_cons.
Qed.

Lemma match_topics_elem lowerText candidates t :
  t ∈ match_topics lowerText candidates ↔
  ∃ name keywords,
    (name, keywords) ∈ candidates ∧
    List.filter (fun kw => includes lowerText kw) keywords ≠ [] ∧
    t = {| Topic.name := name;
           Topic.confidence :=
             Qmin (Qnat (length (List.filter (fun kw => includes lowerText kw) keywords)) / 3) 1;
           Topic.matchedKeywords := List.filter (fun kw => includes lowerText kw) keywords |}.
Proof.
  induction candidates as [| [name keywords] rest IH]; cbn [match_topics].
  - split; [by intros ?%elem_of_nil | by intros (? & ? & ?%elem_of_nil & _)].
  - cbv zeta. destruct (List.filter _ keywords) as [| kw matches] eqn:E; simpl.
    + rewrite IH. split.
      * intros (n & k & Hin & Hne & ->). exists n, k. split; [by right | done].
      * intros (n & k & Hin & Hne & ->). exists n, k.
        apply elem_of_cons in Hin as [[= -> ->] | Hin]; [congruence | done].
    + rewrite elem_of_cons, IH. split.
      * intros [-> | (n & k & Hin & Hne & ->)].
        -- exists name, keywords. rewrite E. split; [by left | done].
        -- exists n, k. split; [by right | done].
      * intros (n & k & Hin & Hne & ->).
        apply elem_of_cons in Hin as [[= -> ->] | Hin].
        -- left. by rewrite E.
        -- right. by exists n, k.
Qed.

Lemma assoc_unique {A} (l : list (string * A)) name x y :
  NoDup (l.*1) → (name, x) ∈ l → (name, y) ∈ l → x = y.
Proof.
  induction l as [| [n k] l IH]; intros Hl H1 H2; [by apply elem_of_nil in H1 |].
  simpl in Hl. apply NoDup_cons in Hl as [Hn Hl].
  apply elem_of_cons in H1 as [H1 | H1]; apply elem_of_cons in H2 as [H2 | H2].
  - congruence.
  - exfalso. apply Hn. apply list_elem_of_fmap. exists (name, y).
    split; [simpl; congruence | done].
  - exfalso. apply Hn. apply list_elem_of_fmap. exists (name, x).
    split; [simpl; congruence | done].
  - by apply IH.
Qed.

Lemma possibleTopics_names :
  possibleTopics.*1 = ["technologie"; "politique"; "sport"; "divertissement"; "santé"].
Proof. reflexivity. Qed.

Lemma filter_true_elem (f : jsstring → bool) l kw :
  kw ∈ List.filter f l ↔ kw ∈ l ∧ f kw = true.
Proof.
  rewrite !list_elem_of_In. apply filter_In.
Qed.

Lemma confidence_bounds k :
  (0 < k)%nat → (0 < Qmin (Qnat k / 3) 1)%Q ∧ (Qmin (Qnat k / 3) 1 <= 1)%Q.
Proof.
  intros Hk. split; [| apply Q.le_min_r].
  apply Q.min_glb_lt; [| done].
  apply Qlt_shift_div_l; [done |].
  unfold Qlt, Qmult, Qnat, inject_Z; simpl; lia.
Qed.

(** X21: for a text in Basic Latin and Latin-1, the topics are ranked by
    confidence, highest first.  There is at most one per candidate topic,
    five at most; each reports exactly the keywords of its topic that
    occur in the lower-cased text, at least one, with a confidence of a
    third per keyword capped at 1; and a candidate topic is reported
    exactly when one of its keywords occurs. *)
Theorem topics_are_ranked (text : jsstring) :
  latin1 text →
  let ts := extract_topics text in
  StronglySorted (λ a b, (Topic.confidence b <= Topic.confidence a)%Q) ts ∧
  NoDup (Topic.name <$> ts) ∧ (length ts ≤ 5)%nat ∧
  (∀ t, t ∈ ts →
     ∃ keywords,
       (Topic.name t, keywords) ∈ possibleTopics ∧
       Topic.matchedKeywords t ≠ [] ∧
       (∀ kw, kw ∈ Topic.matchedKeywords t ↔
              kw ∈ keywords ∧ includes (toLowerCase text) kw = true) ∧
       Topic.confidence t = Qmin (Qnat (length (Topic.matchedKeywords t)) / 3) 1 ∧
       (0 < Topic.confidence t)%Q ∧ (Topic.confidence t <= 1)%Q) ∧
  (∀ name keywords,
     (name, keywords) ∈ possibleTopics →
     (∃ t, t ∈ ts ∧ Topic.name t = name) ↔
     (∃ kw, kw ∈ keywords ∧ includes (toLowerCase text) kw = true)).
Proof.
  intros _ ts. subst ts. unfold extract_topics.
  pose proof (match_topics_names (toLowerCase text) possibleTopics) as Hsub.
  assert (Hnd : NoDup (possibleTopics.*1)).
  { rewrite possibleTopics_names. apply NoDup_ListNoDup.
    repeat (constructor; [by vm_compute; intuition discriminate |]). constructor. }
  split; [apply sort_topics_sorted |].
  split; [| split; [| split]].
  - rewrite sort_topics_perm. by eapply sublist_NoDup.
  - rewrite sort_topics_perm. apply sublist_length in Hsub.
    rewrite length_fmap in Hsub. etrans; [exact Hsub |].
    by rewrite possibleTopics_names.
  - intros t Ht. rewrite sort_topics_perm in Ht.
    apply match_topics_elem in Ht as (name & keywords & Hin & Hne & ->).
    exists keywords. cbn [Topic.name Topic.matchedKeywords Topic.confidence].
    split; [done |]. split; [done |].
    split; [intros kw; apply filter_true_elem |]. split; [done |].
    apply confidence_bounds.
    destruct (List.filter _ keywords); [done | simpl; lia].
  - intros name keywords Hin. split.
    + intros (t & Ht & Hname). rewrite sort_topics_perm in Ht.
      apply match_topics_elem in Ht as (name' & keywords' & Hin' & Hne & ->).
      cbn [Topic.name] in Hname. subst name'.
      assert (keywords' = keywords) as -> by (by eapply assoc_unique).
      destruct (List.filter _ keywords) as [| kw l] eqn:E; [done |].
      exists kw.
      apply (proj1 (filter_true_elem (fun kw => includes (toLowerCase text) kw) keywords kw)).
      rewrite E. by left.
    + intros (kw & Hkw & Hinc). eexists. split.
      * rewrite sort_topics_perm. apply match_topics_elem.
        exists name, keywords. split; [done |]. split; [| reflexivity].
        intros E. assert (H : kw ∈ List.filter (fun kw => includes (toLowerCase text) kw) keywords)
          by (by apply filter_true_elem).
        rewrite E in H. by apply elem_of_nil in H.
      * reflexivity.
Qed.

Lemma topics_are_ranked_witness :
  latin1 (lit "Un match de football à la télé") ∧
  ∃ t, t ∈ extract_topics (lit "Un match de football à la télé") ∧ Topic.name t = "sport".
Proof.
  split; [reflexivity |].
  destruct (topics_are_ranked (lit "Un match de football à la télé") eq_refl)
    as (_ & _ & _ & _ & Hreported).
  apply (Hreported "sport"
           (map lit ["sport"; "football"; "tennis"; "match"; "équipe"; "championnat";
                     "olympique"; "joueur"])).
  - right. right. left.
  - exists (lit "match"). split; [| reflexivity].
    right. right. right. left.
Defined.

End TopicFacts.

(** ** Post analysis: hashtags and trends *)

Section PostFacts.
Import TextAnalysis PostAnalysis.

Lemma word_prefix_split s :
  ∃ post, s = word_prefix s ++ post ∧ word_prefix post = [].
Proof.
  induction s as [| c s (post & IH & Hpost)]; simpl.
  - by exists [].
  - destruct (is_word_char c) eqn:E.
    + exists post. split; [cbn [app]; f_equal; exact IH | done].
    + exists (c :: s). split; [done |]. simpl. by rewrite E.
Qed.

Lemma word_prefix_word s : Forall (λ c, is_word_char c = true) (word_prefix s).
Proof.
  induction s as [| c s IH]; simpl; [constructor |].
  destruct (is_word_char c) eqn:E; by constructor.
Qed.

Lemma extract_hashtags_cons c rest :
  extract_hashtags (c :: rest) =
    if ((c =? 35)%N && negb (bool_decide (word_prefix rest = [])))
    then {| hashtag_match := c :: word_prefix rest; hashtag_text := word_prefix rest |}
           :: extract_hashtags rest
    else extract_hashtags rest.
Proof.
  cbn [extract_hashtags]. destruct (c =? 35)%N; [| done].
  by destruct (word_prefix rest).
Qed.

(** X22: every extracted hashtag is a [#] followed by a non-empty run of
    letters, digits and underscores, which is its [text]; it stands in
    the post as matched, and the run is the longest one: what follows it
    does not start with a word character.  There are no more hashtags
    than [#] signs in the post. *)
Theorem hashtags_are_word_runs (text : jsstring) :
  (∀ h, h ∈ extract_hashtags text →
     hashtag_match h = 35%N :: hashtag_text h ∧
     hashtag_text h ≠ [] ∧
     Forall (λ c, is_word_char c = true) (hashtag_text h) ∧
     ∃ pre post, text = pre ++ hashtag_match h ++ post ∧ word_prefix post = []) ∧
  (length (extract_hashtags text) ≤ occurrences 35 text)%nat.
Proof.
  split.
  - induction text as [| c rest IH]; intros h Hh; [by apply elem_of_nil in Hh |].
    rewrite extract_hashtags_cons in Hh.
    assert (Hrest : h ∈ extract_hashtags rest →
      hashtag_match h = 35%N :: hashtag_text h ∧ hashtag_text h ≠ [] ∧
      Forall (λ c, is_word_char c = true) (hashtag_text h) ∧
      ∃ pre post, c :: rest = pre ++ hashtag_match h ++ post ∧ word_prefix post = []).
    { intros H. destruct (IH h H) as (H1 & H2 & H3 & pre & post & -> & H4).
      repeat split; try done. by exists (c :: pre), post. }
    destruct (N.eqb_spec c 35) as [-> | Hc]; simpl in Hh; [| by apply Hrest].
    case_bool_decide as Hw; simpl in Hh; [by apply Hrest |].
    apply elem_of_cons in Hh as [-> | Hh]; [| by apply Hrest].
    cbn [hashtag_match hashtag_text]. split; [done |]. split; [done |].
    split; [apply word_prefix_word |].
    destruct (word_prefix_split rest) as (post & Hsplit & Hpost).
    exists [], post. split; [| done]. simpl. by rewrite <- Hsplit.
  - unfold occurrences. induction text as [| c rest IH]; [done |].
    rewrite extract_hashtags_cons. cbn [List.filter].
    destruct (c =? 35)%N; simpl; [| done].
    case_bool_decide; simpl; lia.
Qed.

(** X23: no hashtag is missed: wherever a [#] is followed by a letter,
    digit or underscore, a hashtag is extracted whose text is the whole
    run of such characters starting there. *)
Theorem hashtags_are_all_found (pre post : jsstring) (c : N) :
  is_word_char c = true →
  {| hashtag_match := 35%N :: word_prefix (c :: post);
     hashtag_text := word_prefix (c :: post) |}
    ∈ extract_hashtags (pre ++ 35%N :: c :: post).
Proof.
  intros Hc. induction pre as [| d pre IH].
  - cbn [app]. rewrite extract_hashtags_cons. cbn [N.eqb Pos.eqb andb].
    rewrite bool_decide_false by (simpl; by rewrite Hc). by left.
  - cbn [app]. rewrite extract_hashtags_cons. destruct (_ && _); [by right | done].
Qed.

Lemma hashtags_are_all_found_witness :
  {| hashtag_match := lit "#web3"; hashtag_text := lit "web3" |}
    ∈ extract_hashtags (lit "Vive le #web3!").
Proof.
  apply (hashtags_are_all_found (lit "Vive le ") (lit "eb3!") 119%N). reflexivity.
Defined.

Lemma insert_trend_perm x l : insert_trend x l ≡ₚ x :: l.
Proof.
  induction l as [| y l IH]; simpl; [done |].
  destruct (Qgtb _ _); [| done].
  rewrite IH. apply Permutation_swap.
Qed.

Lemma sort_trends_perm l : sort_trends l ≡ₚ l.
Proof.
  induction l as [| x l IH]; simpl; [done |].
  by rewrite insert_trend_perm, IH.
Qed.

Lemma insert_trend_sorted x l :
  StronglySorted (λ a b, (relevance b <= relevance a)%Q) l →
  StronglySorted (λ a b, (relevance b <= relevance a)%Q) (insert_trend x l).
Proof.
  induction 1 as [| y l Hl IH Hy]; simpl.
  - repeat constructor.
  - destruct (Qgtb (relevance y) (relevance x)) eqn:E.
    + constructor; [done |].
      apply Forall_forall. intros z Hz.
      rewrite insert_trend_perm in Hz. apply elem_of_cons in Hz as [-> | Hz].
      * by apply Qgtb_true.
      * by apply (proj1 (Forall_forall _ _) Hy).
    + apply Qgtb_false in E. constructor; [by constructor |].
      constructor; [done |].
      apply Forall_forall. intros z Hz.
      apply (Qle_trans _ (relevance y)); [| done].
      by apply (proj1 (Forall_forall _ _) Hy).
Qed.

Lemma sort_trends_sorted l :
  StronglySorted (λ a b, (relevance b <= relevance a)%Q) (sort_trends l).
Proof.
  induction l as [| x l IH]; simpl; [constructor | by apply insert_trend_sorted].
Qed.

Lemma match_trends_names lowerText candidates :
  sublist (trend_name <$> match_trends lowerText candidates) (candidates.*1).
Proof.
  induction candidates as [| [name keywords] rest IH]; cbn [match_trends]; [done |].
  cbv zeta. destruct (0 <? _)%nat; simpl.
  - by apply sublist_skip.
  - by apply sublist_cons.
Qed.

Lemma match_trends_elem lowerText candidates t :
  t ∈ match_trends lowerText candidates ↔
  ∃ name keywords,
    (name, keywords) ∈ candidates ∧
    List.filter (fun kw => includes lowerText kw) keywords ≠ [] ∧
    t = {| trend_name := name;
           relevance :=
             Qmin (Qnat (length (List.filter (fun kw => includes lowerText kw) keywords))
                   / Qnat (length keywords) * 2) 1;
           trend_matchedKeywords := List.filter (fun kw => includes lowerText kw) keywords |}.
Proof.
  induction candidates as [| [name keywords] rest IH]; cbn [match_trends].
  - split; [by intros ?%elem_of_nil | by intros (? & ? & ?%elem_of_nil & _)].
  - cbv zeta. destruct (List.filter _ keywords) as [| kw matches] eqn:E; simpl.
    + rewrite IH. split.
      * intros (n & k & Hin & Hne & ->). exists n, k. split; [by right | done].
      * intros (n & k & Hin & Hne & ->). exists n, k.
        apply elem_of_cons in Hin as [[= -> ->] | Hin]; [congruence | done].
    + rewrite elem_of_cons, IH. split.
      * intros [-> | (n & k & Hin & Hne & ->)].
        -- exists name, keywords. rewrite E. split; [by left | done].
        -- exists n, k. split; [by right | done].
      * intros (n & k & Hin & Hne & ->).
        apply elem_of_cons in Hin as [[= -> ->] | Hin].
        -- left. by rewrite E.
        -- right. by exists n, k.
Qed.

Lemma relevance_bounds k n :
  (0 < k)%nat → (k ≤ n)%nat →
  (0 < Qmin (Qnat k / Qnat n * 2) 1)%Q ∧ (Qmin (Qnat k / Qnat n * 2) 1 <= 1)%Q ∧
  (Qmin (Qnat k / Qnat n * 2) 1 == 1 ↔ (n ≤ 2 * k)%nat)%Q.
Proof.
  intros Hk Hn.
  assert (Hpos : (0 < Qnat n)%Q)
    by (unfold Qlt, Qnat, inject_Z; simpl; lia).
  assert (Hrw : (Qnat k / Qnat n * 2 == Qnat k * 2 / Qnat n)%Q).
  { field. intros H0. rewrite H0 in Hpos. by apply Qlt_irrefl in Hpos. }
  rewrite Hrw.
  assert (Hhalf : (1 <= Qnat k * 2 / Qnat n ↔ (n ≤ 2 * k)%nat)%Q).
  { split.
    - intros H. destruct (decide (n ≤ 2 * k)%nat) as [| Hno]; [done |]. exfalso.
      apply (Qle_not_lt _ _ H).
      apply Qlt_shift_div_r; [done |].
      unfold Qlt, Qmult, Qnat, inject_Z; simpl; lia.
    - intros H.
      apply Qle_shift_div_l; [done |].
      unfold Qle, Qmult, Qnat, inject_Z; simpl; lia. }
  split; [| split; [apply Q.le_min_r |]].
  - apply Q.min_glb_lt; [| done].
    apply Qlt_shift_div_l; [done |].
    unfold Qlt, Qmult, Qnat, inject_Z; simpl; lia.
  - rewrite <- Hhalf. split.
    + intros H. rewrite <- H. apply Q.le_min_l.
    + intros H. by apply Q.min_r.
Qed.

Lemma filter_length_le (f : jsstring → bool) l : (length (List.filter f l) ≤ length l)%nat.
Proof.
  induction l as [| x l IH]; simpl; [done |]. destruct (f x); simpl; lia.
Qed.

(** X24: for a post in Basic Latin and Latin-1, detected trends are
    ranked by relevance, highest first, and the
    top trend is the first of them, or absent exactly when no keyword of
    any current trend occurs in the lower-cased post; no other detected
    trend is more relevant than the top one.  The count is the number of
    detected trends, at most four.  Each trend reports the keywords of
    its list that occur, with a relevance in (0, 1] that reaches 1
    exactly when at least half of the trend's keywords occur. *)
Theorem trends_are_ranked (text : jsstring) :
  latin1 text →
  let d := detect_trends text in
  StronglySorted (λ a b, (relevance b <= relevance a)%Q) (matchedTrends d) ∧
  trendingTopicCount d = length (matchedTrends d) ∧ (trendingTopicCount d ≤ 4)%nat ∧
  topTrend d = head (matchedTrends d) ∧
  (∀ top, topTrend d = Some top →
     ∀ t, t ∈ matchedTrends d → (relevance t <= relevance top)%Q) ∧
  (topTrend d = None ↔
   ∀ name keywords kw, (name, keywords) ∈ currentTrends → kw ∈ keywords →
                       includes (toLowerCase text) kw = false) ∧
  (∀ t, t ∈ matchedTrends d →
     ∃ keywords,
       (trend_name t, keywords) ∈ currentTrends ∧
       (∀ kw, kw ∈ trend_matchedKeywords t ↔
              kw ∈ keywords ∧ includes (toLowerCase text) kw = true) ∧
       (0 < relevance t)%Q ∧ (relevance t <= 1)%Q ∧
       (relevance t == 1 ↔ (length keywords ≤ 2 * length (trend_matchedKeywords t))%nat)%Q).
Proof.
  intros _ d. subst d. unfold detect_trends. cbv zeta.
  cbn [matchedTrends trendingTopicCount topTrend].
  pose proof (sort_trends_sorted (match_trends (toLowerCase text) currentTrends)) as Hsorted.
  pose proof (sort_trends_perm (match_trends (toLowerCase text) currentTrends)) as Hperm.
  revert Hsorted Hperm.
  generalize (sort_trends (match_trends (toLowerCase text) currentTrends)).
  intros sorted Hsorted Hperm.
  split; [done |]. split; [done |]. split; [| split; [done |]; split; [| split]].
  - rewrite Hperm.
    pose proof (match_trends_names (toLowerCase text) currentTrends) as Hsub.
    apply sublist_length in Hsub. by rewrite !length_fmap in Hsub.
  - intros top Htop t Ht. destruct sorted as [| x rest]; [done |].
    injection Htop as ->. apply StronglySorted_inv in Hsorted as [_ Hall].
    apply elem_of_cons in Ht as [-> | Ht]; [apply Qle_refl |].
    by apply (proj1 (Forall_forall _ _) Hall).
  - split.
    + intros Hnone name keywords kw Hin Hkw.
      destruct sorted; [| done].
      destruct (includes (toLowerCase text) kw) eqn:E; [| done]. exfalso.
      assert (Ht : ∃ t, t ∈ match_trends (toLowerCase text) currentTrends).
      { eexists. apply match_trends_elem. exists name, keywords.
        split; [done |]. split; [| reflexivity]. intros Hf.
        assert (H : kw ∈ List.filter (fun kw => includes (toLowerCase text) kw) keywords)
          by (by apply filter_true_elem).
        rewrite Hf in H. by apply elem_of_nil in H. }
      destruct Ht as [t Ht]. rewrite <- Hperm in Ht. by apply elem_of_nil in Ht.
    + intros Hno. destruct sorted as [| x rest]; [done |]. exfalso.
      assert (Hx : x ∈ match_trends (toLowerCase text) currentTrends)
        by (rewrite <- Hperm; by left).
      apply match_trends_elem in Hx as (name & keywords & Hin & Hne & _).
      destruct (List.filter _ keywords) as [| kw l] eqn:E; [done |].
      assert (H : kw ∈ List.filter (fun kw => includes (toLowerCase text) kw) keywords)
        by (rewrite E; by left).
      apply filter_true_elem in H as [Hkw Hinc].
      by rewrite (Hno name keywords kw Hin Hkw) in Hinc.
  - intros t Ht. rewrite Hperm in Ht.
    apply match_trends_elem in Ht as (name & keywords & Hin & Hne & ->).
    exists keywords. cbn [trend_name trend_matchedKeywords relevance].
    split; [done |]. split; [intros kw; apply filter_true_elem |].
    apply relevance_bounds; [| apply filter_length_le].
    destruct (List.filter _ keywords); [done | simpl; lia].
Qed.

Lemma trends_are_ranked_witness :
  latin1 (lit "Le Bitcoin, la blockchain et les médailles des JO") ∧
  trendingTopicCount (detect_trends (lit "Le Bitcoin, la blockchain et les médailles des JO"))
    = 3 ∧
  ∃ top, topTrend (detect_trends (lit "Le Bitcoin, la blockchain et les médailles des JO"))
           = Some top ∧
         trend_name top = "Jeux Olympiques" ∧
         Forall (λ t, (relevance t <= relevance top)%Q)
           (matchedTrends
              (detect_trends (lit "Le Bitcoin, la blockchain et les médailles des JO"))).
Proof.
  split; [reflexivity |]. split; [reflexivity |].
  destruct (trends_are_ranked (lit "Le Bitcoin, la blockchain et les médailles des JO")
              eq_refl) as (_ & _ & _ & _ & Htop & _).
  eexists. split; [reflexivity |]. split; [reflexivity |].
  apply Forall_forall. intros t Ht. apply (Htop _ eq_refl t Ht).
Defined.

End PostFacts.
(** ** The express server *)

Section ServerFacts.
Import Server.
Variables h1 h2 h3 h4 : handler_fn.

Lemma settled_pair {S A} (m : S * outcome A) (a : A) (P : S → Prop) :
  snd m = Ret a → P (fst m) → ∃ s', m = (s', Ret a) ∧ P s'.
Proof. destruct m as [s' o]. simpl. intros -> HP. by exists s'. Qed.

Lemma contentAnalysis_start_total (a : ContentAnalysisAgent.agent) :
  ∃ a', ContentAnalysisAgent.start h1 h2 h3 h4 a = (a', Ret tt) ∧
        BaseAgent.running a' = true.
Proof.
  apply settled_pair; destruct a as [? ? ? [] ? ? ? ?]; reflexivity.
Qed.

Lemma contentAnalysis_stop_total (a : ContentAnalysisAgent.agent) :
  ∃ a', ContentAnalysisAgent.stop a = (a', Ret tt) ∧ BaseAgent.running a' = false.
Proof.
  apply settled_pair; destruct a as [? ? ? [] ? ? ? [[] ? ?]]; reflexivity.
Qed.

Lemma twitter_start_total (a : TwitterAgent.agent) :
  ∃ a', TwitterAgent.start a = (a', Ret tt) ∧ BaseAgent.running a' = true.
Proof.
  apply settled_pair; destruct a as [? ? ? [] ? ? ? ?]; reflexivity.
Qed.

Lemma twitter_stop_total (a : TwitterAgent.agent) :
  ∃ a', TwitterAgent.stop a = (a', Ret tt) ∧ BaseAgent.running a' = false.
Proof.
  apply settled_pair; destruct a as [? ? ? [] ? ? ? ?]; reflexivity.
Qed.

Lemma startAgent_contentAnalysis s :
  ∃ a' : ContentAnalysisAgent.agent, BaseAgent.running a' = true ∧
    startAgent h1 h2 h3 h4 "contentAnalysis" s =
      ({| contentAnalysis := a'; twitter := twitter s;
          agentStatus := <["contentAnalysis" := true]> (agentStatus s);
          log := log s ++ [{| lvl := Info; msg := "Agent contentAnalysis démarré" |}] |},
       Ret true).
Proof.
  destruct (contentAnalysis_start_total (contentAnalysis s)) as (a' & E & Hr).
  exists a'. split; [done |].
  unfold startAgent. change (agents_lookup "contentAnalysis") with (Some ContentAnalysis).
  unfold try_catch, bind, agent_start, on_contentAnalysis. rewrite E. reflexivity.
Qed.

Lemma startAgent_twitter s :
  ∃ a' : TwitterAgent.agent, BaseAgent.running a' = true ∧
    startAgent h1 h2 h3 h4 "twitter" s =
      ({| contentAnalysis := contentAnalysis s; twitter := a';
          agentStatus := <["twitter" := true]> (agentStatus s);
          log := log s ++ [{| lvl := Info; msg := "Agent twitter démarré" |}] |},
       Ret true).
Proof.
  destruct (twitter_start_total (twitter s)) as (a' & E & Hr).
  exists a'. split; [done |].
  unfold startAgent. change (agents_lookup "twitter") with (Some Twitter).
  unfold try_catch, bind, agent_start, on_twitter. rewrite E. reflexivity.
Qed.

Lemma stopAgent_contentAnalysis s :
  ∃ a' : ContentAnalysisAgent.agent, BaseAgent.running a' = false ∧
    stopAgent "contentAnalysis" s =
      ({| contentAnalysis := a'; twitter := twitter s;
          agentStatus := <["contentAnalysis" := false]> (agentStatus s);
          log := log s ++ [{| lvl := Info; msg := "Agent contentAnalysis arrêté" |}] |},
       Ret true).
Proof.
  destruct (contentAnalysis_stop_total (contentAnalysis s)) as (a' & E & Hr).
  exists a'. split; [done |].
  unfold stopAgent. change (agents_lookup "contentAnalysis") with (Some ContentAnalysis).
  unfold try_catch, bind, agent_stop, on_contentAnalysis. rewrite E. reflexivity.
Qed.

Lemma stopAgent_twitter s :
  ∃ a' : TwitterAgent.agent, BaseAgent.running a' = false ∧
    stopAgent "twitter" s =
      ({| contentAnalysis := contentAnalysis s; twitter := a';
          agentStatus := <["twitter" := false]> (agentStatus s);
          log := log s ++ [{| lvl := Info; msg := "Agent twitter arrêté" |}] |},
       Ret true).
Proof.
  destruct (twitter_stop_total (twitter s)) as (a' & E & Hr).
  exists a'. split; [done |].
  unfold stopAgent. change (agents_lookup "twitter") with (Some Twitter).
  unfold try_catch, bind, agent_stop, on_twitter. rewrite E. reflexivity.
Qed.

Lemma agents_lookup_other name :
  name ≠ "contentAnalysis" → name ≠ "twitter" →
  agents_lookup name = if bool_decide (name ∈ object_prototype_names)
                       then Some Inherited else None.
Proof.
  intros H1 H2. unfold agents_lookup.
  destruct (String.eqb_spec name "contentAnalysis"); [done |].
  destruct (String.eqb_spec name "twitter"); [done |]. done.
Qed.

Lemma startAgent_other s name :
  name ≠ "contentAnalysis" → name ≠ "twitter" →
  startAgent h1 h2 h3 h4 name s =
    if bool_decide (name ∈ object_prototype_names)
    then ({| contentAnalysis := contentAnalysis s; twitter := twitter s;
             agentStatus := agentStatus s;
             log := log s ++ [{| lvl := Error;
                                 msg := "Erreur lors du démarrage de l'agent " +:+ name
                                        +:+ ": " +:+ "agent.start is not a function" |}] |},
          Ret false)
    else (s, Ret false).
Proof.
  intros H1 H2. unfold startAgent. rewrite (agents_lookup_other name H1 H2).
  by case_bool_decide.
Qed.

Lemma stopAgent_other s name :
  name ≠ "contentAnalysis" → name ≠ "twitter" →
  stopAgent name s =
    if bool_decide (name ∈ object_prototype_names)
    then ({| contentAnalysis := contentAnalysis s; twitter := twitter s;
             agentStatus := agentStatus s;
             log := log s ++ [{| lvl := Error;
                                 msg := "Erreur lors de l'arrêt de l'agent " +:+ name
                                        +:+ ": " +:+ "agent.stop is not a function" |}] |},
          Ret false)
    else (s, Ret false).
Proof.
  intros H1 H2. unfold stopAgent. rewrite (agents_lookup_other name H1 H2).
  by case_bool_decide.
Qed.

Lemma mirrors_set_contentAnalysis s (a' : ContentAnalysisAgent.agent) b :
  status_mirrors_running s → BaseAgent.running a' = b →
  <["contentAnalysis" := b]> (agentStatus s) =
    {[ "contentAnalysis" := BaseAgent.running a';
       "twitter" := BaseAgent.running (twitter s) ]}.
Proof.
  unfold status_mirrors_running. intros -> ->. by rewrite insert_insert_eq.
Qed.

Lemma mirrors_set_twitter s (a' : TwitterAgent.agent) b :
  status_mirrors_running s → BaseAgent.running a' = b →
  <["twitter" := b]> (agentStatus s) =
    {[ "contentAnalysis" := BaseAgent.running (contentAnalysis s);
       "twitter" := BaseAgent.running a' ]}.
Proof.
  unfold status_mirrors_running. intros -> ->.
  rewrite insert_insert_ne by done. by rewrite insert_singleton_eq.
Qed.

Lemma startAgent_mirrors s name :
  status_mirrors_running s → status_mirrors_running (fst (startAgent h1 h2 h3 h4 name s)).
Proof.
  intros Hs. destruct (decide (name = "contentAnalysis")) as [-> | H1].
  { destruct (startAgent_contentAnalysis s) as (a' & Hr & E). rewrite E.
    unfold status_mirrors_running. cbn [fst agentStatus contentAnalysis twitter].
    by apply mirrors_set_contentAnalysis. }
  destruct (decide (name = "twitter")) as [-> | H2].
  { destruct (startAgent_twitter s) as (a' & Hr & E). rewrite E.
    unfold status_mirrors_running. cbn [fst agentStatus contentAnalysis twitter].
    by apply mirrors_set_twitter. }
  rewrite (startAgent_other s name H1 H2). by case_bool_decide.
Qed.

Lemma stopAgent_mirrors s name :
  status_mirrors_running s → status_mirrors_running (fst (stopAgent name s)).
Proof.
  intros Hs. destruct (decide (name = "contentAnalysis")) as [-> | H1].
  { destruct (stopAgent_contentAnalysis s) as (a' & Hr & E). rewrite E.
    unfold status_mirrors_running. cbn [fst agentStatus contentAnalysis twitter].
    by apply mirrors_set_contentAnalysis. }
  destruct (decide (name = "twitter")) as [-> | H2].
  { destruct (stopAgent_twitter s) as (a' & Hr & E). rewrite E.
    unfold status_mirrors_running. cbn [fst agentStatus contentAnalysis twitter].
    by apply mirrors_set_twitter. }
  rewrite (stopAgent_other s name H1 H2). by case_bool_decide.
Qed.

Lemma valid_agent_cases agent :
  agent ∈ ["twitter"; "contentAnalysis"] → agent = "twitter" ∨ agent = "contentAnalysis".
Proof.
  intros H. apply elem_of_cons in H as [-> | H]; [by left |].
  apply elem_of_cons in H as [-> | H]; [by right | by apply elem_of_nil in H].
Qed.

Lemma valid_action_cases action :
  action ∈ ["start"; "stop"] → action = "start" ∨ action = "stop".
Proof.
  intros H. apply elem_of_cons in H as [-> | H]; [by left |].
  apply elem_of_cons in H as [-> | H]; [by right | by apply elem_of_nil in H].
Qed.

(** What the action route does for a valid agent and action. *)
Lemma agents_action_valid s agent action :
  agent ∈ ["twitter"; "contentAnalysis"] → action ∈ ["start"; "stop"] →
  ∃ s',
    agents_action h1 h2 h3 h4 agent action s =
      (s', Ret {| status := 200;
                  body := VObj [("success", VBool true);
                                ("status", VBool (String.eqb action "start"))] |}) ∧
    s' = fst (if String.eqb action "start" then startAgent h1 h2 h3 h4 agent s
              else stopAgent agent s) ∧
    agentStatus s' !! agent = Some (String.eqb action "start") ∧
    (∃ ref, agents_lookup agent = Some ref ∧
            running_of ref s' = Some (String.eqb action "start")).
Proof.
  intros Hagent Haction. unfold agents_action.
  rewrite (bool_decide_true _ Hagent), (bool_decide_true _ Haction). cbn [negb].
  unfold try_catch, bind, gets, ret.
  apply valid_agent_cases in Hagent as [-> | ->];
    apply valid_action_cases in Haction as [-> | ->].
  - change (String.eqb "start" "start") with true. cbv iota.
    destruct (startAgent_twitter s) as (a' & Hr & E). rewrite !E.
    cbn [fst snd agentStatus]. rewrite lookup_insert_eq.
    eexists. split; [reflexivity |]. split; [reflexivity |].
    split; [apply lookup_insert_eq |].
    exists Twitter. split; [reflexivity |]. simpl. by rewrite Hr.
  - change (String.eqb "stop" "start") with false. cbv iota.
    destruct (stopAgent_twitter s) as (a' & Hr & E). rewrite !E.
    cbn [fst snd agentStatus]. rewrite lookup_insert_eq.
    eexists. split; [reflexivity |]. split; [reflexivity |].
    split; [apply lookup_insert_eq |].
    exists Twitter. split; [reflexivity |]. simpl. by rewrite Hr.
  - change (String.eqb "start" "start") with true. cbv iota.
    destruct (startAgent_contentAnalysis s) as (a' & Hr & E). rewrite !E.
    cbn [fst snd agentStatus]. rewrite lookup_insert_eq.
    eexists. split; [reflexivity |]. split; [reflexivity |].
    split; [apply lookup_insert_eq |].
    exists ContentAnalysis. split; [reflexivity |]. simpl. by rewrite Hr.
  - change (String.eqb "stop" "start") with false. cbv iota.
    destruct (stopAgent_contentAnalysis s) as (a' & Hr & E). rewrite !E.
    cbn [fst snd agentStatus]. rewrite lookup_insert_eq.
    eexists. split; [reflexivity |]. split; [reflexivity |].
    split; [apply lookup_insert_eq |].
    exists ContentAnalysis. split; [reflexivity |]. simpl. by rewrite Hr.
Qed.

Lemma agents_action_rejected s agent action :
  agent ∉ ["twitter"; "contentAnalysis"] ∨ action ∉ ["start"; "stop"] →
  ∃ resp, agents_action h1 h2 h3 h4 agent action s = (s, Ret resp) ∧
          (status resp = 404 ∨ status resp = 400).
Proof.
  intros H. unfold agents_action.
  case_bool_decide as Hagent; cbn [negb]; [| eexists; split; [reflexivity | by left]].
  case_bool_decide as Haction; cbn [negb]; [| eexists; split; [reflexivity | by right]].
  by destruct H.
Qed.

(** The routes other than the action route touch neither the agents nor
    [agentStatus]. *)
Lemma other_routes_same_agents s r :
  (∀ agent action, r ≠ AgentsAction agent action) →
  same_agents s (fst (handle h1 h2 h3 h4 r s)).
Proof.
  intros Hr. destruct r as [agent action | q count | username | username count | text];
    [by destruct (Hr agent action) | | | |]; cbn [handle].
  - unfold twitter_search. destruct (js_truthy q); cbn [negb]; [| done].
    unfold try_catch, bind, active, gets.
    by destruct (agentStatus s !! "twitter") as [[] |].
  - unfold twitter_user, try_catch, bind, active, gets.
    by destruct (agentStatus s !! "twitter") as [[] |].
  - unfold twitter_timeline, try_catch, bind, active, gets.
    by destruct (agentStatus s !! "twitter") as [[] |].
  - unfold content_analysis_analyze. destruct (js_truthy text); cbn [negb]; [| done].
    unfold try_catch, bind, active, gets.
    by destruct (agentStatus s !! "contentAnalysis") as [[] |].
Qed.

Lemma same_agents_mirrors s s' :
  same_agents s s' → status_mirrors_running s → status_mirrors_running s'.
Proof.
  unfold same_agents, status_mirrors_running. intros (-> & -> & ->). done.
Qed.

Lemma handle_mirrors s r :
  status_mirrors_running s → status_mirrors_running (fst (handle h1 h2 h3 h4 r s)).
Proof.
  intros Hs.
  destruct r as [agent action | q count | username | username count | text];
    try (apply (same_agents_mirrors s); [| done];
         apply other_routes_same_agents; intros; discriminate).
  cbn [handle].
  destruct (decide (agent ∈ ["twitter"; "contentAnalysis"])) as [Hagent | Hagent].
  - destruct (decide (action ∈ ["start"; "stop"])) as [Haction | Haction].
    + destruct (agents_action_valid s agent action Hagent Haction)
        as (s' & -> & -> & _). cbn [fst].
      destruct (String.eqb action "start");
        [by apply startAgent_mirrors | by apply stopAgent_mirrors].
    + destruct (agents_action_rejected s agent action (or_intror Haction))
        as (resp & -> & _). done.
  - destruct (agents_action_rejected s agent action (or_introl Hagent))
      as (resp & -> & _). done.
Qed.

(** X25: the status the server reports for its two agents is their
    running flag: after any sequence of requests, and of calls of
    [startAgent] and [stopAgent] with any names, [agentStatus] holds
    exactly the two keys, each with the [running] flag of its agent. *)
Theorem agent_status_mirrors_running (s : Server.t) :
  reachable h1 h2 h3 h4 s → status_mirrors_running s.
Proof.
  induction 1 as [| s r _ IH | s name _ IH | s name _ IH].
  - reflexivity.
  - by apply handle_mirrors.
  - by apply startAgent_mirrors.
  - by apply stopAgent_mirrors.
Qed.

(** X26: the action route always answers.  For an agent other than
    [twitter] and [contentAnalysis] it answers 404, for an action other
    than [start] and [stop] 400, and changes nothing; otherwise it
    answers 200 with [success: true], also when the agent was already in
    the state asked for, and the status reported, the status stored and
    the agent's running flag are all true after [start] and false after
    [stop]. *)
Theorem agents_action_answers (s : Server.t) (agent action : string) :
  ∃ s' resp,
    agents_action h1 h2 h3 h4 agent action s = (s', Ret resp) ∧
    (agent ∉ ["twitter"; "contentAnalysis"] → status resp = 404 ∧ s' = s) ∧
    (agent ∈ ["twitter"; "contentAnalysis"] → action ∉ ["start"; "stop"] →
     status resp = 400 ∧ s' = s) ∧
    (agent ∈ ["twitter"; "contentAnalysis"] → action ∈ ["start"; "stop"] →
     resp = {| status := 200;
               body := VObj [("success", VBool true);
                             ("status", VBool (String.eqb action "start"))] |} ∧
     agentStatus s' !! agent = Some (String.eqb action "start") ∧
     ∃ ref, agents_lookup agent = Some ref ∧
            running_of ref s' = Some (String.eqb action "start")).
Proof.
  destruct (decide (agent ∈ ["twitter"; "contentAnalysis"])) as [Hagent | Hagent].
  - destruct (decide (action ∈ ["start"; "stop"])) as [Haction | Haction].
    + destruct (agents_action_valid s agent action Hagent Haction)
        as (s' & E & _ & Hst & Href).
      eexists s', _. split; [exact E |]. split; [done |]. split; [done |]. done.
    + unfold agents_action.
      rewrite (bool_decide_true _ Hagent), (bool_decide_false _ Haction). cbn [negb].
      eexists s, _. split; [reflexivity |]. split; [done |]. split; [done |]. done.
  - unfold agents_action. rewrite (bool_decide_false _ Hagent). cbn [negb].
    eexists s, _. split; [reflexivity |]. split; [done |]. split; [done |]. done.
Qed.

(** X27: [startAgent] and [stopAgent] answer [false] for every name
    other than the two agents' and leave the agents and their status as
    they are.  For a name that objects inherit from [Object.prototype]
    the lookup [agents[name]] succeeds and the failing call is caught and
    logged as an error; for any other name nothing is logged. *)
Theorem unknown_agent_names (s : Server.t) (name : string) :
  name ≠ "contentAnalysis" → name ≠ "twitter" →
  snd (startAgent h1 h2 h3 h4 name s) = Ret false ∧
  snd (stopAgent name s) = Ret false ∧
  same_agents s (fst (startAgent h1 h2 h3 h4 name s)) ∧
  same_agents s (fst (stopAgent name s)) ∧
  (name ∉ object_prototype_names →
   fst (startAgent h1 h2 h3 h4 name s) = s ∧ fst (stopAgent name s) = s) ∧
  (name ∈ object_prototype_names →
   log (fst (startAgent h1 h2 h3 h4 name s)) =
     log s ++ [{| lvl := Error;
                  msg := "Erreur lors du démarrage de l'agent " +:+ name
                         +:+ ": agent.start is not a function" |}] ∧
   log (fst (stopAgent name s)) =
     log s ++ [{| lvl := Error;
                  msg := "Erreur lors de l'arrêt de l'agent " +:+ name
                         +:+ ": agent.stop is not a function" |}]).
Proof.
  intros H1 H2.
  rewrite (startAgent_other s name H1 H2), (stopAgent_other s name H1 H2).
  case_bool_decide as Hp; cbn [fst snd log]; repeat split; done.
Qed.

(** X28: three routes call a method that no agent class defines, and so
    never deliver a result: the user and timeline routes answer 400 while
    the twitter agent is not active and 500 once it is, the analysis
    route answers 400 for a missing text or an inactive agent and 500
    otherwise, with the engine's "is not a function" message as error.
    The search route, whose method exists, answers 200 with an empty
    array once the twitter agent is active and a query is given.  None of
    the four changes an agent or its status. *)
Theorem routes_without_a_method (s : Server.t) (username : string) (q count text : value) :
  let is_active name := default false (agentStatus s !! name) in
  snd (twitter_user username s) =
    Ret (if is_active "twitter"
         then {| status := 500;
                 body := error_body "agents.twitter.getUserProfile is not a function" |}
         else {| status := 400; body := error_body "L'agent Twitter n'est pas actif" |}) ∧
  snd (twitter_timeline username count s) =
    Ret (if is_active "twitter"
         then {| status := 500;
                 body := error_body "agents.twitter.getUserTimeline is not a function" |}
         else {| status := 400; body := error_body "L'agent Twitter n'est pas actif" |}) ∧
  snd (content_analysis_analyze text s) =
    Ret (if negb (js_truthy text)
         then {| status := 400; body := error_body "Un texte est requis pour l'analyse" |}
         else if is_active "contentAnalysis"
         then {| status := 500;
                 body := error_body
                           "agents.contentAnalysis.analyzeContent is not a function" |}
         else {| status := 400;
                 body := error_body "L'agent d'analyse de contenu n'est pas actif" |}) ∧
  snd (twitter_search q count s) =
    Ret (if negb (js_truthy q)
         then {| status := 400; body := error_body "Un terme de recherche est requis" |}
         else if is_active "twitter"
         then {| status := 200; body := VArr [] |}
         else {| status := 400; body := error_body "L'agent Twitter n'est pas actif" |}) ∧
  (∀ r, (∀ agent action, r ≠ AgentsAction agent action) →
        same_agents s (fst (handle h1 h2 h3 h4 r s))).
Proof.
  intros is_active. subst is_active. cbv beta.
  split; [| split; [| split; [| split]]].
  - unfold twitter_user, try_catch, bind, active, gets.
    by destruct (agentStatus s !! "twitter") as [[] |].
  - unfold twitter_timeline, try_catch, bind, active, gets.
    by destruct (agentStatus s !! "twitter") as [[] |].
  - unfold content_analysis_analyze. destruct (js_truthy text); cbn [negb]; [| done].
    unfold try_catch, bind, active, gets.
    by destruct (agentStatus s !! "contentAnalysis") as [[] |].
  - unfold twitter_search. destruct (js_truthy q); cbn [negb]; [| done].
    unfold try_catch, bind, active, gets.
    by destruct (agentStatus s !! "twitter") as [[] |].
  - apply other_routes_same_agents.
Qed.

End ServerFacts.

Lemma agent_status_mirrors_running_witness :
  Server.status_mirrors_running
    (fst (Server.startAgent Ret Ret Ret Ret
            "twitter" Server.initial)).
Proof.
  apply (agent_status_mirrors_running Ret Ret Ret Ret).
  apply Server.reach_startAgent. apply Server.reach_initial.
Defined.

Lemma unknown_agent_names_witness :
  snd (Server.startAgent Ret Ret Ret Ret
         "toString" Server.initial) = Ret false.
Proof.
  apply (unknown_agent_names Ret Ret Ret Ret
           Server.initial "toString"); discriminate.
Defined.
(** ** Text analysis: what is kept of an analysis *)

Section StoredAnalysisFacts.
Import TextAnalysis.

Lemma preview_length text : (length (preview text) ≤ 103)%nat.
Proof.
  unfold preview. rewrite length_app, length_take.
  destruct (100 <? length text)%nat.
  - change (length (lit "...")) with 3%nat. lia.
  - change (length (@nil N)) with 0%nat. lia.
Qed.

Lemma preview_short text : (length text ≤ 100)%nat → preview text = text.
Proof.
  intros H. unfold preview. rewrite take_ge by done.
  destruct (Nat.ltb_spec 100 (length text)); [lia |]. by rewrite app_nil_r.
Qed.

Lemma analyzeText_settles e p store :
  ∃ r,
    analyzeText e p store =
      (<[env_analysisId e :=
           {| stored_type := "text"; stored_input := preview (text p);
              stored_options := make_opts (default default_options (params_options p));
              stored_result := r |}]> store,
       Ret (Content r)) ∧
    analysisId r = env_analysisId e ∧ textLength r = length (text p).
Proof. eexists. split; [reflexivity |]. split; reflexivity. Qed.

(** X29: every text analysis returns a content, never an error, and is
    kept under the id it reports, with the text cut to its first 100
    code units followed by "..." when it is longer (so at most 103 units,
    and the text itself when it has at most 100).  Of two analyses in a
    row both are kept when their ids differ; when the ids coincide the
    later one replaces the earlier.  No other entry of the store is
    touched. *)
Theorem analysis_is_stored (e1 e2 : env) (p1 p2 : params) (store : gmap string stored) :
  let s1 := fst (analyzeText e1 p1 store) in
  let s2 := fst (analyzeText e2 p2 s1) in
  ∃ r1 r2 k1 k2,
    snd (analyzeText e1 p1 store) = Ret (Content r1) ∧
    snd (analyzeText e2 p2 s1) = Ret (Content r2) ∧
    analysisId r1 = env_analysisId e1 ∧ analysisId r2 = env_analysisId e2 ∧
    s1 !! analysisId r1 = Some k1 ∧ s2 !! analysisId r2 = Some k2 ∧
    stored_result k1 = r1 ∧ stored_result k2 = r2 ∧
    stored_input k2 = preview (text p2) ∧
    (length (stored_input k2) ≤ 103)%nat ∧
    ((length (text p2) ≤ 100)%nat → stored_input k2 = text p2) ∧
    ((100 < length (text p2))%nat → stored_input k2 = take 100 (text p2) ++ lit "...") ∧
    (analysisId r1 ≠ analysisId r2 → s2 !! analysisId r1 = Some k1) ∧
    (∀ id, id ≠ analysisId r1 → id ≠ analysisId r2 → s2 !! id = store !! id).
Proof.
  intros s1 s2. subst s1 s2.
  destruct (analyzeText_settles e1 p1 store) as (r1 & E1 & Hid1 & _). rewrite E1.
  cbn [fst snd].
  destruct (analyzeText_settles e2 p2
              (<[env_analysisId e1 :=
                   {| stored_type := "text"; stored_input := preview (text p1);
                      stored_options :=
                        make_opts (default default_options (params_options p1));
                      stored_result := r1 |}]> store)) as (r2 & E2 & Hid2 & _).
  rewrite E2. cbn [fst snd].
  eexists r1, r2, _, _.
  split; [done |]. split; [done |]. split; [done |]. split; [done |].
  rewrite Hid1, Hid2.
  split; [apply lookup_insert_eq |]. split; [apply lookup_insert_eq |].
  cbn [stored_result stored_input].
  split; [done |]. split; [done |]. split; [done |].
  split; [apply preview_length |]. split; [apply preview_short |].
  split.
  { intros H. unfold preview. by rewrite (proj2 (Nat.ltb_lt _ _) H). }
  split.
  - intros Hne. rewrite lookup_insert_ne by done. apply lookup_insert_eq.
  - intros id H1 H2. by rewrite !lookup_insert_ne.
Qed.

End StoredAnalysisFacts.
